(** * SlatteryShanghai: the round/turn state machine of the card-game server

    A shallow embedding of the [Game] class of the Shanghai Rummy server and
    the properties of its specification.  The repository holds several
    revisions of the server; two families are embedded here, each in a
    module of its own:

    - [Server]  : [src/server.js] (one [playerData] record per player, a
                  latched [goneDown] flag, a timed buy phase);
    - [Part003] : [src/unnamed/part_003] (one map per attribute, go-out
                  validation by [validatePlayerMeetsRoundRequirements],
                  [buyCard], [layOffCard]);
    - [Part001] : [src/unnamed/part_001], which shares the state and most
                  methods of [Part003]; only the methods that differ
                  ([makeMeld], [layOffCard]) are embedded again.

    Around them: [ServerAI] and [Part003AI] hold what the [AIPlayer] classes
    of the two files compute (the value of a card, the meld and the discard
    they choose); [ServerLobby] and [Part003Lobby] hold the constructor of
    the game, the roster ([addPlayer], [removePlayer], [startGame]) and, for
    server.js, the rate limiter of a connection; [Part001Socket] holds the
    handler of the [reorderCards] message of part_001.

    JavaScript arrays of cards are lists whose elements are either a card or
    [undefined] (what [pop] returns on an empty array and what an
    out-of-range read gives); reading a property of [undefined] throws.
    Methods are state-passing functions [Game -> Game * Completion R]: the
    state after the call (also when it throws) and what the call returned.
    [Math.random] is an explicit argument.  Socket traffic, logging and the
    timers that schedule AI turns change no game state and are left out. *)

From stdpp Require Import gmap strings list sorting fin_maps pretty.

Local Open Scope string_scope.
Local Open Scope Z_scope.
Local Open Scope list_scope.

(** ** Cards *)

Inductive Suit := hearts | diamonds | clubs | spades.

Inductive Rank := RA | R2 | R3 | R4 | R5 | R6 | R7 | R8 | R9 | R10 | RJ | RQ | RK.

#[global] Instance Suit_eq_dec : EqDecision Suit.
Proof. solve_decision. Defined.

#[global] Instance Rank_eq_dec : EqDecision Rank.
Proof. solve_decision. Defined.

Definition SUITS : list Suit := [hearts; diamonds; clubs; spades].

Definition RANKS : list Rank := [RA; R2; R3; R4; R5; R6; R7; R8; R9; R10; RJ; RQ; RK].

(** [RANK_VALUES] of server.js; [getCardValue] of the other revisions
    computes the same numbers. *)
Definition RANK_VALUES (r : Rank) : Z :=
  match r with
  | RA => 1 | R2 => 2 | R3 => 3 | R4 => 4 | R5 => 5 | R6 => 6 | R7 => 7
  | R8 => 8 | R9 => 9 | R10 => 10 | RJ => 10 | RQ => 10 | RK => 10
  end.

(** [RANK_SCORES] of server.js. *)
Definition RANK_SCORES (r : Rank) : Z :=
  match r with
  | RA => 20 | R2 => 2 | R3 => 3 | R4 => 4 | R5 => 5 | R6 => 6 | R7 => 7
  | R8 => 8 | R9 => 9 | R10 => 10 | RJ => 10 | RQ => 10 | RK => 10
  end.

(** A card is an immutable value; [value], [display] and [color] are fixed
    by the constructor from [suit] and [rank]. *)
Record Card := mkCard { suit : Suit; rank : Rank }.

#[global] Instance Card_eq_dec : EqDecision Card.
Proof. solve_decision. Defined.

Definition value (c : Card) : Z := RANK_VALUES (rank c).

(** [Card.getScoreValue] of part_000, part_001 and part_003. *)
Definition getScoreValue (c : Card) : Z :=
  match rank c with
  | RA => 20
  | RJ | RQ | RK => 10
  | r => RANK_VALUES r
  end.

Definition rankName (r : Rank) : string :=
  match r with
  | RA => "A" | R2 => "2" | R3 => "3" | R4 => "4" | R5 => "5" | R6 => "6"
  | R7 => "7" | R8 => "8" | R9 => "9" | R10 => "10" | RJ => "J" | RQ => "Q"
  | RK => "K"
  end.

Definition suitSymbol (s : Suit) : string :=
  match s with hearts => "♥" | diamonds => "♦" | clubs => "♣" | spades => "♠" end.

Definition display (c : Card) : string := rankName (rank c) +:+ suitSymbol (suit c).

(** ** JavaScript values and completions *)

Inductive JsError :=
  | TypeError (what : string)
  | ReferenceError (what : string).

Inductive Completion (A : Type) :=
  | Normal (a : A)
  | Throw (e : JsError).

Arguments Normal {A} a.
Arguments Throw {A} e.

#[global] Instance Completion_ret : MRet Completion := @Normal.

#[global] Instance Completion_bind : MBind Completion := λ A B k c,
  match c with
  | Normal a => k a
  | Throw e => Throw e
  end.

(** An array element: a card, or [undefined]. *)
Abbreviation slot := (option Card).
Abbreviation undefined := (@None Card).

(** [o.f] for a card property [f]: a TypeError on [undefined]. *)
Definition prop {A} (f : Card -> A) (o : slot) : Completion A :=
  match o with
  | Some c => Normal (f c)
  | None => Throw (TypeError "Cannot read properties of undefined")
  end.

(** [arr.every(p)], stopping at the first element that fails. *)
Fixpoint every {A} (p : A -> Completion bool) (arr : list A) : Completion bool :=
  match arr with
  | [] => Normal true
  | x :: rest => b ← p x; if b : bool then every p rest else Normal false
  end.

(** ** Arrays *)

(** [arr[i]] for a number [i]. *)
Definition at_index {A} (arr : list (option A)) (i : Z) : option A :=
  if decide (0 <= i) then mjoin (arr !! Z.to_nat i) else None.

(** [arr.pop()]: the last element (or [undefined]) and the shortened array. *)
Definition pop {A} (arr : list (option A)) : option A * list (option A) :=
  match reverse arr with
  | [] => (None, [])
  | x :: rest => (x, reverse rest)
  end.

Definition push {A} (arr : list A) (x : A) : list A := arr ++ [x].

(** Where [splice(start, ...)] starts: a negative [start] counts from the
    end, and the result is clamped to the array. *)
Definition spliceStart (len : nat) (start : Z) : nat :=
  if decide (start < 0) then Z.to_nat (Z.max (Z.of_nat len + start) 0)
  else Z.to_nat (Z.min start (Z.of_nat len)).

(** [arr.splice(start, 1)]: the removed element ([undefined] when nothing is
    removed: [splice(...)[0]]) and the remaining array. *)
Definition splice1 {A} (arr : list (option A)) (start : Z) : option A * list (option A) :=
  let k := spliceStart (length arr) start in
  (mjoin (arr !! k), delete k arr).

(** [arr.splice(start, 0, x)]. *)
Definition spliceIn {A} (arr : list A) (start : Z) (x : A) : list A :=
  let k := spliceStart (length arr) start in
  take k arr ++ x :: drop k arr.

(** [arr.sort(cmp)] is stable; [le a b] stands for [cmp(a, b) <= 0]. *)
Fixpoint insertSorted {A} (le : A -> A -> bool) (x : A) (l : list A) : list A :=
  match l with
  | [] => [x]
  | y :: rest => if le x y then x :: y :: rest else y :: insertSorted le x rest
  end.

Fixpoint sortBy {A} (le : A -> A -> bool) (l : list A) : list A :=
  match l with
  | [] => []
  | x :: rest => insertSorted le x (sortBy le rest)
  end.

(** [cards.sort((a, b) => a.value - b.value)]: [undefined] elements go to
    the end without the comparator being called. *)
Definition sortByValue (cards : list slot) : list slot :=
  (Some <$> sortBy (fun a b => bool_decide (value a <= value b)) (omap id cards))
  ++ filter (fun o => o = undefined) cards.

(** The loop of [validateMeld] over the sorted run:
    [sorted[i].value !== sorted[i-1].value + 1]. *)
Fixpoint stepsByOne (sorted : list slot) : Completion bool :=
  match sorted with
  | prev :: ((cur :: _) as rest) =>
      v ← prop value cur;
      w ← prop value prev;
      if decide (v = w + 1) then stepsByOne rest else Normal false
  | _ => Normal true
  end.

(** ** Round requirements *)

Module Req.
Record t := mk {
  melds : string;
  sets : Z;
  runs : Z;
  minSetSize : Z;
  minRunSize : Z
}.
End Req.

Definition ROUND_REQUIREMENTS : list Req.t :=
  [ Req.mk "2 Sets of 3" 2 0 3 0;
    Req.mk "1 Set of 3 + 1 Run of 4" 1 1 3 4;
    Req.mk "2 Runs of 4" 0 2 0 4;
    Req.mk "3 Sets of 3" 3 0 3 0;
    Req.mk "2 Sets of 3 + 1 Run of 4" 2 1 3 4;
    Req.mk "1 Set of 3 + 2 Runs of 4" 1 2 3 4;
    Req.mk "3 Runs of 4" 0 3 0 4 ].

(** [ROUND_REQUIREMENTS[currentRound - 1]]; the round counter starts at 1
    and is only ever incremented. *)
Definition requirementOf (currentRound : nat) : option Req.t :=
  match currentRound with
  | O => None
  | S k => ROUND_REQUIREMENTS !! k
  end.

(** [req.f]: a TypeError when the table has no entry for the round. *)
Definition reqProp {A} (f : Req.t -> A) (o : option Req.t) : Completion A :=
  match o with
  | Some r => Normal (f r)
  | None => Throw (TypeError "Cannot read properties of undefined")
  end.

Record Meld := mkMeld { type : string; cards : list slot }.

(** ** The stock *)

(** [Math.floor(Math.random() * (i + 1))] of the shuffle: [pick i] is the
    number drawn in the iteration for index [i], reduced to [0..i]. *)
Abbreviation Random := (nat -> nat).

Module Deck.

(** [this.cards]. *)
Abbreviation t := (list slot).

(** Two decks, suit by suit, rank by rank. *)
Definition initialize : t :=
  _ ← [0; 1]; s ← SUITS; r ← RANKS; [Some (mkCard s r)].

(** [[cards[i], cards[j]] = [cards[j], cards[i]]]. *)
Definition swap (cards : t) (i j : nat) : t :=
  match cards !! i, cards !! j with
  | Some ci, Some cj => <[j := ci]> (<[i := cj]> cards)
  | _, _ => cards
  end.

(** The loop [for (i = ...; i > 0; i--)] from index [i] down. *)
Fixpoint shuffleFrom (pick : Random) (i : nat) (cards : t) : t :=
  match i with
  | O => cards
  | S i' => shuffleFrom pick i' (swap cards i (pick i `mod` S i)%nat)
  end.

Definition shuffle (pick : Random) (cards : t) : t :=
  shuffleFrom pick (length cards - 1)%nat cards.

(** [new Deck()]. *)
Definition new (pick : Random) : t := shuffle pick initialize.

Definition deal (cards : t) : slot * t := pop cards.

Definition isEmpty (cards : t) : bool := bool_decide (length cards = 0%nat).

(** [reset(discardPile)] of server.js. *)
Definition reset (pick : Random) (cards : t) (discardPile : list slot) : bool * t :=
  if decide (0 < length discardPile)%nat then (true, shuffle pick discardPile)
  else (false, cards).

End Deck.

(** ** What the methods return *)

Record FinalResults := mkFinal {
  winner : string;
  winnerScore : Z;
  finalStandings : list (string * Z)
}.

Inductive RoundResult :=
  | GameEnded (finalResults : FinalResults)
  | NewRound (newRound : nat).

(** [{ success, message, card, roundEnded, roundResult }]; [roundEnded] is
    set exactly when there is a [roundResult]. *)
Record Reply := mkReply {
  success : bool;
  message : option string;
  card : option slot;
  roundResult : option RoundResult
}.

Definition failure (msg : string) : Reply := mkReply false (Some msg) None None.
Definition ok : Reply := mkReply true None None None.
Definition okCard (c : slot) : Reply := mkReply true None (Some c) None.
Definition okEnded (c : option slot) (r : RoundResult) : Reply := mkReply true None c (Some r).

Definition roundEnded (r : Reply) : bool := bool_decide (is_Some (roundResult r)).

(** [map.set(k, v)] on a [Map], whose entries keep their insertion order. *)
Fixpoint mapSet {V} (entries : list (string * V)) (k : string) (v : V) : list (string * V) :=
  match entries with
  | [] => [(k, v)]
  | (k', v') :: rest =>
      if decide (k' = k) then (k, v) :: rest else (k', v') :: mapSet rest k v
  end.

(** [scores[i] = v] on a score array; an index past the end would extend
    the array, the skipped holes counting for nothing in a later [reduce]. *)
Definition setAt (scores : list Z) (i : nat) (v : Z) : list Z :=
  if decide (i < length scores)%nat then <[i := v]> scores
  else scores ++ replicate (i - length scores)%nat 0 ++ [v].

(** [scores.reduce((sum, score) => sum + score, 0)]. *)
Definition total (scores : list Z) : Z := foldl Z.add 0 scores.

(** [arr.filter(p)] and [arr.reduce(f, init)] with callbacks that may throw. *)
Fixpoint filterC {A} (p : A -> Completion bool) (arr : list A) : Completion (list A) :=
  match arr with
  | [] => Normal []
  | x :: rest =>
      b ← p x;
      kept ← filterC p rest;
      Normal (if b : bool then x :: kept else kept)
  end.

Fixpoint reduceC {A B} (f : B -> A -> Completion B) (arr : list A) (acc : B) : Completion B :=
  match arr with
  | [] => Normal acc
  | x :: rest => acc' ← f acc x; reduceC f rest acc'
  end.

Definition typeErrorUndefined {A} : Completion A :=
  Throw (TypeError "Cannot read properties of undefined").

(** [scores[currentRound - 1] = v]. *)
Definition setScore (scores : list Z) (currentRound : nat) (v : Z) : list Z :=
  match currentRound with
  | O => scores
  | S k => setAt scores k v
  end.

(** [indices.sort((a, b) => b - a)]. *)
Definition sortDescending (indices : list Z) : list Z :=
  sortBy (fun a b => bool_decide (b <= a)) indices.

(** [sorted.forEach(index => hand.splice(index, 1))]. *)
Definition removeAll (hand : list slot) (sorted : list Z) : list slot :=
  foldl (fun h i => (splice1 h i).2) hand sorted.

(** The hands of the players [ps], player by player, in a map of hands. *)
Definition handsOf (ps : list string) (hs : gmap string (list slot)) : list (list slot) :=
  (fun p => default [] (hs !! p)) <$> ps.

(** * server.js *)

Module Server.

Inductive Difficulty := easy | medium | hard.

(** [playerData.get(name)]; the [wantList] field is never read. *)
Record PlayerData := mkData {
  hand : list slot;
  melds : list Meld;
  buys : Z;
  scores : list Z;
  goneDown : bool
}.

Module BuyPhase.
Record t := mk {
  active : bool;
  card : option slot;
  requests : list (string * bool)
}.
Definition idle : t := mk false None [].
End BuyPhase.

Record Game := mkGame {
  players : list string;
  aiPlayers : gmap string Difficulty;
  playerData : gmap string PlayerData;
  currentRound : nat;
  currentPlayerIndex : nat;
  deck : Deck.t;
  discardPile : list slot;
  hasDrawn : bool;
  buyPhase : BuyPhase.t;
  gameStarted : bool
}.

Definition withHand (h : list slot) (d : PlayerData) : PlayerData :=
  mkData h (melds d) (buys d) (scores d) (goneDown d).
Definition withMelds (m : list Meld) (d : PlayerData) : PlayerData :=
  mkData (hand d) m (buys d) (scores d) (goneDown d).
Definition withBuys (b : Z) (d : PlayerData) : PlayerData :=
  mkData (hand d) (melds d) b (scores d) (goneDown d).
Definition withScores (s : list Z) (d : PlayerData) : PlayerData :=
  mkData (hand d) (melds d) (buys d) s (goneDown d).
Definition withGoneDown (b : bool) (d : PlayerData) : PlayerData :=
  mkData (hand d) (melds d) (buys d) (scores d) b.

Definition withPlayerData (pd : gmap string PlayerData) (g : Game) : Game :=
  mkGame (players g) (aiPlayers g) pd (currentRound g) (currentPlayerIndex g)
         (deck g) (discardPile g) (hasDrawn g) (buyPhase g) (gameStarted g).
Definition withCurrentRound (r : nat) (g : Game) : Game :=
  mkGame (players g) (aiPlayers g) (playerData g) r (currentPlayerIndex g)
         (deck g) (discardPile g) (hasDrawn g) (buyPhase g) (gameStarted g).
Definition withCurrentPlayerIndex (i : nat) (g : Game) : Game :=
  mkGame (players g) (aiPlayers g) (playerData g) (currentRound g) i
         (deck g) (discardPile g) (hasDrawn g) (buyPhase g) (gameStarted g).
Definition withDeck (d : Deck.t) (g : Game) : Game :=
  mkGame (players g) (aiPlayers g) (playerData g) (currentRound g) (currentPlayerIndex g)
         d (discardPile g) (hasDrawn g) (buyPhase g) (gameStarted g).
Definition withDiscardPile (p : list slot) (g : Game) : Game :=
  mkGame (players g) (aiPlayers g) (playerData g) (currentRound g) (currentPlayerIndex g)
         (deck g) p (hasDrawn g) (buyPhase g) (gameStarted g).
Definition withHasDrawn (b : bool) (g : Game) : Game :=
  mkGame (players g) (aiPlayers g) (playerData g) (currentRound g) (currentPlayerIndex g)
         (deck g) (discardPile g) b (buyPhase g) (gameStarted g).
Definition withBuyPhase (b : BuyPhase.t) (g : Game) : Game :=
  mkGame (players g) (aiPlayers g) (playerData g) (currentRound g) (currentPlayerIndex g)
         (deck g) (discardPile g) (hasDrawn g) b (gameStarted g).

(** [data.f = v] for the record of [player]. *)
Definition setData (player : string) (d : PlayerData) (g : Game) : Game :=
  withPlayerData (<[player := d]> (playerData g)) g.

Definition getCurrentPlayer (g : Game) : option string :=
  players g !! currentPlayerIndex g.

(** ** AIPlayer *)

Definition evaluateCard (c : slot) (h : list slot) : Completion Z :=
  sameRank ← filterC (fun x => r ← prop rank x; r' ← prop rank c;
                               Normal (bool_decide (r = r'))) h;
  sameSuit ← filterC (fun x => s ← prop suit x; s' ← prop suit c;
                               Normal (bool_decide (s = s'))) h;
  reduceC (fun v x =>
             a ← prop value x;
             b ← prop value c;
             let diff := Z.abs (a - b) in
             let v1 := if decide (diff = 1) then v + 4 else v in
             Normal (if decide (diff = 2) then v1 + 2 else v1))
          sameSuit (0 + Z.of_nat (length sameRank) * 3).

Definition threshold (d : Difficulty) : Z :=
  match d with easy => 7 | medium => 5 | hard => 4 end.

Definition shouldBuy (d : Difficulty) (c : slot) (h : list slot) (b : Z) : Completion bool :=
  if decide (b <= 0) then Normal false
  else v ← evaluateCard c h; Normal (bool_decide (threshold d < v)).

(** ** Game *)

Definition validateMeld (cs : list slot) (ty : string) : Completion bool :=
  if decide (ty = "set") then
    if decide (length cs < 3)%nat then Normal false
    else
      r0 ← prop rank (at_index cs 0);
      every (fun c => r ← prop rank c; Normal (bool_decide (r = r0))) cs
  else if decide (ty = "run") then
    if decide (length cs < 4)%nat then Normal false
    else
      s0 ← prop suit (at_index cs 0);
      same ← every (fun c => s ← prop suit c; Normal (bool_decide (s = s0))) cs;
      if negb same then Normal false
      else stepsByOne (sortByValue cs)
  else Normal false.

Definition nextTurn (g : Game) : Game :=
  withHasDrawn false
    (withCurrentPlayerIndex ((currentPlayerIndex g + 1) `mod` length (players g))%nat g).

Definition endBuyPhase (g : Game) : Game :=
  nextTurn (withBuyPhase BuyPhase.idle g).

(** The inner loop of [dealRound]: [cardsPerPlayer] pushes of [deck.deal()]. *)
Fixpoint dealHand (n : nat) (h : list slot) (d : Deck.t) : list slot * Deck.t :=
  match n with
  | O => (h, d)
  | S n' => let '(c, d') := Deck.deal d in dealHand n' (push h c) d'
  end.

(** [players.forEach(player => ...)] of [dealRound]. *)
Fixpoint dealPlayers (cardsPerPlayer : nat) (ps : list string) (g : Game)
  : Game * Completion () :=
  match ps with
  | [] => (g, Normal ())
  | player :: rest =>
      match playerData g !! player with
      | None => (g, typeErrorUndefined)
      | Some data =>
          let '(h, d) := dealHand cardsPerPlayer [] (deck g) in
          let data' := mkData h [] 3 (scores data) false in
          dealPlayers cardsPerPlayer rest (withDeck d (setData player data' g))
      end
  end.

Definition dealRound (pick : Random) (g : Game) : Game * Completion () :=
  let '(c, d) := Deck.deal (Deck.new pick) in
  let g1 := withDiscardPile [c] (withDeck d g) in
  let cardsPerPlayer := (10 + currentRound g1)%nat in
  match dealPlayers cardsPerPlayer (players g1) g1 with
  | (g2, Throw e) => (g2, Throw e)
  | (g2, Normal _) =>
      let start := if decide (currentRound g2 = 1%nat) then 0%nat
                   else ((currentRound g2 - 1) `mod` length (players g2))%nat in
      (withHasDrawn false (withCurrentPlayerIndex start g2), Normal ())
  end.

Definition endGame (g : Game) : Completion FinalResults :=
  finalScores ← reduceC (fun (m : list (string * Z)) player =>
                           match playerData g !! player with
                           | None => typeErrorUndefined
                           | Some data => Normal (mapSet m player (total (scores data)))
                           end) (players g) [];
  let sorted := sortBy (fun a b => bool_decide (a.2 <= b.2)) finalScores in
  match sorted with
  | [] => typeErrorUndefined
  | first :: _ => Normal (mkFinal first.1 first.2 sorted)
  end.

(** [card.getScoreValue()]: the [Card] class of server.js has a constructor
    and no method ("Removed redundant methods since values are
    pre-computed"), so the call throws for every card. *)
Definition callGetScoreValue (c : slot) : Completion Z :=
  match c with
  | Some _ => Throw (TypeError "card.getScoreValue is not a function")
  | None => typeErrorUndefined
  end.

(** [players.forEach(player => ...)] of [endRound]. *)
Fixpoint scorePlayers (winnerName : string) (ps : list string) (g : Game)
  : Game * Completion () :=
  match ps with
  | [] => (g, Normal ())
  | player :: rest =>
      match playerData g !! player with
      | None => (g, typeErrorUndefined)
      | Some data =>
          let score :=
            if decide (player ≠ winnerName)
            then reduceC (fun sum c => v ← callGetScoreValue c; Normal (sum + v)) (hand data) 0
            else Normal 0 in
          match score with
          | Throw e => (g, Throw e)
          | Normal v =>
              scorePlayers winnerName rest
                (setData player (withScores (setScore (scores data) (currentRound g) v) data) g)
          end
      end
  end.

Definition endRound (pick : Random) (g : Game) (winnerName : string)
  : Game * Completion RoundResult :=
  match scorePlayers winnerName (players g) g with
  | (g1, Throw e) => (g1, Throw e)
  | (g1, Normal _) =>
      if decide (7 <= currentRound g1)%nat then
        (g1, results ← endGame g1; Normal (GameEnded results))
      else
        let g2 := withCurrentRound (currentRound g1 + 1)%nat g1 in
        match dealRound pick g2 with
        | (g3, Throw e) => (g3, Throw e)
        | (g3, Normal _) => (g3, Normal (NewRound (currentRound g3)))
        end
  end.

Definition drawCard (pick : Random) (g : Game) (player : string)
  : Game * Completion Reply :=
  if decide (getCurrentPlayer g ≠ Some player ∨ hasDrawn g = true) then
    (g, Normal (failure "Cannot draw"))
  else
    let recycled :=
      if Deck.isEmpty (deck g) then
        let '(top, pile) := pop (discardPile g) in
        let g1 := withDiscardPile pile g in
        let '(done, d) := Deck.reset pick (deck g1) pile in
        if done : bool then inl (withDiscardPile [top] (withDeck d g1)) else inr g1
      else inl g in
    match recycled with
    | inr g1 => (g1, Normal (failure "No cards available"))
    | inl g2 =>
        match playerData g2 !! player with
        | None => (g2, typeErrorUndefined)
        | Some data =>
            let '(c, d) := Deck.deal (deck g2) in
            (withHasDrawn true
               (setData player (withHand (push (hand data) c) data) (withDeck d g2)),
             Normal ok)
        end
    end.

Definition pickUpDiscard (g : Game) (player : string) : Game * Completion Reply :=
  if decide (getCurrentPlayer g ≠ Some player ∨ hasDrawn g = true
             ∨ length (discardPile g) = 0%nat) then
    (g, Normal (failure "Cannot pick up"))
  else
    let '(c, pile) := pop (discardPile g) in
    let g1 := withDiscardPile pile g in
    match playerData g1 !! player with
    | None => (g1, typeErrorUndefined)
    | Some data =>
        let g2 := withHasDrawn true
                    (setData player (withHand (push (hand data) c) data) g1) in
        (g2, _ ← prop display c; Normal (okCard c))
    end.

(** [indices.map(i => data.hand[i])]. *)
Definition selectCards (data : option PlayerData) (indices : list Z)
  : Completion (list slot) :=
  match indices, data with
  | [], _ => Normal []
  | _, None => typeErrorUndefined
  | _, Some d => Normal ((fun i => at_index (hand d) i) <$> indices)
  end.

(** [data.melds.filter(m => m.type === ty && m.cards.length >= minSize).length]. *)
Definition countMelds (ty : string) (minSize : Z) (ms : list Meld) : Z :=
  Z.of_nat (length (filter (fun m => type m = ty ∧ minSize <= Z.of_nat (length (cards m))) ms)).

Definition makeMeld (pick : Random) (g : Game) (player : string)
    (indices : list Z) (ty : string) : Game * Completion Reply :=
  if decide (getCurrentPlayer g ≠ Some player) then
    (g, Normal (failure "Not your turn"))
  else
    match selectCards (playerData g !! player) indices with
    | Throw e => (g, Throw e)
    | Normal cs =>
        match validateMeld cs ty, playerData g !! player with
        | Throw e, _ => (g, Throw e)
        | Normal false, _ => (g, Normal (failure "Invalid meld"))
        | Normal true, None => (g, typeErrorUndefined)
        | Normal true, Some data =>
            let h := removeAll (hand data) (sortDescending indices) in
            let data1 := withMelds (push (melds data) (mkMeld ty cs)) (withHand h data) in
            let g1 := setData player data1 g in
            let latched : Completion PlayerData :=
              if goneDown data1 then Normal data1
              else
                match requirementOf (currentRound g1) with
                | None => typeErrorUndefined
                | Some req =>
                    let nSets := countMelds "set" (Req.minSetSize req) (melds data1) in
                    let nRuns := countMelds "run" (Req.minRunSize req) (melds data1) in
                    if decide (Req.sets req <= nSets ∧ Req.runs req <= nRuns)
                    then Normal (withGoneDown true data1)
                    else Normal data1
                end in
            match latched with
            | Throw e => (g1, Throw e)
            | Normal data2 =>
                let g2 := setData player data2 g1 in
                if decide (length (hand data2) = 0%nat ∧ goneDown data2 = true) then
                  match endRound pick g2 player with
                  | (g3, Throw e) => (g3, Throw e)
                  | (g3, Normal r) => (g3, Normal (okEnded None r))
                  end
                else (g2, Normal ok)
            end
        end
    end.

(** [players.filter(p => p !== current && playerData.get(p).buys > 0)]. *)
Definition eligibleBuyers (g : Game) : Completion (list string) :=
  filterC (fun p =>
             if decide (Some p ≠ getCurrentPlayer g) then
               match playerData g !! p with
               | None => typeErrorUndefined
               | Some data => Normal (bool_decide (0 < buys data))
               end
             else Normal false) (players g).

(** [buyers.forEach(player => ...)]: an AI answers at once, a human is
    only notified. *)
Fixpoint askBuyers (c : slot) (buyers : list string) (g : Game) : Game * Completion () :=
  match buyers with
  | [] => (g, Normal ())
  | player :: rest =>
      match aiPlayers g !! player with
      | None => askBuyers c rest g
      | Some ai =>
          match playerData g !! player with
          | None => (g, typeErrorUndefined)
          | Some data =>
              match shouldBuy ai c (hand data) (buys data) with
              | Throw e => (g, Throw e)
              | Normal wants =>
                  let bp := buyPhase g in
                  askBuyers c rest
                    (withBuyPhase (BuyPhase.mk (BuyPhase.active bp) (BuyPhase.card bp)
                                     (mapSet (BuyPhase.requests bp) player wants)) g)
              end
          end
      end
  end.

(** The buy window opens; [processBuyPhase] runs when its 3000 ms timer
    fires, unless no one is eligible. *)
Definition startBuyPhase (g : Game) (c : slot) : Game * Completion () :=
  let g1 := withBuyPhase (BuyPhase.mk true (Some c) []) g in
  match eligibleBuyers g1 with
  | Throw e => (g1, Throw e)
  | Normal [] => (endBuyPhase g1, Normal ())
  | Normal buyers => askBuyers c buyers g1
  end.

(** The handler of the [submitBuyRequest] message. *)
Definition submitBuyRequest (g : Game) (playerName : string) (wantsCard : bool) : Game :=
  let bp := buyPhase g in
  if BuyPhase.active bp then
    withBuyPhase (BuyPhase.mk (BuyPhase.active bp) (BuyPhase.card bp)
                    (mapSet (BuyPhase.requests bp) playerName wantsCard)) g
  else g.

Definition processBuyPhase (g : Game) : Game * Completion () :=
  let buyers := (filter (fun e => e.2 = true) (BuyPhase.requests (buyPhase g))).*1 in
  match buyers with
  | [] => (endBuyPhase g, Normal ())
  | buyer :: _ =>
      match playerData g !! buyer with
      | None => (g, typeErrorUndefined)
      | Some data =>
          let '(c, pile) := pop (discardPile g) in
          let '(penalty, d) := Deck.deal (deck g) in
          let data' := withBuys (buys data - 1)
                         (withHand (push (push (hand data) c) penalty) data) in
          (endBuyPhase (setData buyer data' (withDeck d (withDiscardPile pile g))),
           Normal ())
      end
  end.

Definition discardCard (pick : Random) (g : Game) (player : string) (index : Z)
  : Game * Completion Reply :=
  if decide (getCurrentPlayer g ≠ Some player ∨ hasDrawn g = false) then
    (g, Normal (failure "Cannot discard"))
  else
    match playerData g !! player with
    | None => (g, typeErrorUndefined)
    | Some data =>
        if decide (index < 0 ∨ Z.of_nat (length (hand data)) <= index) then
          (g, Normal (failure "Invalid card"))
        else
          let '(c, h) := splice1 (hand data) index in
          let data1 := withHand h data in
          let g1 := withDiscardPile (push (discardPile g) c) (setData player data1 g) in
          match prop display c with
          | Throw e => (g1, Throw e)
          | Normal _ =>
              if decide (length (hand data1) = 0%nat ∧ goneDown data1 = true) then
                match endRound pick g1 player with
                | (g2, Throw e) => (g2, Throw e)
                | (g2, Normal r) => (g2, Normal (okEnded None r))
                end
              else
                match startBuyPhase g1 c with
                | (g2, Throw e) => (g2, Throw e)
                | (g2, Normal _) => (g2, Normal (okCard c))
                end
          end
    end.

(** Every array that can hold a card: the hands and melds of the players
    in the roster, the discard pile and the stock. *)
Definition handCards (g : Game) : list slot :=
  p ← players g; default [] (hand <$> playerData g !! p).
Definition meldCards (g : Game) : list slot :=
  p ← players g; m ← default [] (melds <$> playerData g !! p); cards m.
Definition tableCards (g : Game) : list slot :=
  handCards g ++ meldCards g ++ discardPile g ++ deck g.

(** The hands of the players [ps], player by player. *)
Definition handsIn (ps : list string) (pd : gmap string PlayerData) : list (list slot) :=
  (fun p => default [] (hand <$> pd !! p)) <$> ps.

(** The hands of the roster. *)
Definition hands (g : Game) : list (list slot) := handsIn (players g) (playerData g).

End Server.

(** * src/unnamed/part_003 *)

Module Part003.

Record Game := mkGame {
  players : list string;
  playerHands : gmap string (list slot);
  playerMelds : gmap string (list Meld);
  playerBuys : gmap string Z;
  playerScores : gmap string (list Z);
  currentRound : nat;
  currentPlayerIndex : nat;
  deck : Deck.t;
  discardPile : list slot;
  hasDrawn : bool;
  gameStarted : bool
}.

Definition withPlayerHands (h : gmap string (list slot)) (g : Game) : Game :=
  mkGame (players g) h (playerMelds g) (playerBuys g) (playerScores g) (currentRound g)
         (currentPlayerIndex g) (deck g) (discardPile g) (hasDrawn g) (gameStarted g).
Definition withPlayerMelds (m : gmap string (list Meld)) (g : Game) : Game :=
  mkGame (players g) (playerHands g) m (playerBuys g) (playerScores g) (currentRound g)
         (currentPlayerIndex g) (deck g) (discardPile g) (hasDrawn g) (gameStarted g).
Definition withPlayerBuys (b : gmap string Z) (g : Game) : Game :=
  mkGame (players g) (playerHands g) (playerMelds g) b (playerScores g) (currentRound g)
         (currentPlayerIndex g) (deck g) (discardPile g) (hasDrawn g) (gameStarted g).
Definition withPlayerScores (s : gmap string (list Z)) (g : Game) : Game :=
  mkGame (players g) (playerHands g) (playerMelds g) (playerBuys g) s (currentRound g)
         (currentPlayerIndex g) (deck g) (discardPile g) (hasDrawn g) (gameStarted g).
Definition withCurrentRound (r : nat) (g : Game) : Game :=
  mkGame (players g) (playerHands g) (playerMelds g) (playerBuys g) (playerScores g) r
         (currentPlayerIndex g) (deck g) (discardPile g) (hasDrawn g) (gameStarted g).
Definition withCurrentPlayerIndex (i : nat) (g : Game) : Game :=
  mkGame (players g) (playerHands g) (playerMelds g) (playerBuys g) (playerScores g)
         (currentRound g) i (deck g) (discardPile g) (hasDrawn g) (gameStarted g).
Definition withDeck (d : Deck.t) (g : Game) : Game :=
  mkGame (players g) (playerHands g) (playerMelds g) (playerBuys g) (playerScores g)
         (currentRound g) (currentPlayerIndex g) d (discardPile g) (hasDrawn g)
         (gameStarted g).
Definition withDiscardPile (p : list slot) (g : Game) : Game :=
  mkGame (players g) (playerHands g) (playerMelds g) (playerBuys g) (playerScores g)
         (currentRound g) (currentPlayerIndex g) (deck g) p (hasDrawn g) (gameStarted g).
Definition withHasDrawn (b : bool) (g : Game) : Game :=
  mkGame (players g) (playerHands g) (playerMelds g) (playerBuys g) (playerScores g)
         (currentRound g) (currentPlayerIndex g) (deck g) (discardPile g) b (gameStarted g).

(** [hand.push(...)], [hand.splice(...)] on the array of [player]. *)
Definition setHand (player : string) (h : list slot) (g : Game) : Game :=
  withPlayerHands (<[player := h]> (playerHands g)) g.
Definition setMelds (player : string) (m : list Meld) (g : Game) : Game :=
  withPlayerMelds (<[player := m]> (playerMelds g)) g.

Definition getCurrentPlayer (g : Game) : option string :=
  players g !! currentPlayerIndex g.

Definition nextTurn (g : Game) : Game :=
  withHasDrawn false
    (withCurrentPlayerIndex ((currentPlayerIndex g + 1) `mod` length (players g))%nat g).

(** [players.forEach(player => playerHands.get(player).push(deck.deal()))]. *)
Definition dealOne (st : gmap string (list slot) * Deck.t) (player : string)
  : gmap string (list slot) * Deck.t :=
  let '(c, d) := Deck.deal st.2 in
  (alter (fun h => push h c) player st.1, d).

Definition dealPass (ps : list string) (st : gmap string (list slot) * Deck.t)
  : gmap string (list slot) * Deck.t :=
  foldl dealOne st ps.

Definition dealRound (pick : Random) (g : Game) : Game :=
  let ps := players g in
  let hands0 := foldl (fun m p => <[p := []]> m) (playerHands g) ps in
  let melds0 := foldl (fun m p => <[p := []]> m) (playerMelds g) ps in
  let buys0 := foldl (fun m p => <[p := 3]> m) (playerBuys g) ps in
  let cardsPerPlayer := (10 + currentRound g)%nat in
  let '(hands1, d1) := Nat.iter cardsPerPlayer (dealPass ps) (hands0, Deck.new pick) in
  let '(c, d2) := Deck.deal d1 in
  mkGame ps hands1 melds0 buys0 (playerScores g) (currentRound g)
         ((currentRound g - 1) `mod` length ps)%nat d2 (push [] c) false (gameStarted g).

(** The counting loop of [validatePlayerMeetsRoundRequirements]. *)
Definition countValid (req : Req.t) (ms : list Meld) : Z * Z :=
  foldl (fun '(validSets, validRuns) m =>
           if decide (type m = "set" ∧ Req.minSetSize req <= Z.of_nat (length (cards m)))
           then (validSets + 1, validRuns)
           else if decide (type m = "run" ∧ Req.minRunSize req <= Z.of_nat (length (cards m)))
           then (validSets, validRuns + 1)
           else (validSets, validRuns)) (0, 0) ms.

(** The [meetsRequirements] field of the result. *)
Definition validatePlayerMeetsRoundRequirements (g : Game) (playerName : string)
  : Completion bool :=
  let ms := default [] (playerMelds g !! playerName) in
  match requirementOf (currentRound g) with
  | None => typeErrorUndefined
  | Some req =>
      let '(validSets, validRuns) := countValid req ms in
      Normal (bool_decide (Req.sets req <= validSets ∧ Req.runs req <= validRuns))
  end.

(** The message of a refused go-out. *)
Definition cannotGoOut (g : Game) : Completion string :=
  m ← reqProp Req.melds (requirementOf (currentRound g));
  Normal ("Cannot go out! You need: " +:+ m).

Definition endGame (g : Game) : Completion FinalResults :=
  finalScores ← reduceC (fun (m : list (string * Z)) player =>
                           match playerScores g !! player with
                           | None => typeErrorUndefined
                           | Some scores => Normal (mapSet m player (total scores))
                           end) (players g) [];
  let sortedPlayers := sortBy (fun a b => bool_decide (a.2 <= b.2)) finalScores in
  match sortedPlayers with
  | [] => typeErrorUndefined
  | first :: _ => Normal (mkFinal first.1 first.2 sortedPlayers)
  end.

(** [hand.reduce((sum, card) => sum + card.getScoreValue(), 0)]. *)
Definition handScore (h : option (list slot)) : Completion Z :=
  match h with
  | None => typeErrorUndefined
  | Some l => reduceC (fun sum c => v ← prop getScoreValue c; Normal (sum + v)) l 0
  end.

(** [players.forEach(player => ...)] of [endRound]. *)
Fixpoint scorePlayers (winnerName : string) (ps : list string) (g : Game)
  : Game * Completion () :=
  match ps with
  | [] => (g, Normal ())
  | player :: rest =>
      let roundScore :=
        if decide (player ≠ winnerName) then handScore (playerHands g !! player)
        else Normal 0 in
      match roundScore, playerScores g !! player with
      | Throw e, _ => (g, Throw e)
      | Normal _, None => (g, typeErrorUndefined)
      | Normal v, Some scores =>
          scorePlayers winnerName rest
            (withPlayerScores
               (<[player := setScore scores (currentRound g) v]> (playerScores g)) g)
      end
  end.

Definition endRound (pick : Random) (g : Game) (winnerName : string)
  : Game * Completion RoundResult :=
  match scorePlayers winnerName (players g) g with
  | (g1, Throw e) => (g1, Throw e)
  | (g1, Normal _) =>
      if decide (7 <= currentRound g1)%nat then
        (g1, results ← endGame g1; Normal (GameEnded results))
      else
        let g2 := dealRound pick (withCurrentRound (currentRound g1 + 1)%nat g1) in
        (g2, Normal (NewRound (currentRound g2)))
  end.

(** The validated array is sorted in place when it is a candidate run:
    the first component is [cards] after the call. *)
Definition validateMeld (cs : list slot) (meldType : string) : list slot * Completion bool :=
  if decide (meldType = "set" ∧ length cs < 3)%nat then (cs, Normal false)
  else if decide (meldType = "run" ∧ length cs < 4)%nat then (cs, Normal false)
  else if decide (meldType = "set") then
    (cs, every (fun c => r ← prop rank c; r0 ← prop rank (at_index cs 0);
                         Normal (bool_decide (r = r0))) cs)
  else if decide (meldType = "run") then
    match every (fun c => s ← prop suit c; s0 ← prop suit (at_index cs 0);
                          Normal (bool_decide (s = s0))) cs with
    | Throw e => (cs, Throw e)
    | Normal false => (cs, Normal false)
    | Normal true => let sortedCards := sortByValue cs in (sortedCards, stepsByOne sortedCards)
    end
  else (cs, Normal false).

(** [hand.push(x)] on [playerHands.get(playerName)]. *)
Definition pushToHand (g : Game) (playerName : string) (c : slot) : Game * Completion () :=
  match playerHands g !! playerName with
  | None => (g, typeErrorUndefined)
  | Some h => (setHand playerName (push h c) g, Normal ())
  end.

Definition drawCard (pick : Random) (g : Game) (playerName : string)
  : Game * Completion Reply :=
  if decide (getCurrentPlayer g ≠ Some playerName ∨ hasDrawn g = true) then
    (g, Normal (failure "Not your turn or already drawn"))
  else
    let recycled :=
      if Deck.isEmpty (deck g) then
        if decide (length (discardPile g) <= 1)%nat then None
        else
          let '(topCard, pile) := pop (discardPile g) in
          Some (withDiscardPile [topCard] (withDeck (Deck.shuffle pick pile) g))
      else Some g in
    match recycled with
    | None => (g, Normal (failure "No cards left to draw"))
    | Some g1 =>
        let '(c, d) := Deck.deal (deck g1) in
        match pushToHand (withDeck d g1) playerName c with
        | (g2, Throw e) => (g2, Throw e)
        | (g2, Normal _) => (withHasDrawn true g2, Normal (okCard c))
        end
    end.

Definition pickUpDiscard (g : Game) (playerName : string) : Game * Completion Reply :=
  if decide (getCurrentPlayer g ≠ Some playerName ∨ hasDrawn g = true) then
    (g, Normal (failure "Not your turn or already drawn"))
  else if decide (length (discardPile g) = 0%nat) then
    (g, Normal (failure "No card in discard pile"))
  else
    let '(c, pile) := pop (discardPile g) in
    match pushToHand (withDiscardPile pile g) playerName c with
    | (g1, Throw e) => (g1, Throw e)
    | (g1, Normal _) =>
        (withHasDrawn true g1, _ ← prop display c; Normal (okCard c))
    end.

(** [playerBuys.get(playerName) <= 0]: false for a missing entry. *)
Definition noBuysLeft (g : Game) (playerName : string) : bool :=
  match playerBuys g !! playerName with
  | Some b => bool_decide (b <= 0)
  | None => false
  end.

(** A hand and a buy counter are created together by [dealRound] and
    deleted together by [removePlayer], so the counter that is decremented
    exists whenever the pushes before it succeed. *)
Definition buyCard (pick : Random) (g : Game) (playerName : string)
  : Game * Completion Reply :=
  if decide (getCurrentPlayer g = Some playerName ∨ noBuysLeft g playerName = true) then
    (g, Normal (failure "Cannot buy on your turn or no buys left"))
  else if decide (length (discardPile g) = 0%nat) then
    (g, Normal (failure "No card to buy"))
  else
    let '(c, pile) := pop (discardPile g) in
    match pushToHand (withDiscardPile pile g) playerName c with
    | (g1, Throw e) => (g1, Throw e)
    | (g1, Normal _) =>
        let restocked :=
          if Deck.isEmpty (deck g1) then
            if decide (0 < length (discardPile g1))%nat then
              Some (withDiscardPile [] (withDeck (Deck.shuffle pick (discardPile g1)) g1))
            else None
          else Some g1 in
        match restocked with
        | None => (g1, Normal (failure "No cards left to deal"))
        | Some g2 =>
            let '(penaltyCard, d) := Deck.deal (deck g2) in
            match pushToHand (withDeck d g2) playerName penaltyCard with
            | (g3, Throw e) => (g3, Throw e)
            | (g3, Normal _) =>
                let g4 := withPlayerBuys (alter (fun b => b - 1) playerName (playerBuys g3)) g3 in
                (g4, _ ← prop display c; Normal (okCard c))
            end
        end
    end.

Definition discardCard (pick : Random) (g : Game) (playerName : string) (cardIndex : Z)
  : Game * Completion Reply :=
  if decide (getCurrentPlayer g ≠ Some playerName ∨ hasDrawn g = false) then
    (g, Normal (failure "Not your turn or haven't drawn"))
  else
    match playerHands g !! playerName with
    | None => (g, typeErrorUndefined)
    | Some hand =>
        if decide (cardIndex < 0 ∨ Z.of_nat (length hand) <= cardIndex) then
          (g, Normal (failure "Invalid card"))
        else
          let '(discardedCard, hand1) := splice1 hand cardIndex in
          let g1 := withDiscardPile (push (discardPile g) discardedCard)
                      (setHand playerName hand1 g) in
          if decide (length hand1 = 0%nat) then
            match validatePlayerMeetsRoundRequirements g1 playerName with
            | Throw e => (g1, Throw e)
            | Normal false =>
                let g2 := withDiscardPile (pop (discardPile g1)).2
                            (setHand playerName (push hand1 discardedCard) g1) in
                (g2, m ← cannotGoOut g2; Normal (failure m))
            | Normal true =>
                match endRound pick g1 playerName with
                | (g2, Throw e) => (g2, Throw e)
                | (g2, Normal r) => (g2, Normal (okEnded (Some discardedCard) r))
                end
            end
          else (nextTurn g1, Normal (okCard discardedCard))
    end.

(** [cardIndices.map(index => hand[index])]. *)
Definition selectCards (hand : option (list slot)) (cardIndices : list Z)
  : Completion (list slot) :=
  match cardIndices, hand with
  | [], _ => Normal []
  | _, None => typeErrorUndefined
  | _, Some h => Normal ((fun i => at_index h i) <$> cardIndices)
  end.

(** What [makeMeld] does once the indices have been read. *)
Definition meldSelected (pick : Random) (g : Game) (playerName : string)
    (cardIndices : list Z) (meldType : string) (needsMeldList : bool)
  : Game * Completion Reply :=
  match selectCards (playerHands g !! playerName) cardIndices with
  | Throw e => (g, Throw e)
  | Normal cs =>
      match validateMeld cs meldType, playerHands g !! playerName with
      | (_, Throw e), _ => (g, Throw e)
      | (_, Normal false), _ => (g, Normal (failure ("Invalid " +:+ meldType)))
      | (_, Normal true), None => (g, typeErrorUndefined)
      | (cs', Normal true), Some hand =>
          let hand1 := removeAll hand (sortDescending cardIndices) in
          let g1 := setHand playerName hand1 g in
          match playerMelds g1 !! playerName, needsMeldList with
          | None, true => (g1, typeErrorUndefined)
          | ms, _ =>
              let g2 := setMelds playerName (push (default [] ms) (mkMeld meldType cs')) g1 in
              if decide (length hand1 = 0%nat) then
                match validatePlayerMeetsRoundRequirements g2 playerName with
                | Throw e => (g2, Throw e)
                | Normal false =>
                    (g2, m ← reqProp Req.melds (requirementOf (currentRound g2));
                         Normal (failure ("You've melded all cards but don't meet round requirements: " +:+ m)))
                | Normal true =>
                    match endRound pick g2 playerName with
                    | (g3, Throw e) => (g3, Throw e)
                    | (g3, Normal r) => (g3, Normal (okEnded None r))
                    end
                end
              else (g2, Normal ok)
          end
      end
  end.

Definition makeMeld (pick : Random) (g : Game) (playerName : string)
    (cardIndices : list Z) (meldType : string) : Game * Completion Reply :=
  if decide (getCurrentPlayer g ≠ Some playerName) then
    (g, Normal (failure "Not your turn"))
  else meldSelected pick g playerName cardIndices meldType false.

(** [values = meld.cards.map(c => c.value).sort((a, b) => a - b)]. *)
Definition sortedValues (cs : list slot) : Completion (list Z) :=
  vs ← reduceC (fun (acc : list Z) c => v ← prop value c; Normal (acc ++ [v])%list) cs [];
  Normal (sortBy (fun a b => bool_decide (a <= b)) vs).

Definition canLayOffCard (c : slot) (meld : Meld) : Completion bool :=
  if decide (type meld = "set") then
    every (fun meldCard => r ← prop rank meldCard; r' ← prop rank c;
                           Normal (bool_decide (r = r'))) (cards meld)
  else if decide (type meld = "run") then
    s ← prop suit c;
    s0 ← prop suit (at_index (cards meld) 0);
    if decide (s ≠ s0) then Normal false
    else
      values ← sortedValues (cards meld);
      v ← prop value c;
      Normal (bool_decide (Some v = (fun x => x - 1) <$> head values
                           ∨ Some v = (fun x => x + 1) <$> last values))
  else Normal false.

Definition layOffCard (pick : Random) (g : Game) (playerName : string) (cardIndex : Z)
    (targetPlayerName : string) (meldIndex : Z) : Game * Completion Reply :=
  if decide (getCurrentPlayer g ≠ Some playerName) then
    (g, Normal (failure "Not your turn"))
  else
    match validatePlayerMeetsRoundRequirements g playerName with
    | Throw e => (g, Throw e)
    | Normal false =>
        (g, Normal (failure "You must meet your round requirements before laying off cards."))
    | Normal true =>
        match playerHands g !! playerName with
        | None => (g, typeErrorUndefined)
        | Some hand =>
            if decide (cardIndex < 0 ∨ Z.of_nat (length hand) <= cardIndex) then
              (g, Normal (failure "Invalid card"))
            else
              match playerMelds g !! targetPlayerName with
              | None => (g, Normal (failure "Invalid target meld"))
              | Some targetMelds =>
                  match (if decide (meldIndex < 0) then None
                         else targetMelds !! Z.to_nat meldIndex) with
                  | None => (g, Normal (failure "Invalid target meld"))
                  | Some targetMeld =>
                      let c := at_index hand cardIndex in
                      match canLayOffCard c targetMeld with
                      | Throw e => (g, Throw e)
                      | Normal false =>
                          (g, Normal (failure "Card cannot be added to that meld"))
                      | Normal true =>
                          let hand1 := (splice1 hand cardIndex).2 in
                          let meld1 := mkMeld (type targetMeld) (push (cards targetMeld) c) in
                          let g1 := setMelds targetPlayerName
                                      (<[Z.to_nat meldIndex := meld1]> targetMelds)
                                      (setHand playerName hand1 g) in
                          match prop display c with
                          | Throw e => (g1, Throw e)
                          | Normal _ =>
                              if decide (length hand1 = 0%nat) then
                                match validatePlayerMeetsRoundRequirements g1 playerName with
                                | Throw e => (g1, Throw e)
                                | Normal false =>
                                    let meld2 := mkMeld (type meld1) (pop (cards meld1)).2 in
                                    let g2 := setMelds targetPlayerName
                                                (<[Z.to_nat meldIndex := meld2]>
                                                   (<[Z.to_nat meldIndex := meld1]> targetMelds))
                                                (setHand playerName
                                                   (spliceIn hand1 cardIndex c) g1) in
                                    (g2, m ← cannotGoOut g2; Normal (failure m))
                                | Normal true =>
                                    match endRound pick g1 playerName with
                                    | (g2, Throw e) => (g2, Throw e)
                                    | (g2, Normal r) => (g2, Normal (okEnded (Some c) r))
                                    end
                                end
                              else (g1, Normal (okCard c))
                          end
                      end
                  end
              end
        end
    end.

(** Every array that can hold a card: the hands and melds of the players
    in the roster, the discard pile and the stock. *)
Definition handCards (g : Game) : list slot :=
  p ← players g; default [] (playerHands g !! p).
Definition meldCards (g : Game) : list slot :=
  p ← players g; m ← default [] (playerMelds g !! p); cards m.
Definition tableCards (g : Game) : list slot :=
  handCards g ++ meldCards g ++ discardPile g ++ deck g.

(** The hands of the roster. *)
Definition hands (g : Game) : list (list slot) := handsOf (players g) (playerHands g).

End Part003.

(** * src/unnamed/part_001

    The state and the methods are those of part_003 but for [makeMeld],
    which checks the range of the indices first, and [layOffCard]. *)

Module Part001.

Import Part003.

Definition makeMeld (pick : Random) (g : Game) (playerName : string)
    (cardIndices : list Z) (meldType : string) : Game * Completion Reply :=
  if decide (getCurrentPlayer g ≠ Some playerName) then
    (g, Normal (failure "Not your turn"))
  else
    let inRange : Completion bool :=
      match cardIndices, playerHands g !! playerName with
      | [], _ => Normal true
      | _, None => typeErrorUndefined
      | _, Some hand =>
          Normal (forallb (fun index =>
                    negb (bool_decide (index < 0 ∨ Z.of_nat (length hand) <= index)))
                  cardIndices)
      end in
    match inRange with
    | Throw e => (g, Throw e)
    | Normal false => (g, Normal (failure "Invalid card selection"))
    | Normal true => meldSelected pick g playerName cardIndices meldType true
    end.

(** [const hand = game.playerHands.get(playerName)]: no [game] is in scope
    in the method (the handlers bind their own local [game]), so reading
    it throws a ReferenceError. *)
Definition layOffCard (pick : Random) (g : Game) (playerName : string) (cardIndex : Z)
    (targetPlayerName : string) (meldIndex : Z) : Game * Completion Reply :=
  if decide (getCurrentPlayer g ≠ Some playerName) then
    (g, Normal (failure "Not your turn"))
  else (g, Throw (ReferenceError "game is not defined")).

End Part001.

(** * What the specification says, as predicates over the embedding *)

(** Cards sorted by numeric value, ascending. *)
Definition ascendingByValue (cs : list Card) : Prop :=
  Sorted (fun a b => value a <= value b) cs.

(** Every adjacent pair of values differs by exactly 1. *)
Definition adjacentStepOne (vs : list Z) : Prop :=
  ∀ (i : nat) (v w : Z), vs !! i = Some v → vs !! S i = Some w → w = v + 1.

(** A set: at least 3 cards, every rank equal to the first card's. *)
Definition specSet (cs : list Card) : Prop :=
  (3 <= length cs)%nat ∧ ∀ c, c ∈ cs → Some (rank c) = rank <$> head cs.

(** A run: at least 4 cards, every suit equal to the first card's, and the
    cards sorted by value step by exactly 1. *)
Definition specRun (cs : list Card) : Prop :=
  (4 <= length cs)%nat ∧
  (∀ c, c ∈ cs → Some (suit c) = suit <$> head cs) ∧
  ∃ sorted, sorted ≡ₚ cs ∧ ascendingByValue sorted ∧ adjacentStepOne (value <$> sorted).

(** What a deal for round [r] is to establish: every hand holds exactly
    [10 + r] cards, the discard pile holds exactly one starter card, and the
    hands, the discard pile and the stock together are the 104 cards of the
    two decks. *)
Definition properlyDealt (r : nat) (hands : list (list slot)) (discard stock : list slot)
  : Prop :=
  Forall (fun h => length h = (10 + r)%nat ∧ Forall is_Some h) hands ∧
  (∃ c, discard = [Some c]) ∧
  length (concat hands ++ discard ++ stock) = 104%nat ∧
  concat hands ++ discard ++ stock ≡ₚ Deck.initialize.

(** The sum of the entries of a score array. *)
Definition sumZ (scores : list Z) : Z := foldr Z.add 0 scores.

(** The final results for the roster [ps] whose score arrays are [look]:
    every player is listed once with the sum of their entries, the listing
    ascends by total, and the winner is its first entry, so that no total is
    below the winner's. *)
Definition standings (look : string → option (list Z)) (ps : list string)
    (res : FinalResults) : Prop :=
  (∀ p t, (p, t) ∈ finalStandings res ↔ p ∈ ps ∧ ∃ sc, look p = Some sc ∧ t = sumZ sc) ∧
  NoDup (finalStandings res).*1 ∧
  Sorted (fun a b : string * Z => a.2 <= b.2) (finalStandings res) ∧
  head (finalStandings res) = Some (winner res, winnerScore res) ∧
  (∀ p t, (p, t) ∈ finalStandings res → winnerScore res <= t).

(** The number of melds of a type that have at least [minSize] cards. *)
Definition countOfType (ty : string) (minSize : Z) (ms : list Meld) : Z :=
  Z.of_nat (length (filter (fun m => type m = ty ∧ minSize <= Z.of_nat (length (cards m))) ms)).

(** The melds [ms] satisfy the contract of the round: enough sets and enough
    runs of the required minimum sizes ("gone down"). *)
Definition meetsContract (currentRound : nat) (ms : list Meld) : Prop :=
  ∃ req, requirementOf currentRound = Some req ∧
         Req.sets req <= countOfType "set" (Req.minSetSize req) ms ∧
         Req.runs req <= countOfType "run" (Req.minRunSize req) ms.

(** A card legally extends a meld: it has the rank of every card of a set,
    or it has the suit of a run and its value is one below the lowest or one
    above the highest value of the run. *)
Definition legallyExtends (c : Card) (m : Meld) : Prop :=
  ∃ cs, cards m = Some <$> cs ∧
        ((type m = "set" ∧ ∀ x, x ∈ cs → rank x = rank c) ∨
         (type m = "run" ∧
          (∃ x, head cs = Some x ∧ suit c = suit x) ∧
          ∃ lo hi, lo ∈ value <$> cs ∧ hi ∈ value <$> cs ∧
                   (∀ v, v ∈ value <$> cs → lo <= v <= hi) ∧
                   (value c = lo - 1 ∨ value c = hi + 1))).

(** The penalty of a hand: the sum of the score values of its cards. *)
Definition penalty (cs : list Card) : Z := sumZ (getScoreValue <$> cs).

(** The adjacency test as a boolean. *)
Fixpoint stepOneB (vs : list Z) : bool :=
  match vs with
  | v :: ((w :: _) as rest) => bool_decide (w = v + 1) && stepOneB rest
  | _ => true
  end.

(** How often a card occurs in an array. *)
Definition occurrences (c : Card) (arr : list slot) : nat :=
  length (filter (fun o => o = Some c) arr).

(** * Concrete games *)

Definition one (s : Suit) (r : Rank) : slot := Some (mkCard s r).

Definition noScores : list Z := replicate 7 0.

(** A run of [Math.random] in which every draw of the shuffle gives 0. *)
Definition fixedPick : Random := fun _ => 0%nat.

Module ServerGames.
Import Server.

(** Two players who have joined, before the first deal. *)
Definition lobby : Game :=
  mkGame ["A"; "B"] ∅
    {[ "A" := mkData [] [] 3 noScores false; "B" := mkData [] [] 3 noScores false ]}
    1 0 [] [] false BuyPhase.idle true.

(** The first deal of that game. *)
Definition freshDeal : Game := (dealRound fixedPick lobby).1.

(** Round 1, A has drawn and holds one card, with no meld laid down. *)
Definition lastCard : Game :=
  mkGame ["A"; "B"] ∅
    {[ "A" := mkData [one spades RK] [] 3 noScores false;
       "B" := mkData [one hearts R2; one clubs R9] [] 3 noScores false ]}
    1 0 [one diamonds R3; one spades R9] [one clubs R5] true BuyPhase.idle true.

(** Round 1, A has drawn and holds exactly three sevens. *)
Definition threeSevens : Game :=
  mkGame ["A"; "B"] ∅
    {[ "A" := mkData [one hearts R7; one diamonds R7; one clubs R7] [] 3 noScores false;
       "B" := mkData [one hearts R2; one clubs R9] [] 3 noScores false ]}
    1 0 [one diamonds R3; one spades R9] [one clubs R5] true BuyPhase.idle true.

(** A's turn to draw: the stock is empty and the discard pile holds only
    its top card. *)
Definition emptyStock : Game :=
  mkGame ["A"; "B"] ∅
    {[ "A" := mkData [one hearts R4] [] 3 noScores false;
       "B" := mkData [one hearts R2; one clubs R9] [] 3 noScores false ]}
    1 0 [] [one spades RK] false BuyPhase.idle true.

(** Round 1 is over: A is out, B still holds an ace, a king and a seven. *)
Definition roundOver : Game :=
  mkGame ["A"; "B"] ∅
    {[ "A" := mkData [] [] 3 noScores true;
       "B" := mkData [one spades RA; one hearts RK; one diamonds R7] [] 3 noScores false ]}
    1 0 [one diamonds R3; one spades R9] [one clubs R5] true BuyPhase.idle true.

(** Three human players; A has drawn and is about to discard. *)
Definition threeHumans : Game :=
  mkGame ["A"; "B"; "C"] ∅
    {[ "A" := mkData [one spades RK; one hearts R2] [] 3 noScores false;
       "B" := mkData [one hearts R4; one clubs R9] [] 3 noScores false;
       "C" := mkData [one clubs R6; one spades R8] [] 3 noScores false ]}
    1 0 [one diamonds R3; one spades R9] [one clubs R5] true BuyPhase.idle true.

(** Seven players (a host and six AI opponents) entering round 7. *)
Definition sevenPlayers : Game :=
  mkGame ["A"; "B"; "C"; "D"; "E"; "F"; "G"] ∅
    (list_to_map ((fun p => (p, mkData [] [] 3 noScores false))
                    <$> ["A"; "B"; "C"; "D"; "E"; "F"; "G"]))
    7 0 [] [] false BuyPhase.idle true.

(** The deal of round 7 at that table. *)
Definition overfullDeal : Game := (dealRound fixedPick sevenPlayers).1.

(** Round 7 has been scored. *)
Definition finished : Game :=
  mkGame ["A"; "B"; "C"] ∅
    {[ "A" := mkData [] [] 3 [12; 0; 30; 5; 0; 41; 7] false;
       "B" := mkData [] [] 3 [0; 25; 0; 18; 9; 0; 0] true;
       "C" := mkData [] [] 3 [33; 4; 16; 0; 22; 10; 12] false ]}
    7 0 [] [] true BuyPhase.idle true.
End ServerGames.

Module Part003Games.
Import Part003.

Definition lobby : Game :=
  mkGame ["A"; "B"] ∅ ∅ ∅ {[ "A" := noScores; "B" := noScores ]} 1 0 [] [] false true.

Definition freshDeal : Game := dealRound fixedPick lobby.

Definition lastCard : Game :=
  mkGame ["A"; "B"]
    {[ "A" := [one spades RK]; "B" := [one hearts R2; one clubs R9] ]}
    {[ "A" := []; "B" := [] ]} {[ "A" := 3; "B" := 3 ]}
    {[ "A" := noScores; "B" := noScores ]}
    1 0 [one diamonds R3; one spades R9] [one clubs R5] true true.

Definition threeSevens : Game :=
  mkGame ["A"; "B"]
    {[ "A" := [one hearts R7; one diamonds R7; one clubs R7];
       "B" := [one hearts R2; one clubs R9] ]}
    {[ "A" := []; "B" := [] ]} {[ "A" := 3; "B" := 3 ]}
    {[ "A" := noScores; "B" := noScores ]}
    1 0 [one diamonds R3; one spades R9] [one clubs R5] true true.

Definition emptyStock : Game :=
  mkGame ["A"; "B"]
    {[ "A" := [one hearts R4]; "B" := [one hearts R2; one clubs R9] ]}
    {[ "A" := []; "B" := [] ]} {[ "A" := 3; "B" := 3 ]}
    {[ "A" := noScores; "B" := noScores ]}
    1 0 [] [one spades RK] false true.

Definition roundOver : Game :=
  mkGame ["A"; "B"]
    {[ "A" := []; "B" := [one spades RA; one hearts RK; one diamonds R7] ]}
    {[ "A" := []; "B" := [] ]} {[ "A" := 3; "B" := 3 ]}
    {[ "A" := noScores; "B" := noScores ]}
    1 0 [one diamonds R3; one spades R9] [one clubs R5] true true.

Definition sevenPlayers : Game :=
  mkGame ["A"; "B"; "C"; "D"; "E"; "F"; "G"] ∅ ∅ ∅
    (list_to_map ((fun p => (p, noScores)) <$> ["A"; "B"; "C"; "D"; "E"; "F"; "G"]))
    7 0 [] [] false true.

Definition overfullDeal : Game := dealRound fixedPick sevenPlayers.

(** Round 1, A has drawn, has laid down two sets and holds two cards. *)
Definition goneDown : Game :=
  mkGame ["A"; "B"]
    {[ "A" := [one spades R7; one hearts RK]; "B" := [one hearts R2; one clubs R9] ]}
    {[ "A" := [mkMeld "set" [one hearts R7; one diamonds R7; one clubs R7];
               mkMeld "set" [one hearts R9; one diamonds R9; one spades R9]];
       "B" := [] ]}
    {[ "A" := 3; "B" := 3 ]} {[ "A" := noScores; "B" := noScores ]}
    1 0 [one diamonds R3; one spades R9] [one clubs R5] true true.

Definition finished : Game :=
  mkGame ["A"; "B"; "C"]
    {[ "A" := []; "B" := []; "C" := [] ]} {[ "A" := []; "B" := []; "C" := [] ]}
    {[ "A" := 3; "B" := 3; "C" := 3 ]}
    {[ "A" := [12; 0; 30; 5; 0; 41; 7]; "B" := [0; 25; 0; 18; 9; 0; 0];
       "C" := [33; 4; 16; 0; 22; 10; 12] ]}
    7 0 [] [] true true.
(** Round 1, A has drawn and holds three sevens and a king. *)
Definition setInHand : Game :=
  mkGame ["A"; "B"]
    {[ "A" := [one hearts R7; one diamonds R7; one spades RK; one clubs R7];
       "B" := [one hearts R2; one clubs R9] ]}
    {[ "A" := []; "B" := [] ]} {[ "A" := 3; "B" := 3 ]}
    {[ "A" := noScores; "B" := noScores ]}
    1 0 [one diamonds R3; one spades R9] [one clubs R5] true true.
End Part003Games.

(** * server.js: what the AI players choose *)

Module ServerAI.

(** A plain object used as a dictionary of arrays, as [rankGroups] and
    [suitGroups]: its own keys in the order of their creation.
    [if (!groups[k]) groups[k] = []; groups[k].push(v)]. *)
Fixpoint groupPush {K V} `{EqDecision K} (groups : list (K * list V)) (k : K) (v : V)
  : list (K * list V) :=
  match groups with
  | [] => [(k, [v])]
  | (k', vs) :: rest =>
      if decide (k' = k) then (k', push vs v) :: rest else (k', vs) :: groupPush rest k v
  end.

(** [Object.values(groups)]: the values of the keys that are array indices
    come first, in ascending numeric order, then those of the other keys
    in the order of creation.  [arrayIndex k] is the number of such a key. *)
Definition objectValues {K V} (arrayIndex : K -> option Z) (groups : list (K * V)) : list V :=
  (sortBy (fun a b => bool_decide (a.1 <= b.1))
          (omap (fun e => i ← arrayIndex e.1; Some (i, e.2)) groups)).*2
  ++ (filter (fun e => arrayIndex e.1 = None) groups).*2.

(** The ranks "2" to "10" are array indices as property keys; "A", "J", "Q"
    and "K" are not, and no suit is. *)
Definition rankIndex (r : Rank) : option Z :=
  match r with
  | RA | RJ | RQ | RK => None
  | r => Some (RANK_VALUES r)
  end.

Definition suitIndex (s : Suit) : option Z := None.

(** [{ type, indices }]. *)
Record Found := mkFound { type : string; indices : list Z }.

(** The inner loop of the run search:
    [for (j = ...; j < group.length && run.length < 4; j++)]. *)
Fixpoint collectRun (group : list (Card * nat)) (lastValue : Z) (run : list nat) : list nat :=
  match group with
  | [] => run
  | (c, idx) :: rest =>
      if decide (length run < 4)%nat then
        if decide (value c = lastValue + 1) then collectRun rest (value c) (push run idx)
        else collectRun rest lastValue run
      else run
  end.

(** One round of [for (let i = 0; i <= group.length - 4; i++)]; [group[i]]
    exists for these [i]. *)
Definition runFrom (group : list (Card * nat)) (i : nat) : list Found :=
  match drop i group with
  | [] => []
  | ((c, _) :: _) as from =>
      let run := collectRun from (value c - 1) [] in
      if decide (4 <= length run)%nat then [mkFound "run" (Z.of_nat <$> run)] else []
  end.

(** The callback of [Object.values(suitGroups).forEach]. *)
Definition runsIn (group : list (Card * nat)) : list Found :=
  if decide (4 <= length group)%nat then
    let sorted := sortBy (fun a b => bool_decide (value a.1 <= value b.1)) group in
    i ← seq 0 (length sorted - 3); runFrom sorted i
  else [].

(** The callback of [Object.values(rankGroups).forEach]. *)
Definition setsIn (group : list nat) : list Found :=
  if decide (3 <= length group)%nat then [mkFound "set" (Z.of_nat <$> take 3 group)] else [].

(** [melds.find(m => m.type === ty)]. *)
Definition findType (ty : string) (melds : list Found) : option Found :=
  head (filter (fun m => type m = ty) melds).

Definition findBestMeld (hand : list slot) (requirements : option Req.t)
  : Completion (option Found) :=
  rankGroups ← reduceC (fun groups '(idx, c) =>
                          r ← prop rank c; Normal (groupPush groups r idx))
                       (imap pair hand) [];
  let sets := objectValues rankIndex rankGroups ≫= setsIn in
  suitGroups ← reduceC (fun groups '(idx, c) =>
                          match c with
                          | None => typeErrorUndefined
                          | Some x => Normal (groupPush groups (suit x) (x, idx))
                          end)
                       (imap pair hand) [];
  let melds := sets ++ (objectValues suitIndex suitGroups ≫= runsIn) in
  nSets ← reqProp Req.sets requirements;
  if decide (0 < nSets ∧ is_Some (findType "set" melds)) then Normal (findType "set" melds)
  else
    nRuns ← reqProp Req.runs requirements;
    if decide (0 < nRuns ∧ is_Some (findType "run" melds)) then Normal (findType "run" melds)
    else Normal (head melds).

(** The loop of [chooseDiscard] from index [idx] on; [worstValue] starts as
    [Infinity], here [None]. *)
Fixpoint chooseDiscardFrom (hand : list slot) (idx : nat) (rest : list slot)
    (worstIdx : nat) (worstValue : option Z) : Completion nat :=
  match rest with
  | [] => Normal worstIdx
  | c :: rest' =>
      v ← Server.evaluateCard c (delete idx hand);
      if match worstValue with None => true | Some w => bool_decide (v < w) end
      then chooseDiscardFrom hand (S idx) rest' idx (Some v)
      else chooseDiscardFrom hand (S idx) rest' worstIdx worstValue
  end.

Definition chooseDiscard (hand : list slot) : Completion nat :=
  chooseDiscardFrom hand 0 hand 0 None.

(** What [chooseDiscard] computes for the card at [idx]:
    [evaluateCard(card, hand.filter((_, i) => i !== idx))]. *)
Definition worth (hand : list slot) (idx : nat) : Completion Z :=
  Server.evaluateCard (at_index hand (Z.of_nat idx)) (delete idx hand).

End ServerAI.

(** What [evaluateCard] counts: cards of the suit of [c] whose value is [d]
    away from the value of [c]. *)
Definition near (d : Z) (c x : Card) : Prop :=
  suit x = suit c ∧ Z.abs (value x - value c) = d.

#[global] Instance near_dec d c x : Decision (near d c x).
Proof. unfold near. apply _. Defined.

(** How many elements of a list satisfy a property. *)
Definition count {A} (P : A -> Prop) `{∀ x, Decision (P x)} (l : list A) : Z :=
  Z.of_nat (length (filter P l)).

(** The dictionary after the items have been pushed one by one. *)
Definition groupAll {K V} `{EqDecision K} (items : list (K * V)) : list (K * list V) :=
  foldl (fun groups e => ServerAI.groupPush groups e.1 e.2) [] items.

(** * server.js: from the constructor to the first deal *)

Module ServerLobby.

Definition AI_NAMES : list string := ["Hiro"; "Honey Lemon"; "Rosie"; "Oreo"].

Definition difficulties : list Server.Difficulty := [Server.easy; Server.medium; Server.hard].

(** [`${AI_NAMES[i % AI_NAMES.length]}${i >= AI_NAMES.length ? i + 1 : ''}`]. *)
Definition aiName (i : nat) : string :=
  default "undefined" (AI_NAMES !! (i `mod` length AI_NAMES)%nat)
  +:+ (if decide (length AI_NAMES <= i)%nat then pretty (i + 1)%nat else "").

(** [difficulties[i % difficulties.length]]. *)
Definition aiDifficulty (i : nat) : Server.Difficulty :=
  default Server.medium (difficulties !! (i `mod` length difficulties)%nat).

(** The game object: [Server.Game] with the fields the lobby reads.
    [aiOrder] is [this.aiPlayers] as the [Map] it is, its entries in
    insertion order; [Server.aiPlayers] holds the same entries. *)
Record Hosted := mkHosted {
  gameCode : string;
  hostName : string;
  aiOrder : list (string * Server.Difficulty);
  game : Server.Game
}.

Definition withGame (g : Server.Game) (t : Hosted) : Hosted :=
  mkHosted (gameCode t) (hostName t) (aiOrder t) g.

Definition withPlayers (ps : list string) (g : Server.Game) : Server.Game :=
  Server.mkGame ps (Server.aiPlayers g) (Server.playerData g) (Server.currentRound g)
    (Server.currentPlayerIndex g) (Server.deck g) (Server.discardPile g)
    (Server.hasDrawn g) (Server.buyPhase g) (Server.gameStarted g).

Definition withGameStarted (b : bool) (g : Server.Game) : Server.Game :=
  Server.mkGame (Server.players g) (Server.aiPlayers g) (Server.playerData g)
    (Server.currentRound g) (Server.currentPlayerIndex g) (Server.deck g)
    (Server.discardPile g) (Server.hasDrawn g) (Server.buyPhase g) b.

(** The loop of the constructor: [this.aiPlayers.set(name, ai)] for
    [i = 0 .. aiCount - 1]. *)
Definition aiEntries (aiCount : nat) : list (string * Server.Difficulty) :=
  foldl (fun m i => mapSet m (aiName i) (aiDifficulty i)) [] (seq 0 aiCount).

(** [new Game(gameCode, hostName, aiCount)].  [deck] is [null] until the
    first deal, which replaces it before anything here reads it; it is the
    empty stock here. *)
Definition new (gameCode hostName : string) (aiCount : nat) : Hosted :=
  let ais := aiEntries aiCount in
  mkHosted gameCode hostName ais
    (Server.mkGame [] (list_to_map ais) ∅ 1 0 [] [] false Server.BuyPhase.idle false).

(** [new Array(7).fill(0)] and the record of [initPlayerData]. *)
Definition freshData : Server.PlayerData := Server.mkData [] [] 3 (replicate 7 0) false.

Definition initPlayerData (name : string) (g : Server.Game) : Server.Game :=
  Server.setData name freshData g.

(** [this.players.push(name); this.initPlayerData(name)]. *)
Definition seat (g : Server.Game) (name : string) : Server.Game :=
  initPlayerData name (withPlayers (push (Server.players g) name) g).

Definition addPlayer (t : Hosted) (name : string) : Hosted * bool :=
  if decide (name ∈ Server.players (game t)) then (t, false)
  else
    let g1 := seat (game t) name in
    let g2 := if decide (name = hostName t) then foldl seat g1 (aiOrder t).*1 else g1 in
    (withGame g2 t, true).

(** [startGame()]; the timer that starts an AI's first turn is left out. *)
Definition startGame (pick : Random) (t : Hosted) : Hosted * Completion bool :=
  if decide (length (Server.players (game t)) < 2)%nat then (t, Normal false)
  else
    match Server.dealRound pick (withGameStarted true (game t)) with
    | (g, Throw e) => (withGame g t, Throw e)
    | (g, Normal _) => (withGame g t, Normal true)
    end.

(** [Math.max(0, Math.min(6, parseInt(aiCount) || 0))] of the [joinGame]
    handler; [parsed] is the result of [parseInt], [None] for [NaN], which
    [|| 0] turns into 0. *)
Definition sanitizedAiCount (parsed : option Z) : Z :=
  Z.max 0 (Z.min 6 (default 0 parsed)).

(** [checkRateLimit(event)] of a connection: [rateLimiter] maps
    [`${socket.id}_${event}`] to the time of the last accepted call, and
    [rateLimiter.get(key) || 0] is 0 for a key that is not there. *)
Definition checkRateLimit (socketId : string) (rateLimiter : gmap string Z) (now : Z)
    (event : string) : gmap string Z * bool :=
  let key := socketId +:+ "_" +:+ event in
  let lastCall := default 0 (rateLimiter !! key) in
  if decide (now - lastCall < 100) then (rateLimiter, false)
  else (<[key := now]> rateLimiter, true).

(** The calls [(now, event)] that reach a connection, in their order: the
    ones that [checkRateLimit] lets through. *)
Fixpoint accepted (socketId : string) (rateLimiter : gmap string Z)
    (calls : list (Z * string)) : list (Z * string) :=
  match calls with
  | [] => []
  | (now, event) :: rest =>
      let '(rateLimiter', pass) := checkRateLimit socketId rateLimiter now event in
      if pass : bool then (now, event) :: accepted socketId rateLimiter' rest
      else accepted socketId rateLimiter' rest
  end.

End ServerLobby.

(** * part_003: the roster *)

Module Part003Lobby.

Definition AI_NAMES : list string :=
  ["AI-Emma"; "AI-Oliver"; "AI-Sofia"; "AI-Lucas"; "AI-Grace"; "AI-Henry"; "AI-Chloe";
   "AI-Jack"; "AI-Maya"; "AI-Leo"].

(** [AI_NAMES[i % AI_NAMES.length]
     + (Math.floor(i / AI_NAMES.length) > 0
          ? `-${Math.floor(i / AI_NAMES.length) + 1}` : '')]. *)
Definition aiName (i : nat) : string :=
  default "undefined" (AI_NAMES !! (i `mod` length AI_NAMES)%nat)
  +:+ (if decide (0 < i `div` length AI_NAMES)%nat
       then "-" +:+ pretty (i `div` length AI_NAMES + 1)%nat else "").

(** [['easy', 'medium', 'hard'][Math.floor(Math.random() * 3)]]; [k] is the
    number drawn, reduced to [0..2]. *)
Definition difficultyOf (k : nat) : Server.Difficulty :=
  default Server.medium ([Server.easy; Server.medium; Server.hard] !! (k `mod` 3)%nat).

(** The game object: [Part003.Game] with [hostName] and [aiPlayers]. *)
Record Hosted := mkHosted {
  gameCode : string;
  hostName : string;
  aiPlayers : gmap string Server.Difficulty;
  game : Part003.Game
}.

Definition withGame (g : Part003.Game) (t : Hosted) : Hosted :=
  mkHosted (gameCode t) (hostName t) (aiPlayers t) g.

Definition withPlayers (ps : list string) (g : Part003.Game) : Part003.Game :=
  Part003.mkGame ps (Part003.playerHands g) (Part003.playerMelds g) (Part003.playerBuys g)
    (Part003.playerScores g) (Part003.currentRound g) (Part003.currentPlayerIndex g)
    (Part003.deck g) (Part003.discardPile g) (Part003.hasDrawn g) (Part003.gameStarted g).

Definition withGameStarted (b : bool) (g : Part003.Game) : Part003.Game :=
  Part003.mkGame (Part003.players g) (Part003.playerHands g) (Part003.playerMelds g)
    (Part003.playerBuys g) (Part003.playerScores g) (Part003.currentRound g)
    (Part003.currentPlayerIndex g) (Part003.deck g) (Part003.discardPile g)
    (Part003.hasDrawn g) b.

(** [this.players.push(name); this.playerScores.set(name, Array(7).fill(0))]. *)
Definition seat (g : Part003.Game) (name : string) : Part003.Game :=
  Part003.withPlayerScores (<[name := replicate 7 0]> (Part003.playerScores g))
    (withPlayers (push (Part003.players g) name) g).

(** One round of the loop of the constructor. *)
Definition addAI (level : nat -> nat) (t : Hosted) (i : nat) : Hosted :=
  mkHosted (gameCode t) (hostName t)
    (<[aiName i := difficultyOf (level i)]> (aiPlayers t))
    (seat (game t) (aiName i)).

(** [new Game(gameCode, hostName, aiCount)]; [level i] is the number drawn
    for the difficulty of the AI player [i]. *)
Definition new (level : nat -> nat) (gameCode hostName : string) (aiCount : nat) : Hosted :=
  foldl (addAI level)
    (mkHosted gameCode hostName ∅
       (Part003.mkGame [] ∅ ∅ ∅ ∅ 1 0 [] [] false false))
    (seq 0 aiCount).

Definition addPlayer (t : Hosted) (playerName : string) : Hosted * bool :=
  if decide (playerName ∈ Part003.players (game t)) then (t, false)
  else (withGame (seat (game t) playerName) t, true).

(** [players.indexOf(name)]: the first index, [None] for -1. *)
Fixpoint indexOf (ps : list string) (name : string) : option nat :=
  match ps with
  | [] => None
  | p :: rest => if decide (p = name) then Some 0%nat else S <$> indexOf rest name
  end.

Definition removePlayer (t : Hosted) (playerName : string) : Hosted * bool :=
  match indexOf (Part003.players (game t)) playerName with
  | Some index =>
      let g := game t in
      (mkHosted (gameCode t) (hostName t) (delete playerName (aiPlayers t))
         (Part003.mkGame (delete index (Part003.players g))
            (delete playerName (Part003.playerHands g))
            (delete playerName (Part003.playerMelds g))
            (delete playerName (Part003.playerBuys g))
            (delete playerName (Part003.playerScores g))
            (Part003.currentRound g) (Part003.currentPlayerIndex g) (Part003.deck g)
            (Part003.discardPile g) (Part003.hasDrawn g) (Part003.gameStarted g)),
       true)
  | None => (t, false)
  end.

(** [startGame()]; the timer that starts an AI's first turn is left out. *)
Definition startGame (pick : Random) (t : Hosted) : Hosted * bool :=
  if decide (length (Part003.players (game t)) < 2)%nat then (t, false)
  else (withGame (Part003.dealRound pick (withGameStarted true (game t))) t, true).

End Part003Lobby.

(** * part_003: the melds an AI player looks for *)

Module Part003AI.

(** [hand.forEach((card, index) => { ...; groups[key].push({ card, index }) })]
    for the key [card.rank] or [card.suit]. *)
Definition groupBy {K} `{EqDecision K} (key : Card -> K) (hand : list slot)
  : Completion (list (K * list (Card * nat))) :=
  reduceC (fun groups '(index, c) =>
             match c with
             | None => typeErrorUndefined
             | Some x => Normal (ServerAI.groupPush groups (key x) (x, index))
             end)
          (imap pair hand) [].

(** The callback of [Object.values(rankGroups).forEach]:
    [for (size = 3; size <= group.length; size++)
       sets.push(group.slice(0, size).map(item => item.index))]. *)
Definition setsIn (group : list (Card * nat)) : list (list nat) :=
  if decide (3 <= length group)%nat then
    (fun size => (take size group).*2) <$> seq 3 (length group - 2)
  else [].

Definition findPossibleSets (hand : option (list slot)) : Completion (list (list nat)) :=
  match hand with
  | None => typeErrorUndefined
  | Some hand =>
      rankGroups ← groupBy rank hand;
      Normal (ServerAI.objectValues ServerAI.rankIndex rankGroups ≫= setsIn)
  end.

(** [group[sequence[sequence.length - 1]].card.value]. *)
Definition lastValue (group : list (Card * nat)) (sequence : list nat) : Completion Z :=
  match last sequence ≫= (group !!.) with
  | Some (c, _) => Normal (value c)
  | None => typeErrorUndefined
  end.

(** The loop [for (let i = start + 1; i < group.length; i++)] from position
    [i] on; [rest] is [group] from that position. *)
Fixpoint extend (group : list (Card * nat)) (i : nat) (rest : list (Card * nat))
    (sequence : list nat) : Completion (list nat) :=
  match rest with
  | [] => Normal sequence
  | (c, _) :: rest' =>
      v ← lastValue group sequence;
      if decide (value c = v + 1) then extend group (S i) rest' (push sequence i)
      else if decide (v + 1 < value c) then Normal sequence
      else extend group (S i) rest' sequence
  end.

(** [sequence.map(pos => group[pos].index)]. *)
Definition indicesAt (group : list (Card * nat)) (sequence : list nat)
  : Completion (list nat) :=
  reduceC (fun indices pos =>
             match group !! pos with
             | Some (_, index) => Normal (push indices index)
             | None => typeErrorUndefined
             end)
          sequence [].

(** One round of [for (let start = 0; start < group.length - 3; start++)]. *)
Definition runFrom (group : list (Card * nat)) (start : nat) : Completion (list (list nat)) :=
  sequence ← extend group (S start) (drop (S start) group) [start];
  if decide (4 <= length sequence)%nat then
    indices ← indicesAt group sequence; Normal [indices]
  else Normal [].

(** The callback of [Object.values(suitGroups).forEach]. *)
Definition runsIn (group : list (Card * nat)) : Completion (list (list nat)) :=
  if decide (4 <= length group)%nat then
    let sorted := sortBy (fun a b => bool_decide (value a.1 <= value b.1)) group in
    reduceC (fun runs start => found ← runFrom sorted start; Normal (runs ++ found))
            (seq 0 (length sorted - 3)) []
  else Normal [].

Definition findPossibleRuns (hand : option (list slot)) : Completion (list (list nat)) :=
  match hand with
  | None => typeErrorUndefined
  | Some hand =>
      suitGroups ← groupBy suit hand;
      reduceC (fun runs group => found ← runsIn group; Normal (runs ++ found))
              (ServerAI.objectValues ServerAI.suitIndex suitGroups) []
  end.

(** [(type === 'set' && requirements.sets > 0)
     || (type === 'run' && requirements.runs > 0)] adds 10 to twice the
    number of cards. *)
Definition scoreMeld (cardIndices : list nat) (ty : string) (requirements : option Req.t)
  : Completion Z :=
  let score := Z.of_nat (length cardIndices) * 2 in
  asked ← (if decide (ty = "set") then
             n ← reqProp Req.sets requirements; Normal (bool_decide (0 < n))
           else Normal false);
  asked' ← (if asked : bool then Normal true
            else if decide (ty = "run") then
              n ← reqProp Req.runs requirements; Normal (bool_decide (0 < n))
            else Normal false);
  Normal (if asked' : bool then score + 10 else score).

(** [{ cards, type }]: the indices of the cards to meld. *)
Record Best := mkBest { cards : list nat; type : string }.

(** [possible.forEach(meld => { const score = ...; if (score > bestScore)
    { bestMeld = { cards: meld, type: ty }; bestScore = score; } })]. *)
Definition pickBest (ty : string) (requirements : option Req.t) (possible : list (list nat))
    (best : option Best * Z) : Completion (option Best * Z) :=
  reduceC (fun '(bestMeld, bestScore) meld =>
             score ← scoreMeld meld ty requirements;
             Normal (if decide (bestScore < score) then (Some (mkBest meld ty), score)
                     else (bestMeld, bestScore)))
          possible best.

(** [chooseBestMeld(game)] of the AI player [name]. *)
Definition chooseBestMeld (g : Part003.Game) (name : string) : Completion (option Best) :=
  let hand := Part003.playerHands g !! name in
  let requirements := requirementOf (Part003.currentRound g) in
  possibleSets ← findPossibleSets hand;
  possibleRuns ← findPossibleRuns hand;
  nSets ← reqProp Req.sets requirements;
  afterSets ← (if decide (0 < nSets)
               then pickBest "set" requirements possibleSets (None, 0)
               else Normal (None, 0));
  nRuns ← reqProp Req.runs requirements;
  afterRuns ← (if decide (0 < nRuns)
               then pickBest "run" requirements possibleRuns afterSets
               else Normal afterSets);
  Normal afterRuns.1.

End Part003AI.

(** * part_001: the [reorderCards] message *)

Module Part001Socket.

(** What the handler sends back to the player. *)
Inductive Answer := gameUpdate | invalidCardOrder | nothing.

(** The handler of [reorderCards], once the game of the connection has been
    found.  [playerName] is [socket.playerName]; [cardOrder] is
    [data.cardOrder]: absent, or an array whose elements are integers
    ([Some i]) or anything else ([None], for which [Number.isInteger] is
    false). *)
Definition reorderCards (g : Part003.Game) (playerName : option string)
    (cardOrder : option (list (option Z))) : Part003.Game * Answer :=
  match playerName with
  | None => (g, nothing)
  | Some name =>
      if decide (name = "") then (g, nothing)
      else
        match Part003.playerHands g !! name, cardOrder with
        | Some hand, Some order =>
            if decide (length order = length hand) then
              let validOrder :=
                forallb (fun index =>
                           match index with
                           | Some i => bool_decide (0 <= i ∧ i < Z.of_nat (length hand))
                           | None => false
                           end) order in
              let uniqueIndices : gset (option Z) := list_to_set order in
              if validOrder && bool_decide (size uniqueIndices = length hand) then
                let reorderedHand := (fun index => index ≫= at_index hand) <$> order in
                (Part003.setHand name reorderedHand g, gameUpdate)
              else (g, invalidCardOrder)
            else (g, nothing)
        | _, _ => (g, nothing)
        end
  end.

End Part001Socket.

(** * Melds over a round

    The melds of a round only grow: the round is the same, and for every
    player, type and size there are at least as many melds of that type with
    at least that many cards as before. *)
Definition keepsMelds (g g' : Part003.Game) : Prop :=
  Part003.currentRound g' = Part003.currentRound g ∧
  ∀ q ty k, countOfType ty k (default [] (Part003.playerMelds g !! q))
            <= countOfType ty k (default [] (Part003.playerMelds g' !! q)).

(** What makes a list of indices into the hand [h] a good proposal of type
    [ty]. *)
Definition goodMeld (h : list Card) (ty : string) (l : list nat) : Prop :=
  NoDup l ∧ Forall (fun i => (i < length h)%nat) l ∧
  (Part003.validateMeld (at_index (Some <$> h) <$> (Z.of_nat <$> l)) ty).2 = Normal true.

(** * Arrays and sorting *)

Section sorting_facts.
Context {A : Type} (le : A → A → bool).

Lemma insertSorted_Permutation x l : insertSorted le x l ≡ₚ x :: l.
Proof.
  induction l as [|y l IH]; simpl; [done|].
  destruct (le x y); [done|]. rewrite IH. apply Permutation_swap.
Qed.

Lemma sortBy_Permutation l : sortBy le l ≡ₚ l.
Proof.
  induction l as [|x l IH]; simpl; [done|].
  by rewrite insertSorted_Permutation, IH.
Qed.

Lemma sortBy_length l : length (sortBy le l) = length l.
Proof. by rewrite sortBy_Permutation. Qed.

Hypothesis le_total : ∀ a b, le a b = true ∨ le b a = true.

Lemma insertSorted_HdRel a x l :
  le a x = true → HdRel (fun u v => le u v = true) a l →
  HdRel (fun u v => le u v = true) a (insertSorted le x l).
Proof.
  intros Hax Hl. destruct l as [|y l]; simpl; [by constructor|].
  destruct (le x y); constructor; [done|]. by inversion Hl.
Qed.

Lemma insertSorted_Sorted x l :
  Sorted (fun u v => le u v = true) l →
  Sorted (fun u v => le u v = true) (insertSorted le x l).
Proof.
  induction 1 as [|y l Hl IH Hhd]; simpl; [by repeat constructor|].
  destruct (le x y) eqn:Hxy.
  - constructor; [by constructor|by constructor].
  - constructor; [done|]. apply insertSorted_HdRel; [|done].
    destruct (le_total x y); congruence.
Qed.

Lemma sortBy_Sorted l : Sorted (fun u v => le u v = true) (sortBy le l).
Proof. induction l; simpl; [constructor|by apply insertSorted_Sorted]. Qed.

End sorting_facts.

Lemma sortBy_value_Sorted (cs : list Card) :
  ascendingByValue (sortBy (fun a b => bool_decide (value a <= value b)) cs).
Proof.
  unfold ascendingByValue.
  rewrite <-(list_fmap_id (sortBy _ cs)).
  eapply (Sorted_fmap id); [|apply sortBy_Sorted].
  - intros a b H. by apply bool_decide_eq_true in H.
  - intros a b. rewrite !bool_decide_eq_true. lia.
Qed.

Lemma sortByValue_cards (cs : list Card) :
  sortByValue (Some <$> cs)
  = Some <$> sortBy (fun a b => bool_decide (value a <= value b)) cs.
Proof.
  unfold sortByValue.
  assert (omap id (Some <$> cs) = cs) as ->.
  { induction cs; simpl; [done|]. by f_equal. }
  assert (filter (fun o : slot => o = undefined) (Some <$> cs) = []) as ->.
  { induction cs; [done|]. rewrite fmap_cons, filter_cons_False; done. }
  by rewrite app_nil_r.
Qed.

(** [every] and the adjacency loop on arrays without [undefined]. *)
Lemma every_cards (p : slot → Completion bool) (q : Card → bool) (cs : list Card) :
  (∀ c, p (Some c) = Normal (q c)) →
  every p (Some <$> cs) = Normal (forallb q cs).
Proof.
  intros Hp. induction cs as [|c cs IH]; simpl; [done|].
  rewrite Hp. simpl. destruct (q c); simpl; [exact IH|done].
Qed.

Lemma stepsByOne_cards (cs : list Card) :
  stepsByOne (Some <$> cs) = Normal (stepOneB (value <$> cs)).
Proof.
  induction cs as [|a [|b cs] IH]; [done..|].
  change (stepsByOne (Some <$> a :: b :: cs))
    with (if decide (value b = value a + 1) then stepsByOne (Some <$> b :: cs)
          else Normal false).
  change (stepOneB (value <$> a :: b :: cs))
    with (bool_decide (value b = value a + 1) && stepOneB (value <$> b :: cs)).
  case_decide.
  - rewrite bool_decide_eq_true_2 by done. exact IH.
  - by rewrite bool_decide_eq_false_2 by done.
Qed.

Lemma stepOneB_spec (vs : list Z) : stepOneB vs = true ↔ adjacentStepOne vs.
Proof.
  unfold adjacentStepOne. induction vs as [|v [|w vs] IH].
  - split; [intros _ i ?? H; by destruct i|done].
  - split; [intros _ [|[|i]] ?? ? H; done|done].
  - change (stepOneB (v :: w :: vs)) with (bool_decide (w = v + 1) && stepOneB (w :: vs)).
    rewrite andb_true_iff, bool_decide_eq_true, IH. split.
    + intros [-> H] [|i] a b Ha Hb; simplify_eq/=; [done|]. by eapply H.
    + intros H. split; [by apply (H 0%nat)|]. intros i a b Ha Hb. by apply (H (S i)).
Qed.

(** A list that is ascending and steps by one has no repeated value. *)
Lemma stepOne_lookup_lt (vs : list Z) (i j : nat) (a b : Z) :
  adjacentStepOne vs → vs !! i = Some a → vs !! j = Some b → (i < j)%nat → a < b.
Proof.
  intros Hstep Hi Hj Hlt. revert b Hj. induction Hlt as [|j Hle IH]; intros b Hj.
  - specialize (Hstep _ _ _ Hi Hj). lia.
  - destruct (lookup_lt_is_Some_2 vs j) as [m Hm].
    { apply lookup_lt_Some in Hj. lia. }
    specialize (IH _ Hm). specialize (Hstep _ _ _ Hm Hj). lia.
Qed.

Lemma stepOne_NoDup (vs : list Z) : adjacentStepOne vs → NoDup vs.
Proof.
  intros Hstep. apply NoDup_alt. intros i j a Hi Hj.
  destruct (Nat.lt_trichotomy i j) as [H|[H|H]]; [|done|].
  - pose proof (stepOne_lookup_lt _ _ _ _ _ Hstep Hi Hj H). lia.
  - pose proof (stepOne_lookup_lt _ _ _ _ _ Hstep Hj Hi H). lia.
Qed.

(** All value-sorted arrangements of the same cards show the same values. *)
Lemma sorted_values_unique (l1 l2 : list Card) :
  l1 ≡ₚ l2 → ascendingByValue l1 → ascendingByValue l2 → value <$> l1 = value <$> l2.
Proof.
  intros Hp H1 H2.
  apply (Sorted_unique Z.le).
  - eapply Sorted_fmap; [|exact H1]. done.
  - eapply Sorted_fmap; [|exact H2]. done.
  - by rewrite Hp.
Qed.

(** * Arrays and the shuffle *)

Lemma pop_push {A} (arr : list (option A)) (x : option A) : pop (push arr x) = (x, arr).
Proof. unfold pop, push. by rewrite reverse_snoc, reverse_involutive. Qed.

Lemma pop_nil {A} : pop (@nil (option A)) = (None, []).
Proof. done. Qed.

(** A non-empty array is its [pop] pushed back. *)
Lemma pop_nonempty {A} (arr : list (option A)) :
  (0 < length arr)%nat → arr = push (pop arr).2 (pop arr).1.
Proof.
  intros Hlen. destruct arr as [|y arr' _] using rev_ind; [simpl in Hlen; lia|].
  change (arr' ++ [y]) with (push arr' y). by rewrite pop_push.
Qed.

Lemma pop_length {A} (arr : list (option A)) :
  length (pop arr).2 = (length arr - 1)%nat.
Proof.
  destruct arr as [|y arr' _] using rev_ind; [done|].
  change (arr' ++ [y]) with (push arr' y). rewrite pop_push. unfold push.
  rewrite length_app. simpl. lia.
Qed.

Lemma spliceStart_in_range (len : nat) (i : Z) :
  0 <= i → i < Z.of_nat len → spliceStart len i = Z.to_nat i.
Proof. intros. unfold spliceStart. rewrite decide_False by lia. f_equal. lia. Qed.

(** Removing the element at an index and splicing it back restores the array. *)
Lemma spliceIn_splice1 {A} (arr : list (option A)) (i : Z) :
  0 <= i → i < Z.of_nat (length arr) →
  spliceIn (splice1 arr i).2 i (at_index arr i) = arr.
Proof.
  intros H0 Hlt. unfold spliceIn, splice1, at_index. simpl.
  rewrite (decide_True (P := 0 <= i)) by done.
  rewrite (spliceStart_in_range (length arr)) by done.
  set (k := Z.to_nat i).
  destruct (lookup_lt_is_Some_2 arr k) as [x Hx]; [lia|].
  assert (Hk : (k < length arr)%nat) by lia.
  unfold spliceStart. rewrite decide_False by lia.
  rewrite length_delete by eauto.
  replace (Z.to_nat (i `min` Z.of_nat (length arr - 1))) with k by lia.
  rewrite Hx. simpl.
  rewrite delete_take_drop.
  rewrite take_app_length' by (rewrite length_take; lia).
  rewrite drop_app_length' by (rewrite length_take; lia).
  by apply take_drop_middle.
Qed.

Lemma swap_lookup (cards0 : Deck.t) (i j k : nat) :
  (i < length cards0)%nat → (j < length cards0)%nat →
  Deck.swap cards0 i j !! k
  = cards0 !! (if decide (k = i) then j else if decide (k = j) then i else k).
Proof.
  intros Hi Hj. unfold Deck.swap.
  destruct (lookup_lt_is_Some_2 cards0 i Hi) as [ci Hci].
  destruct (lookup_lt_is_Some_2 cards0 j Hj) as [cj Hcj].
  rewrite Hci, Hcj.
  destruct (decide (k = j)) as [->|Hkj].
  - rewrite list_lookup_insert_eq by (by rewrite length_insert).
    destruct (decide (j = i)) as [->|]; congruence.
  - rewrite list_lookup_insert_ne by done.
    destruct (decide (k = i)) as [->|Hki].
    + by rewrite list_lookup_insert_eq.
    + by rewrite list_lookup_insert_ne.
Qed.

Lemma swap_Permutation (cards0 : Deck.t) (i j : nat) : Deck.swap cards0 i j ≡ₚ cards0.
Proof.
  destruct (decide (i < length cards0)%nat) as [Hi|Hi]; last first.
  { unfold Deck.swap. by rewrite (lookup_ge_None_2 cards0 i) by lia. }
  destruct (decide (j < length cards0)%nat) as [Hj|Hj]; last first.
  { unfold Deck.swap. rewrite (lookup_ge_None_2 cards0 j) by lia. by destruct (cards0 !! i). }
  apply Permutation_inj. split.
  - unfold Deck.swap.
    destruct (cards0 !! i), (cards0 !! j); try done. by rewrite !length_insert.
  - exists (fun k => if decide (k = i) then j else if decide (k = j) then i else k).
    split; [|intros k; by apply swap_lookup].
    intros a b. repeat case_decide; intros; subst; congruence.
Qed.

Lemma shuffleFrom_Permutation (pick : Random) (i : nat) (cards0 : Deck.t) :
  Deck.shuffleFrom pick i cards0 ≡ₚ cards0.
Proof.
  revert cards0. induction i as [|i IH]; intros cards0; simpl; [done|].
  by rewrite IH, swap_Permutation.
Qed.

(** The shuffle rearranges the array and neither adds nor drops a card. *)
Lemma shuffle_Permutation (pick : Random) (cards0 : Deck.t) :
  Deck.shuffle pick cards0 ≡ₚ cards0.
Proof. apply shuffleFrom_Permutation. Qed.

Lemma new_deck_Permutation (pick : Random) : Deck.new pick ≡ₚ Deck.initialize.
Proof. apply shuffle_Permutation. Qed.

Lemma initialize_length : length Deck.initialize = 104%nat.
Proof. reflexivity. Qed.

Lemma initialize_cards : Forall is_Some Deck.initialize.
Proof. apply (bool_decide_unpack _). by vm_compute. Qed.

(** * validateMeld *)

Lemma forallb_bool_decide {A} (P : A → Prop) `{∀ x, Decision (P x)} (l : list A) :
  forallb (fun x => bool_decide (P x)) l = true ↔ ∀ x, x ∈ l → P x.
Proof.
  rewrite forallb_forall. split.
  - intros H' x Hx. apply list_elem_of_In in Hx.
    eapply bool_decide_eq_true_1, H', Hx.
  - intros H' x Hx. apply list_elem_of_In in Hx.
    apply bool_decide_eq_true_2, H', Hx.
Qed.

Lemma run_order_spec (cs : list Card) :
  stepOneB (value <$> sortBy (fun a b => bool_decide (value a <= value b)) cs) = true
  ↔ ∃ sorted, sorted ≡ₚ cs ∧ ascendingByValue sorted ∧ adjacentStepOne (value <$> sorted).
Proof.
  rewrite stepOneB_spec. split.
  - intros H. eexists. split; [apply sortBy_Permutation|].
    split; [apply sortBy_value_Sorted|done].
  - intros (sorted & Hp & Hs & Hstep).
    rewrite (sorted_values_unique _ sorted); [done| |apply sortBy_value_Sorted|done].
    by rewrite sortBy_Permutation, Hp.
Qed.

Lemma Server_validateMeld_set (cs : list Card) :
  ∃ b, Server.validateMeld (Some <$> cs) "set" = Normal b ∧ (b = true ↔ specSet cs).
Proof.
  unfold Server.validateMeld, specSet. rewrite decide_True by done. rewrite length_fmap.
  case_decide as Hlen.
  { exists false. split; [done|]. split; [done|]. intros [? _]. lia. }
  destruct cs as [|c0 cs']; [simpl in Hlen; lia|].
  change (prop rank (at_index (Some <$> c0 :: cs') 0)) with (Normal (rank c0)).
  change (Normal (rank c0) ≫= ?k) with (k (rank c0)). cbv beta.
  rewrite (every_cards _ (fun c => bool_decide (rank c = rank c0))) by done.
  eexists. split; [done|].
  rewrite (forallb_bool_decide (fun c => rank c = rank c0)). simpl in *.
  split; [intros H; split; [lia|]|intros [_ H]]; intros c Hc; specialize (H c Hc); congruence.
Qed.

Lemma Server_validateMeld_run (cs : list Card) :
  ∃ b, Server.validateMeld (Some <$> cs) "run" = Normal b ∧ (b = true ↔ specRun cs).
Proof.
  unfold Server.validateMeld, specRun. rewrite decide_False by done.
  rewrite decide_True by done. rewrite length_fmap.
  case_decide as Hlen.
  { exists false. split; [done|]. split; [done|]. intros [? _]. lia. }
  destruct cs as [|c0 cs']; [simpl in Hlen; lia|].
  change (prop suit (at_index (Some <$> c0 :: cs') 0)) with (Normal (suit c0)).
  change (Normal (suit c0) ≫= ?k) with (k (suit c0)). cbv beta.
  rewrite (every_cards _ (fun c => bool_decide (suit c = suit c0))) by done.
  change (Normal ?b ≫= ?k) with (k b). cbv beta.
  destruct (forallb _ (c0 :: cs')) eqn:Hall; simpl negb; cbv iota.
  - rewrite sortByValue_cards, stepsByOne_cards. eexists. split; [done|].
    rewrite run_order_spec.
    pose proof (forallb_bool_decide (fun c => suit c = suit c0)) as Hsuits.
    pose proof (proj1 (Hsuits _) Hall) as Hall'. simpl in Hlen. simpl length.
    split; [intros H; split; [lia|split; [|done]]|intros (_ & _ & H); done].
    intros c Hc. simpl. f_equal. by apply Hall'.
  - exists false. split; [done|]. split; [done|]. intros (_ & Hsuit & _).
    assert (forallb (λ c : Card, bool_decide (suit c = suit c0)) (c0 :: cs') = true); [|congruence].
    pose proof (forallb_bool_decide (fun c => suit c = suit c0)) as Hsuits.
    apply (proj2 (Hsuits _)). intros c Hc. specialize (Hsuit c Hc). simpl in Hsuit. congruence.
Qed.

Lemma Part003_validateMeld_eq (cs : list Card) (ty : string) :
  ty = "set" ∨ ty = "run" →
  (Part003.validateMeld (Some <$> cs) ty).2 = Server.validateMeld (Some <$> cs) ty.
Proof.
  intros Hty. unfold Part003.validateMeld, Server.validateMeld. rewrite length_fmap.
  destruct Hty as [-> | ->].
  - rewrite (decide_False (P := "set" = "run" ∧ _)) by (intros [? _]; done).
    rewrite !(decide_True (P := "set" = "set")) by done.
    destruct (decide (length cs < 3)%nat) as [Hlen|Hlen].
    + by rewrite decide_True by done.
    + rewrite decide_False by (intros [_ ?]; done).
      destruct cs as [|c0 cs']; [simpl in Hlen; lia|].
      change (prop rank (at_index (Some <$> c0 :: cs') 0)) with (Normal (rank c0)).
      change (Normal (rank c0) ≫= ?k) with (k (rank c0)). cbv beta.
      simpl. by rewrite !(every_cards _ (fun c => bool_decide (rank c = rank c0))) by done.
  - rewrite (decide_False (P := "run" = "set" ∧ _)) by (intros [? _]; done).
    rewrite !(decide_False (P := "run" = "set")) by done.
    rewrite !(decide_True (P := "run" = "run")) by done.
    destruct (decide (length cs < 4)%nat) as [Hlen|Hlen].
    + by rewrite decide_True by done.
    + rewrite decide_False by (intros [_ ?]; done).
      destruct cs as [|c0 cs']; [simpl in Hlen; lia|].
      change (prop suit (at_index (Some <$> c0 :: cs') 0)) with (Normal (suit c0)).
      change (Normal (suit c0) ≫= ?k) with (k (suit c0)). cbv beta.
      rewrite !(every_cards _ (fun c => bool_decide (suit c = suit c0))) by done.
      change (Normal ?b ≫= ?k) with (k b). cbv beta.
      by destruct (forallb _ (c0 :: cs')).
Qed.

(** C3.  On arrays of cards, [validateMeld(cards, 'set')] returns true
    exactly when there are at least 3 cards and every rank equals the first
    card's; [validateMeld(cards, 'run')] returns true exactly when there are
    at least 4 cards, every suit equals the first card's, and the cards
    sorted by value ascending step by exactly 1; two cards of equal value
    always make a run invalid.  This holds for server.js and for part_003. *)
Theorem validateMeld_characterised (cs : list Card) :
  (∃ b, Server.validateMeld (Some <$> cs) "set" = Normal b ∧ (b = true ↔ specSet cs)) ∧
  (∃ b, Server.validateMeld (Some <$> cs) "run" = Normal b ∧ (b = true ↔ specRun cs)) ∧
  (∃ b, (Part003.validateMeld (Some <$> cs) "set").2 = Normal b ∧ (b = true ↔ specSet cs)) ∧
  (∃ b, (Part003.validateMeld (Some <$> cs) "run").2 = Normal b ∧ (b = true ↔ specRun cs)) ∧
  ((∃ (i j : nat) (a b : Card),
       i ≠ j ∧ cs !! i = Some a ∧ cs !! j = Some b ∧ value a = value b) →
   Server.validateMeld (Some <$> cs) "run" = Normal false ∧
   (Part003.validateMeld (Some <$> cs) "run").2 = Normal false).
Proof.
  assert (Hdup : (∃ (i j : nat) (a b : Card),
       i ≠ j ∧ cs !! i = Some a ∧ cs !! j = Some b ∧ value a = value b) → ¬ specRun cs).
  { intros (i & j & a & b & Hij & Hi & Hj & Hv) (_ & _ & sorted & Hp & _ & Hstep).
    apply stepOne_NoDup in Hstep.
    assert (NoDup (value <$> cs)) as Hnd by (by rewrite <-Hp).
    apply Hij. eapply NoDup_lookup; [exact Hnd| |].
    - rewrite list_lookup_fmap, Hi. done.
    - rewrite list_lookup_fmap, Hj. simpl. by rewrite Hv. }
  rewrite !Part003_validateMeld_eq by auto.
  split; [apply Server_validateMeld_set|].
  split; [apply Server_validateMeld_run|].
  split; [apply Server_validateMeld_set|].
  split; [apply Server_validateMeld_run|].
  intros H. apply Hdup in H.
  destruct (Server_validateMeld_run cs) as ([|] & -> & Hb); [|done].
  destruct H. by apply Hb.
Qed.

(** * Dealing a round *)

Arguments Deck.initialize : simpl never.
Arguments Deck.new : simpl never.
Arguments Deck.shuffle : simpl never.

Lemma reset_hands_lookup {V} (v : V) (m : gmap string V) (qs : list string) (p : string) :
  foldl (fun m p => <[p := v]> m) m qs !! p = if decide (p ∈ qs) then Some v else m !! p.
Proof.
  revert m. induction qs as [|q qs IH]; intros m.
  - rewrite decide_False; [done|apply not_elem_of_nil].
  - change (foldl _ m (q :: qs)) with (foldl (fun m p => <[p := v]> m) (<[q := v]> m) qs).
    rewrite IH. destruct (decide (p ∈ qs)) as [Hin|Hin].
    + rewrite decide_True; [done|by apply elem_of_cons; right].
    + destruct (decide (p = q)) as [->|Hne].
      * rewrite lookup_insert_eq, decide_True; [done|by apply elem_of_cons; left].
      * rewrite lookup_insert_ne by done.
        rewrite decide_False; [done|]. by intros [?|?]%elem_of_cons.
Qed.

Lemma deal_snoc (d : Deck.t) (x : slot) : Deck.deal (d ++ [x]) = (x, d).
Proof. apply (pop_push d x). Qed.

Lemma deal_nonempty (d : Deck.t) :
  (0 < length d)%nat → ∃ d' x, d = d' ++ [x] ∧ Deck.deal d = (x, d').
Proof.
  intros H. destruct d as [|x d' _] using rev_ind; [simpl in H; lia|].
  exists d', x. split; [done|apply deal_snoc].
Qed.

(** Hands of players other than [p] do not see a change to [p]'s hand. *)
Lemma handsOf_alter_other (ps : list string) (hs : gmap string (list slot)) f (p : string) :
  p ∉ ps → handsOf ps (alter f p hs) = handsOf ps hs.
Proof.
  intros Hp. unfold handsOf. apply list_fmap_ext. intros i q Hq.
  rewrite lookup_alter_ne; [done|]. intros ->. apply Hp. by eapply list_elem_of_lookup_2.
Qed.

(** Pushing a card onto one player's hand adds that card to the hands. *)
Lemma handsOf_push (ps : list string) (hs : gmap string (list slot)) (p : string) (x : slot) :
  NoDup ps → p ∈ ps → is_Some (hs !! p) →
  concat (handsOf ps (alter (fun h => push h x) p hs)) ≡ₚ x :: concat (handsOf ps hs).
Proof.
  intros Hnd Hp [h Hh].
  induction Hnd as [|q qs Hq Hnd IH]; [by apply elem_of_nil in Hp|].
  change (handsOf (q :: qs) ?m) with (default [] (m !! q) :: handsOf qs m).
  simpl concat.
  destruct (decide (p = q)) as [->|Hne].
  - rewrite handsOf_alter_other by done.
    rewrite lookup_alter_eq, Hh. simpl. unfold push.
    rewrite <-app_assoc. simpl. by rewrite <-Permutation_middle.
  - rewrite lookup_alter_ne by done.
    rewrite IH; [by rewrite <-Permutation_middle|].
    apply elem_of_cons in Hp as [?|?]; done.
Qed.

Lemma dealOne_spec (hs : gmap string (list slot)) (d : Deck.t) (x : slot) (p : string) :
  Part003.dealOne (hs, d ++ [x]) p = (alter (fun h => push h x) p hs, d).
Proof. unfold Part003.dealOne. simpl. by rewrite deal_snoc. Qed.

(** One pass of the deal over the players [todo]. *)
Lemma dealPass_spec (ps todo : list string) (hs : gmap string (list slot)) (d : Deck.t) :
  NoDup ps → NoDup todo → todo ⊆ ps →
  (∀ p, p ∈ ps → is_Some (hs !! p)) →
  (length todo <= length d)%nat →
  ∃ hs' d',
    Part003.dealPass todo (hs, d) = (hs', d') ∧
    (length d' + length todo = length d)%nat ∧
    concat (handsOf ps hs') ++ d' ≡ₚ concat (handsOf ps hs) ++ d ∧
    (∀ p, p ∈ ps →
       ∃ h h', hs !! p = Some h ∧ hs' !! p = Some h' ∧
               length h' = (length h + if decide (p ∈ todo) then 1 else 0)%nat).
Proof.
  intros Hps. revert hs d. induction todo as [|q todo IH]; intros hs d Hnd Hsub Hdom Hlen.
  - exists hs, d. repeat split; try done. intros p Hp.
    destruct (Hdom p Hp) as [h Hh]. exists h, h. rewrite decide_False by apply not_elem_of_nil.
    repeat split; try done; lia.
  - apply NoDup_cons in Hnd as [Hq Hnd].
    destruct (deal_nonempty d) as (d1 & x & -> & _); [simpl in Hlen; lia|].
    unfold Part003.dealPass. simpl foldl. rewrite dealOne_spec.
    assert (Hqps : q ∈ ps) by (apply Hsub; by left).
    destruct (IH (alter (fun h => push h x) q hs) d1) as (hs' & d' & Heq & Hl & Hperm & Hlens).
    + done.
    + intros p Hp. apply Hsub. by right.
    + intros p Hp. destruct (decide (p = q)) as [->|].
      * rewrite lookup_alter_eq. destruct (Hdom q Hp) as [h ->]. by eexists.
      * rewrite lookup_alter_ne by done. by apply Hdom.
    + rewrite length_app in Hlen. simpl in *. lia.
    + exists hs', d'. split; [exact Heq|]. split; [|split].
      * rewrite length_app. simpl. lia.
      * rewrite Hperm, handsOf_push by auto.
        rewrite (Permutation_app_comm d1 [x]). simpl.
        by rewrite <-Permutation_middle.
      * intros p Hp. destruct (Hlens p Hp) as (h1 & h' & Hh1 & Hh' & Hlen').
        destruct (decide (p = q)) as [->|Hne].
        -- rewrite lookup_alter_eq in Hh1. destruct (Hdom q Hp) as [h Hh].
           rewrite Hh in Hh1. simpl in Hh1. injection Hh1 as <-.
           exists h, h'. rewrite decide_False in Hlen' by done.
           rewrite decide_True by (by left). unfold push in Hlen'.
           rewrite length_app in Hlen'. simpl in Hlen'. repeat split; try done; lia.
        -- rewrite lookup_alter_ne in Hh1 by done. exists h1, h'.
           repeat split; try done. rewrite Hlen'. f_equal.
           destruct (decide (p ∈ todo)).
           ++ rewrite decide_True; [done|by right].
           ++ rewrite decide_False; [done|]. by intros [?|?]%elem_of_cons.
Qed.

(** [k] passes of the deal. *)
Lemma dealPasses_spec (ps : list string) (k : nat) (hs : gmap string (list slot)) (d : Deck.t) :
  NoDup ps →
  (∀ p, p ∈ ps → is_Some (hs !! p)) →
  (k * length ps <= length d)%nat →
  ∃ hs' d',
    Nat.iter k (Part003.dealPass ps) (hs, d) = (hs', d') ∧
    (length d' + k * length ps = length d)%nat ∧
    concat (handsOf ps hs') ++ d' ≡ₚ concat (handsOf ps hs) ++ d ∧
    (∀ p, p ∈ ps →
       ∃ h h', hs !! p = Some h ∧ hs' !! p = Some h' ∧ length h' = (length h + k)%nat).
Proof.
  intros Hnd Hdom. induction k as [|k IH]; intros Hlen.
  - exists hs, d. repeat split; try done. intros p Hp.
    destruct (Hdom p Hp) as [h Hh]. exists h, h. repeat split; try done; lia.
  - destruct IH as (hs1 & d1 & Heq & Hl & Hperm & Hlens); [lia|].
    destruct (dealPass_spec ps ps hs1 d1) as (hs2 & d2 & Heq2 & Hl2 & Hperm2 & Hlens2);
      [done|done|done| |lia|].
    { intros p Hp. destruct (Hlens p Hp) as (? & ? & _ & -> & _). by eexists. }
    exists hs2, d2. simpl Nat.iter. rewrite Heq. split; [exact Heq2|].
    split; [lia|]. split; [by rewrite Hperm2|].
    intros p Hp. destruct (Hlens p Hp) as (h & h1 & Hh & Hh1 & Hlen1).
    destruct (Hlens2 p Hp) as (h1' & h2 & Hh1' & Hh2 & Hlen2).
    rewrite decide_True in Hlen2 by done.
    exists h, h2. repeat split; try done. simplify_eq. lia.
Qed.

Lemma handsOf_empty (ps : list string) (hs : gmap string (list slot)) :
  (∀ p, p ∈ ps → hs !! p = Some []) → concat (handsOf ps hs) = [].
Proof.
  intros H. induction ps as [|p ps IH]; [done|].
  unfold handsOf. simpl. rewrite H by (by left). simpl. apply IH.
  intros q Hq. apply H. by right.
Qed.

Lemma Part003_dealRound_properly (pick : Random) (g : Part003.Game) :
  NoDup (Part003.players g) →
  (length (Part003.players g) * (10 + Part003.currentRound g) + 1 <= 104)%nat →
  let g' := Part003.dealRound pick g in
  Part003.players g' = Part003.players g ∧
  Part003.currentRound g' = Part003.currentRound g ∧
  properlyDealt (Part003.currentRound g) (Part003.hands g')
    (Part003.discardPile g') (Part003.deck g').
Proof.
  intros Hnd Hsize. unfold Part003.dealRound.
  set (ps := Part003.players g) in *.
  set (n := (10 + Part003.currentRound g)%nat) in *.
  set (hs0 := foldl _ (Part003.playerHands g) ps).
  assert (Hhs0 : ∀ p, p ∈ ps → hs0 !! p = Some []).
  { intros p Hp. unfold hs0. rewrite reset_hands_lookup. by rewrite decide_True. }
  pose proof (new_deck_Permutation pick) as Hnew.
  assert (Hlen0 : length (Deck.new pick) = 104%nat).
  { by rewrite Hnew. }
  destruct (dealPasses_spec ps n hs0 (Deck.new pick)) as (hs1 & d1 & Heq & Hl & Hperm & Hlens);
    [done| |lia|].
  { intros p Hp. rewrite Hhs0 by done. by eexists. }
  rewrite Heq.
  destruct (deal_nonempty d1) as (d2 & c & -> & Hdeal); [lia|].
  rewrite Hdeal.
  assert (Hall : concat (handsOf ps hs1) ++ [c] ++ d2 ≡ₚ Deck.initialize).
  { rewrite <-Hnew. rewrite (Permutation_app_comm [c] d2). rewrite Hperm.
    by rewrite (handsOf_empty ps hs0). }
  assert (Hsome : Forall is_Some (concat (handsOf ps hs1) ++ [c] ++ d2)).
  { rewrite Hall. apply initialize_cards. }
  cbn [Part003.players Part003.currentRound Part003.deck Part003.discardPile].
  split; [done|]. split; [done|].
  unfold properlyDealt, Part003.hands.
  cbn [Part003.players Part003.playerHands]. fold (handsOf ps hs1).
  change (push [] c) with [c].
  split; [|split; [|split]].
  - apply Forall_app in Hsome as [Hsome _].
    unfold handsOf in *. apply Forall_fmap, Forall_forall. intros p Hp.
    destruct (Hlens p Hp) as (h & h' & Hh & Hh' & Hlen').
    rewrite Hhs0 in Hh by done. injection Hh as <-.
    unfold compose. rewrite Hh'. split; [exact Hlen'|].
    rewrite Forall_concat, Forall_fmap, Forall_forall in Hsome.
    specialize (Hsome p Hp). cbn in Hsome. by rewrite Hh' in Hsome.
  - apply Forall_app in Hsome as [_ Hsome]. apply Forall_app in Hsome as [Hsome _].
    apply Forall_singleton in Hsome as [c' ->]. by exists c'.
  - by rewrite Hall.
  - exact Hall.
Qed.

Lemma dealHand_spec (n : nat) (h0 : list slot) (d : Deck.t) :
  (n <= length d)%nat →
  ∃ h d', Server.dealHand n h0 d = (h, d') ∧
          length h = (length h0 + n)%nat ∧
          (length d' + n = length d)%nat ∧
          h ++ d' ≡ₚ h0 ++ d.
Proof.
  revert h0 d. induction n as [|n IH]; intros h0 d Hlen.
  - exists h0, d. repeat split; try done; lia.
  - destruct (deal_nonempty d) as (d1 & x & -> & Hdeal); [lia|].
    rewrite length_app in Hlen. simpl in Hlen.
    destruct (IH (push h0 x) d1) as (h & d' & Heq & Hl1 & Hl2 & Hperm); [lia|].
    exists h, d'. simpl. rewrite Hdeal. split; [exact Heq|].
    unfold push in *. rewrite length_app in *. simpl in *.
    split; [lia|]. split; [lia|]. rewrite Hperm, <-app_assoc.
    f_equiv. apply Permutation_app_comm.
Qed.

Lemma dealPlayers_spec (n : nat) (todo : list string) (g : Server.Game) :
  NoDup todo →
  (∀ p, p ∈ todo → is_Some (Server.playerData g !! p)) →
  (length todo * n <= length (Server.deck g))%nat →
  ∃ g', Server.dealPlayers n todo g = (g', Normal ()) ∧
        Server.players g' = Server.players g ∧
        Server.currentRound g' = Server.currentRound g ∧
        Server.discardPile g' = Server.discardPile g ∧
        concat (Server.handsIn todo (Server.playerData g')) ++ Server.deck g' ≡ₚ Server.deck g ∧
        Forall (fun h => length h = n) (Server.handsIn todo (Server.playerData g')) ∧
        (∀ p, p ∉ todo → Server.playerData g' !! p = Server.playerData g !! p).
Proof.
  revert g. induction todo as [|q todo IH]; intros g Hnd Hdom Hlen.
  - exists g. by repeat split.
  - apply NoDup_cons in Hnd as [Hq Hnd].
    destruct (Hdom q) as [data Hdata]; [by left|].
    simpl in Hlen.
    destruct (dealHand_spec n [] (Server.deck g)) as (h & d' & Hdeal & Hl1 & Hl2 & Hperm);
      [lia|].
    simpl Server.dealPlayers. rewrite Hdata, Hdeal.
    set (g1 := Server.withDeck d' _).
    destruct (IH g1) as (g' & Heq & Hps & Hr & Hdp & Hperm' & Hlens & Hother); [done| | |].
    { intros p Hp. unfold g1. simpl. destruct (decide (p = q)) as [->|].
      - rewrite lookup_insert_eq. by eexists.
      - rewrite lookup_insert_ne by done. apply Hdom. by right. }
    { unfold g1. simpl. lia. }
    exists g'. split; [exact Heq|]. split; [by rewrite Hps|]. split; [by rewrite Hr|].
    split; [by rewrite Hdp|].
    assert (Hq' : Server.playerData g' !! q
                  = Some (Server.mkData h [] 3 (Server.scores data) false)).
    { rewrite Hother by done. unfold g1. simpl. by rewrite lookup_insert_eq. }
    unfold Server.handsIn in *. rewrite !fmap_cons. rewrite Hq'. simpl.
    split; [|split].
    + rewrite <-app_assoc, Hperm'. unfold g1. simpl. by rewrite Hperm.
    + constructor; [simpl in Hl1; lia|done].
    + intros p Hp. apply not_elem_of_cons in Hp as [Hne Hp].
      rewrite Hother by done. unfold g1. simpl. by rewrite lookup_insert_ne.
Qed.

Lemma Server_dealRound_properly (pick : Random) (g : Server.Game) :
  NoDup (Server.players g) →
  (∀ p, p ∈ Server.players g → is_Some (Server.playerData g !! p)) →
  (length (Server.players g) * (10 + Server.currentRound g) + 1 <= 104)%nat →
  ∃ g', Server.dealRound pick g = (g', Normal ()) ∧
        Server.players g' = Server.players g ∧
        Server.currentRound g' = Server.currentRound g ∧
        properlyDealt (Server.currentRound g) (Server.hands g')
          (Server.discardPile g') (Server.deck g').
Proof.
  intros Hnd Hdom Hsize. unfold Server.dealRound.
  pose proof (new_deck_Permutation pick) as Hnew.
  assert (Hlen0 : length (Deck.new pick) = 104%nat) by (by rewrite Hnew).
  destruct (deal_nonempty (Deck.new pick)) as (d & c & Hd & Hdeal); [lia|].
  rewrite Hdeal. cbn zeta.
  set (g1 := Server.withDiscardPile [c] (Server.withDeck d g)).
  assert (Hlend : (length d + 1 = 104)%nat).
  { rewrite <-Hlen0, Hd, length_app. simpl. lia. }
  destruct (dealPlayers_spec (10 + Server.currentRound g1) (Server.players g1) g1)
    as (g2 & Heq & Hps & Hr & Hdp & Hperm & Hlens & _); [done|done| |].
  { unfold g1 at 3. cbn [Server.deck Server.withDiscardPile Server.withDeck].
    change (Server.players g1) with (Server.players g).
    change (Server.currentRound g1) with (Server.currentRound g). lia. }
  rewrite Heq. eexists. split; [done|].
  change (Server.players g1) with (Server.players g) in *.
  change (Server.currentRound g1) with (Server.currentRound g) in *.
  change (Server.discardPile g1) with [c] in *.
  change (Server.deck g1) with d in *.
  cbn [Server.players Server.currentRound Server.discardPile Server.deck
       Server.withHasDrawn Server.withCurrentPlayerIndex].
  split; [done|]. split; [done|].
  unfold properlyDealt, Server.hands.
  cbn [Server.players Server.playerData Server.withHasDrawn Server.withCurrentPlayerIndex].
  rewrite Hps, Hdp. fold (Server.handsIn (Server.players g) (Server.playerData g2)).
  assert (Hall : concat (Server.handsIn (Server.players g) (Server.playerData g2))
                 ++ [c] ++ Server.deck g2 ≡ₚ Deck.initialize).
  { rewrite <-Hnew, Hd. rewrite (Permutation_app_comm [c]), app_assoc. by rewrite Hperm. }
  assert (Hsome : Forall is_Some (concat (Server.handsIn (Server.players g) (Server.playerData g2))
                                  ++ [c] ++ Server.deck g2)).
  { rewrite Hall. apply initialize_cards. }
  split; [|split; [|split]].
  - apply Forall_app in Hsome as [Hsome _]. rewrite Forall_concat in Hsome.
    rewrite Forall_forall in Hlens, Hsome. apply Forall_forall. intros h Hh. split; auto.
  - apply Forall_app in Hsome as [_ Hsome]. apply Forall_app in Hsome as [Hsome _].
    apply Forall_singleton in Hsome as [c' ->]. by exists c'.
  - by rewrite Hall.
  - exact Hall.
Qed.

(** C7, amended.  For a roster of distinct players that the two decks can
    serve, [players * (10 + round) + 1 <= 104], [dealRound] gives every
    player exactly [10 + round] cards and the discard pile exactly one
    starter card, and hands, discard pile and stock are together the 104
    cards of the two decks; in part_003 and (every player having a
    [playerData] record) in server.js. *)
Theorem dealRound_deals_properly (pick : Random) (g : Part003.Game) (s : Server.Game) :
  NoDup (Part003.players g) →
  (length (Part003.players g) * (10 + Part003.currentRound g) + 1 <= 104)%nat →
  NoDup (Server.players s) →
  (∀ p, p ∈ Server.players s → is_Some (Server.playerData s !! p)) →
  (length (Server.players s) * (10 + Server.currentRound s) + 1 <= 104)%nat →
  properlyDealt (Part003.currentRound g) (Part003.hands (Part003.dealRound pick g))
    (Part003.discardPile (Part003.dealRound pick g)) (Part003.deck (Part003.dealRound pick g)) ∧
  ∃ s', Server.dealRound pick s = (s', Normal ()) ∧
        properlyDealt (Server.currentRound s) (Server.hands s')
          (Server.discardPile s') (Server.deck s').
Proof.
  intros Hg Hgsize Hs Hdom Hssize. split.
  - by apply Part003_dealRound_properly.
  - destruct (Server_dealRound_properly pick s) as (s' & ? & _ & _ & ?); eauto.
Qed.

Lemma dealRound_deals_properly_witness :
  properlyDealt 1 (Part003.hands Part003Games.freshDeal)
    (Part003.discardPile Part003Games.freshDeal) (Part003.deck Part003Games.freshDeal) ∧
  ∃ s', Server.dealRound fixedPick ServerGames.lobby = (s', Normal ()) ∧
        properlyDealt 1 (Server.hands s') (Server.discardPile s') (Server.deck s').
Proof.
  apply (dealRound_deals_properly fixedPick Part003Games.lobby ServerGames.lobby).
  - apply (bool_decide_unpack _). by vm_compute.
  - vm_compute. lia.
  - apply (bool_decide_unpack _). by vm_compute.
  - intros p Hp. apply (bool_decide_unpack _).
    apply list_elem_of_In in Hp. simpl in Hp. by destruct Hp as [<-|[<-|[]]]; vm_compute.
  - vm_compute. lia.
Defined.

(** C7 as stated fails for a roster the two decks cannot serve: seven
    players in round 7 need 7 * 17 + 1 cards.  The stock runs out, the last
    hands are filled up with [undefined], and in part_003 the discard pile
    has no starter card. *)
Lemma dealRound_seven_players_round_seven :
  ¬ properlyDealt 7 (Part003.hands Part003Games.overfullDeal)
      (Part003.discardPile Part003Games.overfullDeal)
      (Part003.deck Part003Games.overfullDeal) ∧
  Part003.discardPile Part003Games.overfullDeal = [undefined] ∧
  Part003.playerHands Part003Games.overfullDeal !! "G"
    = Some [one spades R8; one spades RA; one clubs R7; one diamonds RK; one diamonds R6;
            one hearts RQ; one hearts R5; one spades RJ; one spades R4; one clubs R10;
            one clubs R3; one diamonds R9; one diamonds R2; one hearts R8;
            undefined; undefined; undefined] ∧
  ¬ properlyDealt 7 (Server.hands ServerGames.overfullDeal)
      (Server.discardPile ServerGames.overfullDeal) (Server.deck ServerGames.overfullDeal) ∧
  Server.hand <$> Server.playerData ServerGames.overfullDeal !! "G"
    = Some [one hearts R2; undefined; undefined; undefined; undefined; undefined; undefined;
            undefined; undefined; undefined; undefined; undefined; undefined; undefined;
            undefined; undefined; undefined].
Proof.
  split; [|split; [|split; [|split]]].
  - intros (_ & _ & Hlen & _). vm_compute in Hlen. done.
  - by vm_compute.
  - by vm_compute.
  - intros (_ & _ & Hlen & _). vm_compute in Hlen. done.
  - by vm_compute.
Qed.

(** * Drawing from an empty stock *)

(** Part_003 checks the discard pile before it touches it (C5): with an
    empty stock and at most the top card on the pile the draw fails and the
    game is exactly as before. *)
Lemma Part003_draw_without_cards (pick : Random) (g : Part003.Game) (p : string) :
  Part003.getCurrentPlayer g = Some p →
  Part003.hasDrawn g = false →
  Part003.deck g = [] →
  (length (Part003.discardPile g) <= 1)%nat →
  Part003.drawCard pick g p = (g, Normal (failure "No cards left to draw")).
Proof.
  intros Hcur Hdrawn Hdeck Hpile. unfold Part003.drawCard.
  rewrite decide_False by (intros [?|?]; congruence).
  rewrite Hdeck. change (Deck.isEmpty []) with true. cbv iota.
  by rewrite decide_True by done.
Qed.

(** With an empty stock and more than the top card on the pile, the draw
    recycles the pile (C5): the top card alone stays, the others are
    shuffled into the stock, and one of them goes to the player. *)
Lemma Part003_draw_recycles (pick : Random) (g : Part003.Game) (p : string)
    (rest hand : list slot) (top : slot) :
  Part003.getCurrentPlayer g = Some p →
  Part003.hasDrawn g = false →
  Part003.deck g = [] →
  Part003.discardPile g = rest ++ [top] →
  rest ≠ [] →
  Part003.playerHands g !! p = Some hand →
  ∃ g' c,
    Part003.drawCard pick g p = (g', Normal (okCard c)) ∧
    Part003.discardPile g' = [top] ∧
    Part003.playerHands g' !! p = Some (hand ++ [c]) ∧
    Part003.deck g' ++ [c] ≡ₚ rest ∧
    Part003.hasDrawn g' = true.
Proof.
  intros Hcur Hdrawn Hdeck Hpile Hrest Hhand. unfold Part003.drawCard.
  rewrite decide_False by (intros [?|?]; congruence).
  rewrite Hdeck. change (Deck.isEmpty []) with true. cbv iota.
  rewrite Hpile. rewrite decide_False; last first.
  { rewrite length_app. simpl. destruct rest; [done|simpl; lia]. }
  change (rest ++ [top]) with (push rest top). rewrite pop_push.
  destruct (deal_nonempty (Deck.shuffle pick rest)) as (d & c & Hd & Hdeal).
  { rewrite shuffle_Permutation. destruct rest; [done|simpl; lia]. }
  cbn [Part003.deck Part003.withDiscardPile Part003.withDeck]. rewrite Hdeal.
  unfold Part003.pushToHand.
  cbn [Part003.playerHands Part003.withDiscardPile Part003.withDeck]. rewrite Hhand.
  eexists _, c. split; [done|].
  cbn [Part003.discardPile Part003.playerHands Part003.deck Part003.hasDrawn
       Part003.withHasDrawn Part003.setHand Part003.withPlayerHands].
  split; [done|]. split; [by rewrite lookup_insert_eq|]. split; [|done].
  simpl. by rewrite <-Hd, shuffle_Permutation.
Qed.

(** Server.js recycles in the same way when the pile has more than its top
    card (C5). *)
Lemma Server_draw_recycles (pick : Random) (g : Server.Game) (p : string)
    (rest : list slot) (top : slot) (data : Server.PlayerData) :
  Server.getCurrentPlayer g = Some p →
  Server.hasDrawn g = false →
  Server.deck g = [] →
  Server.discardPile g = rest ++ [top] →
  rest ≠ [] →
  Server.playerData g !! p = Some data →
  ∃ g' c,
    Server.drawCard pick g p = (g', Normal ok) ∧
    Server.discardPile g' = [top] ∧
    Server.hand <$> Server.playerData g' !! p = Some (Server.hand data ++ [c]) ∧
    Server.deck g' ++ [c] ≡ₚ rest ∧
    Server.hasDrawn g' = true.
Proof.
  intros Hcur Hdrawn Hdeck Hpile Hrest Hdata. unfold Server.drawCard.
  rewrite decide_False by (intros [?|?]; congruence).
  rewrite Hdeck. change (Deck.isEmpty []) with true. cbv iota.
  rewrite Hpile. change (rest ++ [top]) with (push rest top). rewrite pop_push.
  unfold Deck.reset. rewrite decide_True by (destruct rest; [done|simpl; lia]).
  destruct (deal_nonempty (Deck.shuffle pick rest)) as (d & c & Hd & Hdeal).
  { rewrite shuffle_Permutation. destruct rest; [done|simpl; lia]. }
  cbn [Server.playerData Server.deck Server.withDiscardPile Server.withDeck].
  rewrite Hdata, Hdeal.
  eexists _, c. split; [done|].
  cbn [Server.discardPile Server.playerData Server.deck Server.hasDrawn
       Server.withHasDrawn Server.setData Server.withPlayerData Server.withDeck
       Server.withDiscardPile].
  split; [done|]. split; [by rewrite lookup_insert_eq|]. split; [|done].
  simpl. by rewrite <-Hd, shuffle_Permutation.
Qed.

(** C5, server.js.  The stock is empty and the discard pile holds only its
    top card: [drawCard] fails with "No cards available", but the top card
    has been popped and is gone; the discard pile is left empty. *)
Theorem server_failed_draw_empties_the_discard_pile :
  Server.discardPile ServerGames.emptyStock = [one spades RK] ∧
  let '(g', r) := Server.drawCard fixedPick ServerGames.emptyStock "A" in
  r = Normal (failure "No cards available") ∧
  Server.discardPile g' = [] ∧
  Server.deck g' = [] ∧
  Server.hand <$> Server.playerData g' !! "A" = Some [one hearts R4].
Proof. vm_compute. done. Qed.

(** * Going out *)

Lemma countValid_spec (req : Req.t) (ms : list Meld) :
  Part003.countValid req ms
  = (countOfType "set" (Req.minSetSize req) ms, countOfType "run" (Req.minRunSize req) ms).
Proof.
  unfold Part003.countValid, countOfType.
  set (f := fun '(validSets, validRuns) m => _).
  assert (H : ∀ a b, foldl f (a, b) ms
    = (a + Z.of_nat (length (filter (fun m => type m = "set" ∧
                       Req.minSetSize req <= Z.of_nat (length (cards m))) ms)),
       b + Z.of_nat (length (filter (fun m => type m = "run" ∧
                       Req.minRunSize req <= Z.of_nat (length (cards m))) ms)))).
  { induction ms as [|m ms IH]; intros a b.
    - simpl. f_equal; lia.
    - cbn [foldl]. unfold f at 2.
      destruct (decide (type m = "set" ∧ _)) as [Hs|Hs].
      + rewrite IH, filter_cons_True by done.
        rewrite (filter_cons_False (fun m => type m = "run" ∧ _)).
        * simpl length. f_equal; lia.
        * intros [Hr _]. destruct Hs as [Hs _]. congruence.
      + rewrite (filter_cons_False (fun m => type m = "set" ∧ _)) by done.
        destruct (decide (type m = "run" ∧ _)) as [Hr|Hr].
        * rewrite IH, filter_cons_True by done. simpl length. f_equal; lia.
        * rewrite IH, filter_cons_False by done. done. }
  rewrite H. f_equal; lia.
Qed.

(** The go-out validation is the contract of the round. *)
Lemma validate_meetsContract (g : Part003.Game) (p : string) :
  Part003.validatePlayerMeetsRoundRequirements g p = Normal true
  ↔ meetsContract (Part003.currentRound g) (default [] (Part003.playerMelds g !! p)).
Proof.
  unfold Part003.validatePlayerMeetsRoundRequirements, meetsContract.
  destruct (requirementOf (Part003.currentRound g)) as [req|].
  - rewrite countValid_spec. split.
    + intros [= H%bool_decide_eq_true]. by exists req.
    + intros (req' & [= <-] & H). f_equal. by apply bool_decide_eq_true.
  - split; [done|]. by intros (? & ? & _).
Qed.

(** The validation reads the melds and the round only. *)
Lemma validate_depends (g g' : Part003.Game) (p : string) :
  Part003.playerMelds g' !! p = Part003.playerMelds g !! p →
  Part003.currentRound g' = Part003.currentRound g →
  Part003.validatePlayerMeetsRoundRequirements g' p
  = Part003.validatePlayerMeetsRoundRequirements g p.
Proof. intros H1 H2. unfold Part003.validatePlayerMeetsRoundRequirements. by rewrite H1, H2. Qed.

Lemma Part003_game_eq (g : Part003.Game) hs ms dp :
  hs = Part003.playerHands g → ms = Part003.playerMelds g → dp = Part003.discardPile g →
  Part003.mkGame (Part003.players g) hs ms (Part003.playerBuys g) (Part003.playerScores g)
    (Part003.currentRound g) (Part003.currentPlayerIndex g) (Part003.deck g) dp
    (Part003.hasDrawn g) (Part003.gameStarted g) = g.
Proof. intros -> -> ->. by destruct g. Qed.

(** Part_003 rolls a refused last discard back (C1): the call fails and the
    game is exactly as before. *)
Lemma Part003_discard_last_card_rolled_back (pick : Random) (g : Part003.Game)
    (p : string) (c : slot) :
  Part003.getCurrentPlayer g = Some p →
  Part003.hasDrawn g = true →
  Part003.playerHands g !! p = Some [c] →
  is_Some (requirementOf (Part003.currentRound g)) →
  ¬ meetsContract (Part003.currentRound g) (default [] (Part003.playerMelds g !! p)) →
  ∃ msg, Part003.discardCard pick g p 0 = (g, Normal (failure msg)).
Proof.
  intros Hcur Hdrawn Hhand [req Hreq] Hnot. unfold Part003.discardCard. eexists.
  rewrite decide_False by (intros [?|?]; congruence).
  rewrite Hhand.
  destruct (decide (0 < 0 ∨ Z.of_nat (length [c]) <= 0)) as [Hbad|_];
    [simpl in Hbad; lia|].
  change (splice1 [c] 0) with (c, @nil slot). cbv zeta.
  destruct (decide (length (@nil slot) = 0%nat)) as [_|]; [|done].
  match goal with
  | |- context [Part003.validatePlayerMeetsRoundRequirements ?g1 p] =>
      rewrite (validate_depends g g1 p) by done
  end.
  destruct (Part003.validatePlayerMeetsRoundRequirements g p) as [[|]|] eqn:Hval.
  - by apply validate_meetsContract in Hval.
  - unfold Part003.cannotGoOut.
    cbn [Part003.currentRound Part003.withDiscardPile Part003.setHand Part003.withPlayerHands].
    rewrite Hreq. cbn [reqProp mbind Completion_bind]. f_equal.
    unfold Part003.setHand, Part003.withPlayerHands, Part003.withDiscardPile.
    cbn [Part003.players Part003.playerHands Part003.playerMelds Part003.playerBuys
         Part003.playerScores Part003.currentRound Part003.currentPlayerIndex
         Part003.deck Part003.discardPile Part003.hasDrawn Part003.gameStarted].
    apply Part003_game_eq; [|done|].
    + rewrite insert_insert_eq. by apply insert_id.
    + by rewrite pop_push.
  - unfold Part003.validatePlayerMeetsRoundRequirements in Hval. rewrite Hreq in Hval.
    by destruct (Part003.countValid _ _).
Qed.

(** C1, server.js.  A, who has drawn and holds one card with no meld laid
    down, discards it: the call succeeds, the hand stays empty and the card
    stays on the discard pile; nothing is rolled back (the round goes on and
    the buy window opens). *)
Theorem server_discard_last_card_is_accepted :
  let '(g', r) := Server.discardCard fixedPick ServerGames.lastCard "A" 0 in
  r = Normal (okCard (one spades RK)) ∧
  Server.hand <$> Server.playerData g' !! "A" = Some [] ∧
  Server.discardPile g' = [one clubs R5; one spades RK] ∧
  Server.currentRound g' = 1%nat ∧
  Server.BuyPhase.active (Server.buyPhase g') = true.
Proof. vm_compute. done. Qed.

(** C4.  A holds exactly three sevens in round 1 (contract: two sets) and
    melds them.  Part_003 and part_001 answer with a failure and server.js
    with a success, and in all three the hand stays empty and the meld stays
    in the player's meld list: nothing is reverted. *)
Theorem makeMeld_emptying_hand_is_not_reverted :
  let sevens := [one hearts R7; one diamonds R7; one clubs R7] in
  let said := "You've melded all cards but don't meet round requirements: 2 Sets of 3" in
  (let '(g', r) := Part003.makeMeld fixedPick Part003Games.threeSevens "A" [0; 1; 2] "set" in
   r = Normal (failure said) ∧
   Part003.playerHands g' !! "A" = Some [] ∧
   Part003.playerMelds g' !! "A" = Some [mkMeld "set" sevens]) ∧
  (let '(g', r) := Part001.makeMeld fixedPick Part003Games.threeSevens "A" [0; 1; 2] "set" in
   r = Normal (failure said) ∧
   Part003.playerHands g' !! "A" = Some [] ∧
   Part003.playerMelds g' !! "A" = Some [mkMeld "set" sevens]) ∧
  (let '(g', r) := Server.makeMeld fixedPick ServerGames.threeSevens "A" [0; 1; 2] "set" in
   r = Normal ok ∧
   Server.hand <$> Server.playerData g' !! "A" = Some [] ∧
   Server.melds <$> Server.playerData g' !! "A" = Some [mkMeld "set" sevens] ∧
   Server.currentRound g' = 1%nat).
Proof. vm_compute. done. Qed.

(** * Laying off *)

Lemma every_true {A} (p : A → Completion bool) (arr : list A) :
  every p arr = Normal true → ∀ x, x ∈ arr → p x = Normal true.
Proof.
  induction arr as [|y arr IH]; intros H x Hx; [by apply elem_of_nil in Hx|].
  simpl in H. destruct (p y) as [[|]|] eqn:Hy; simpl in H; try done.
  apply elem_of_cons in Hx as [->|Hx]; [done|by apply IH].
Qed.

(** An array whose elements are all cards. *)
Lemma all_cards (arr : list slot) :
  (∀ x, x ∈ arr → is_Some x) → ∃ cs, arr = Some <$> cs.
Proof.
  induction arr as [|x arr IH]; intros H; [by exists []|].
  destruct (H x) as [c ->]; [by left|].
  destruct IH as [cs ->]; [intros y Hy; apply H; by right|]. by exists (c :: cs).
Qed.

Lemma values_of_cards (cs : list Card) (acc : list Z) :
  reduceC (fun (acc : list Z) c => v ← prop value c; Normal (acc ++ [v])) (Some <$> cs) acc
  = Normal (acc ++ (value <$> cs)).
Proof.
  revert acc. induction cs as [|c cs IH]; intros acc; simpl; [by rewrite app_nil_r|].
  rewrite IH. by rewrite <-app_assoc.
Qed.

Lemma values_defined (arr : list slot) (acc vs : list Z) :
  reduceC (fun (acc : list Z) c => v ← prop value c; Normal (acc ++ [v])) arr acc = Normal vs →
  ∀ x, x ∈ arr → is_Some x.
Proof.
  revert acc. induction arr as [|y arr IH]; intros acc H x Hx; [by apply elem_of_nil in Hx|].
  simpl in H. destruct y as [c|]; [|done]. simpl in H.
  apply elem_of_cons in Hx as [->|Hx]; [by eexists|by eapply IH].
Qed.

(** The ends of a sorted array of numbers are its least and greatest. *)
Lemma sorted_ends (vs : list Z) (lo hi : Z) :
  Sorted Z.le vs → head vs = Some lo → last vs = Some hi →
  lo ∈ vs ∧ hi ∈ vs ∧ ∀ v, v ∈ vs → lo <= v <= hi.
Proof.
  intros Hs Hlo Hhi. apply Sorted_StronglySorted in Hs; [|intros ???; lia].
  split; [|split].
  - destruct vs; simplify_eq/=. by left.
  - apply last_Some in Hhi as [l' ->]. apply elem_of_app. right. by left.
  - intros v Hv. split.
    + destruct vs as [|a vs]; simplify_eq/=.
      apply StronglySorted_cons in Hs as [Hall _].
      apply elem_of_cons in Hv as [->|Hv]; [lia|].
      rewrite Forall_forall in Hall. by apply Hall.
    + apply last_Some in Hhi as [l' ->].
      apply StronglySorted_app in Hs as (Hle & _ & _).
      apply elem_of_app in Hv as [Hv|Hv].
      * apply Hle; [done|by left].
      * apply list_elem_of_singleton in Hv as ->. lia.
Qed.

Lemma sortBy_Z_Sorted (vs : list Z) :
  Sorted Z.le (sortBy (fun a b => bool_decide (a <= b)) vs).
Proof.
  rewrite <-(list_fmap_id (sortBy _ vs)).
  eapply (Sorted_fmap id); [|apply sortBy_Sorted].
  - intros a b H. by apply bool_decide_eq_true in H.
  - intros a b. rewrite !bool_decide_eq_true. lia.
Qed.

(** [canLayOffCard] accepts only cards that legally extend the meld. *)
Lemma canLayOffCard_legal (c : slot) (m : Meld) :
  Part003.canLayOffCard c m = Normal true →
  (∃ x, c = Some x ∧ legallyExtends x m) ∨ (c = undefined ∧ type m = "set" ∧ cards m = []).
Proof.
  unfold Part003.canLayOffCard, legallyExtends. intros H.
  destruct (decide (type m = "set")) as [Hset|Hset].
  - pose proof (every_true _ _ H) as Hall.
    destruct c as [x|].
    + left. exists x. split; [done|].
      destruct (all_cards (cards m)) as [cs Hcs].
      { intros y Hy. specialize (Hall y Hy). destruct y; [by eexists|done]. }
      exists cs. split; [done|]. left. split; [done|].
      intros y Hy. specialize (Hall (Some y)). rewrite Hcs in Hall.
      specialize (Hall ltac:(apply list_elem_of_fmap; by exists y)).
      simpl in Hall. injection Hall as Hall. by apply bool_decide_eq_true in Hall.
    + right. split; [done|]. split; [done|].
      destruct (cards m) as [|y l]; [done|].
      specialize (Hall y ltac:(by left)). by destruct y.
  - destruct (decide (type m = "run")) as [Hrun|Hrun]; [|done].
    destruct c as [x|]; [|done]. left. exists x. split; [done|].
    simpl in H.
    destruct (at_index (cards m) 0) as [x0|] eqn:Hx0; [|done]. simpl in H.
    destruct (decide (suit x ≠ suit x0)) as [Hsuit|Hsuit]; [done|].
    apply dec_stable in Hsuit.
    unfold Part003.sortedValues in H.
    destruct (reduceC _ (cards m) []) as [vs|] eqn:Hvs; [|done].
    destruct (all_cards (cards m)) as [cs Hcs]; [by eapply values_defined|].
    rewrite Hcs, values_of_cards in Hvs. injection Hvs as <-. simpl in H.
    injection H as H. apply bool_decide_eq_true in H.
    exists cs. split; [done|]. right. split; [done|]. split.
    + exists x0. split; [|done]. rewrite Hcs in Hx0. unfold at_index in Hx0.
      destruct cs; simplify_eq/=. done.
    + set (sorted := sortBy _ (value <$> cs)) in H.
      assert (Hperm : sorted ≡ₚ value <$> cs) by apply sortBy_Permutation.
      assert (Hne : sorted ≠ []).
      { intros Hnil. rewrite Hnil in H. simpl in H. by destruct H. }
      destruct (head sorted) as [lo|] eqn:Hlo; [|by destruct sorted].
      destruct (last sorted) as [hi|] eqn:Hhi; [|by apply last_None in Hhi].
      destruct (sorted_ends sorted lo hi) as (Hlo' & Hhi' & Hb);
        [apply sortBy_Z_Sorted|done|done|].
      exists lo, hi. split; [by rewrite <-Hperm|]. split; [by rewrite <-Hperm|].
      split; [intros v Hv; apply Hb; by rewrite Hperm|].
      simpl in H. destruct H as [[= Hv]|[= Hv]]; [by left|by right].
Qed.

(** A [layOffCard] call of part_003 that returns a failure leaves the game as
    it was; this includes the go-out that is refused after the card has been
    moved, which puts the card back in the hand and takes it off the meld. *)
Lemma layOffCard_refused_unchanged (pick : Random) (g : Part003.Game) (p : string) (i : Z)
    (tp : string) (mi : Z) (g' : Part003.Game) (r : Reply) :
  Part003.layOffCard pick g p i tp mi = (g', Normal r) →
  success r = false → g' = g.
Proof.
  intros H Hfail. revert H. unfold Part003.layOffCard.
  destruct (decide (Part003.getCurrentPlayer g ≠ Some p)); [by intros [= <- _]|].
  destruct (Part003.validatePlayerMeetsRoundRequirements g p) as [[|]|] eqn:Hval;
    [|by intros [= <- _]|done].
  destruct (Part003.playerHands g !! p) as [hand|] eqn:Hhand; [|done].
  destruct (decide (i < 0 ∨ _)) as [|Hi]; [by intros [= <- _]|].
  destruct (Part003.playerMelds g !! tp) as [ms|] eqn:Hms; [|by intros [= <- _]].
  destruct (if decide (mi < 0) then None else ms !! Z.to_nat mi) as [m|] eqn:Hm;
    [|by intros [= <- _]].
  destruct (Part003.canLayOffCard (at_index hand i) m) as [[|]|] eqn:Hcan;
    [|by intros [= <- _]|done].
  cbv zeta.
  destruct (prop display (at_index hand i)) eqn:Hdisp; [|done].
  destruct (decide (length (splice1 hand i).2 = 0%nat)) as [Hempty|Hempty];
    [|intros [= <- <-]; done].
  match goal with
  | |- context [Part003.validatePlayerMeetsRoundRequirements ?g1 p] =>
      destruct (Part003.validatePlayerMeetsRoundRequirements g1 p) as [[|]|] eqn:Hval2
  end.
  - destruct (Part003.endRound _ _ _) as [g2 [res|]]; [|done].
    intros [= <- <-]. done.
  - intros [= <- _].
    unfold Part003.setMelds, Part003.setHand, Part003.withPlayerMelds,
      Part003.withPlayerHands.
    cbn [Part003.players Part003.playerHands Part003.playerMelds Part003.playerBuys
         Part003.playerScores Part003.currentRound Part003.currentPlayerIndex
         Part003.deck Part003.discardPile Part003.hasDrawn Part003.gameStarted
         type cards].
    apply Part003_game_eq; [| |done].
    + rewrite insert_insert_eq. apply insert_id.
      pose proof (spliceIn_splice1 hand i ltac:(lia) ltac:(lia)) as Hsp.
      unfold splice1 in Hsp. cbn [snd] in Hsp. by rewrite Hsp.
    + rewrite insert_insert_eq. apply insert_id.
      rewrite list_insert_insert_eq, pop_push. cbn [snd].
      rewrite Hms. f_equal. symmetry. apply list_insert_id.
      destruct (decide (mi < 0)); [done|]. rewrite Hm. by destruct m.
  - done.
Qed.

(** C10.  In part_003 a [layOffCard] call that succeeds was made by the
    current player, whose melds satisfy the contract of the round, with a card
    of the hand that legally extends the target meld: the rank of a set, or the
    suit of a run and a value one below its lowest or one above its highest
    card.  A call that returns a failure, a refused go-out included, leaves the
    game as it was.  In part_001 the method reads an unbound variable, so no
    call succeeds, and a call that returns also leaves the game as it was. *)
Theorem layOffCard_guarded (pick : Random) (g : Part003.Game) (p : string) (i : Z)
    (tp : string) (mi : Z) (g' : Part003.Game) (r : Reply) :
  Part003.layOffCard pick g p i tp mi = (g', Normal r) →
  (success r = true →
     Part003.getCurrentPlayer g = Some p ∧
     meetsContract (Part003.currentRound g) (default [] (Part003.playerMelds g !! p)) ∧
     ∃ hand c ms m,
       Part003.playerHands g !! p = Some hand ∧ 0 <= i ∧ hand !! Z.to_nat i = Some (Some c) ∧
       Part003.playerMelds g !! tp = Some ms ∧ 0 <= mi ∧ ms !! Z.to_nat mi = Some m ∧
       legallyExtends c m) ∧
  (success r = false → g' = g) ∧
  (∀ g1 r1, Part001.layOffCard pick g p i tp mi = (g1, Normal r1) →
            success r1 = false ∧ g1 = g).
Proof.
  intros H. split; [|split].
  2: { by apply (layOffCard_refused_unchanged pick g p i tp mi g' r). }
  - intros Hok. revert H. unfold Part003.layOffCard.
    destruct (decide (Part003.getCurrentPlayer g ≠ Some p)) as [|Hcur];
      [intros [= _ <-]; done|].
    apply dec_stable in Hcur.
    destruct (Part003.validatePlayerMeetsRoundRequirements g p) as [[|]|] eqn:Hval;
      [|intros [= _ <-]; done|done].
    destruct (Part003.playerHands g !! p) as [hand|] eqn:Hhand; [|done].
    destruct (decide (i < 0 ∨ _)) as [|Hi]; [intros [= _ <-]; done|].
    destruct (Part003.playerMelds g !! tp) as [ms|] eqn:Hms; [|intros [= _ <-]; done].
    destruct (if decide (mi < 0) then None else ms !! Z.to_nat mi) as [m|] eqn:Hm;
      [|intros [= _ <-]; done].
    destruct (Part003.canLayOffCard (at_index hand i) m) as [[|]|] eqn:Hcan;
      [|intros [= _ <-]; done|done].
    cbv zeta.
    destruct (prop display (at_index hand i)) eqn:Hdisp; [|done].
    intros _. split; [done|]. split; [by apply validate_meetsContract|].
    apply canLayOffCard_legal in Hcan as [(c & Hc & Hlegal)|(Hc & _)];
      [|by rewrite Hc in Hdisp].
    exists hand, c, ms, m. split; [done|]. split; [lia|].
    unfold at_index in Hc. rewrite decide_True in Hc by lia.
    split; [by destruct (hand !! Z.to_nat i) as [[|]|]; simplify_eq/=|].
    split; [done|]. destruct (decide (mi < 0)); [done|]. split; [lia|]. by split.
  - intros g1 r1. unfold Part001.layOffCard. case_decide; [|done].
    by intros [= <- <-].
Qed.

Lemma layOffCard_guarded_witness :
  let g := Part003Games.goneDown in
  let g' := (Part003.layOffCard fixedPick g "A" 0 "A" 0).1 in
  let r := okCard (one spades R7) in
  (success r = true →
     Part003.getCurrentPlayer g = Some "A" ∧
     meetsContract (Part003.currentRound g) (default [] (Part003.playerMelds g !! "A")) ∧
     ∃ hand c ms m,
       Part003.playerHands g !! "A" = Some hand ∧ 0 <= 0 ∧
       hand !! Z.to_nat 0 = Some (Some c) ∧
       Part003.playerMelds g !! "A" = Some ms ∧ 0 <= 0 ∧ ms !! Z.to_nat 0 = Some m ∧
       legallyExtends c m) ∧
  (success r = false → g' = g) ∧
  (∀ g1 r1, Part001.layOffCard fixedPick g "A" 0 "A" 0 = (g1, Normal r1) →
            success r1 = false ∧ g1 = g).
Proof.
  apply (layOffCard_guarded fixedPick Part003Games.goneDown "A" 0 "A" 0).
  vm_compute. reflexivity.
Defined.

(** * The buy window *)

(** C9, server.js.  A discards; C asks to buy, then B (who plays right
    after A) asks too.  When the window closes the card and the penalty card
    go to C, whose request arrived first, and B gets nothing. *)
Theorem buy_goes_to_the_first_request_received :
  let g1 := (Server.discardCard fixedPick ServerGames.threeHumans "A" 0).1 in
  let g2 := Server.submitBuyRequest g1 "C" true in
  let g3 := Server.submitBuyRequest g2 "B" true in
  let '(g4, r) := Server.processBuyPhase g3 in
  r = Normal () ∧
  Server.BuyPhase.requests (Server.buyPhase g3) = [("C", true); ("B", true)] ∧
  Server.hand <$> Server.playerData g4 !! "C"
    = Some [one clubs R6; one spades R8; one spades RK; one spades R9] ∧
  Server.buys <$> Server.playerData g4 !! "C" = Some 2 ∧
  Server.hand <$> Server.playerData g4 !! "B" = Some [one hearts R4; one clubs R9] ∧
  Server.buys <$> Server.playerData g4 !! "B" = Some 3 ∧
  Server.getCurrentPlayer g4 = Some "B" ∧
  Server.buyPhase g4 = Server.BuyPhase.idle.
Proof. vm_compute. done. Qed.

(** * Scoring a round *)

(** The method of part_003 and the table of server.js give the same score
    values: 20 for an ace, 10 for J, Q and K, the face value otherwise. *)
Lemma getScoreValue_values (c : Card) :
  getScoreValue c = RANK_SCORES (rank c) ∧
  match rank c with
  | RA => getScoreValue c = 20
  | RJ | RQ | RK => getScoreValue c = 10
  | _ => getScoreValue c = value c
  end.
Proof. by destruct c as [s []]. Qed.

Lemma handScore_cards (cs : list Card) :
  Part003.handScore (Some (Some <$> cs)) = Normal (penalty cs).
Proof.
  unfold Part003.handScore, penalty, sumZ.
  assert (H : ∀ a, reduceC (fun sum c => v ← prop getScoreValue c; Normal (sum + v))
                     (Some <$> cs) a = Normal (a + foldr Z.add 0 (getScoreValue <$> cs))).
  { induction cs as [|c cs IH]; intros a; simpl; [f_equal; lia|].
    rewrite IH. f_equal. symmetry. apply Z.add_assoc. }
  rewrite H. f_equal.
Qed.

Lemma dealRound_playerScores (pick : Random) (g : Part003.Game) :
  Part003.playerScores (Part003.dealRound pick g) = Part003.playerScores g.
Proof.
  unfold Part003.dealRound. destruct (Nat.iter _ _ _) as [hs d].
  by destruct (Deck.deal d).
Qed.

Lemma scorePlayers_spec (w : string) (todo : list string) (g : Part003.Game) :
  NoDup todo →
  (∀ p, p ∈ todo → ∃ cs sc, Part003.playerHands g !! p = Some (Some <$> cs) ∧
                             Part003.playerScores g !! p = Some sc) →
  ∃ g', Part003.scorePlayers w todo g = (g', Normal ()) ∧
        Part003.players g' = Part003.players g ∧
        Part003.currentRound g' = Part003.currentRound g ∧
        Part003.playerHands g' = Part003.playerHands g ∧
        (∀ p, p ∉ todo → Part003.playerScores g' !! p = Part003.playerScores g !! p) ∧
        (∀ p cs sc, p ∈ todo →
           Part003.playerHands g !! p = Some (Some <$> cs) →
           Part003.playerScores g !! p = Some sc →
           Part003.playerScores g' !! p
           = Some (setScore sc (Part003.currentRound g)
                     (if decide (p = w) then 0 else penalty cs))).
Proof.
  revert g. induction todo as [|q todo IH]; intros g Hnd Hdom.
  - exists g. repeat split; try done. intros p cs sc Hp. by apply elem_of_nil in Hp.
  - apply NoDup_cons in Hnd as [Hq Hnd].
    destruct (Hdom q) as (cs & sc & Hcs & Hsc); [by left|].
    cbn [Part003.scorePlayers]. rewrite Hcs, Hsc, handScore_cards.
    set (v := if decide (q = w) then 0 else penalty cs).
    assert (Hscore : (if decide (q ≠ w) then Normal (penalty cs) else Normal 0) = Normal v).
    { unfold v. destruct (decide (q = w)); [by rewrite decide_False by tauto|].
      by rewrite decide_True. }
    rewrite Hscore.
    set (g1 := Part003.withPlayerScores _ g).
    destruct (IH g1) as (g' & Heq & Hps & Hr & Hh & Hother & Hin); [done| |].
    { intros p Hp. destruct (Hdom p) as (cs' & sc' & Hcs' & Hsc'); [by right|].
      exists cs'. unfold g1. simpl. destruct (decide (p = q)) as [->|].
      - rewrite lookup_insert_eq. eauto.
      - rewrite lookup_insert_ne by done. eauto. }
    exists g'. split; [exact Heq|]. split; [by rewrite Hps|]. split; [by rewrite Hr|].
    split; [by rewrite Hh|]. split.
    + intros p [Hne Hp]%not_elem_of_cons. rewrite Hother by done.
      unfold g1. simpl. by rewrite lookup_insert_ne.
    + intros p cs' sc' Hp Hcs' Hsc'. apply elem_of_cons in Hp as [->|Hp].
      * rewrite Hother by done. unfold g1. simpl. rewrite lookup_insert_eq.
        by simplify_eq.
      * assert (p ≠ q) by (by intros ->).
        rewrite (Hin p cs' sc'); [done|done|done|].
        unfold g1. simpl. by rewrite lookup_insert_ne.
Qed.

(** Part_003 records the round's scores (C6): 0 for the winner, and for
    every other player the sum of the score values of the cards in hand. *)
Lemma Part003_endRound_scores (pick : Random) (g : Part003.Game) (w : string) :
  NoDup (Part003.players g) →
  (∀ p, p ∈ Part003.players g →
        ∃ cs sc, Part003.playerHands g !! p = Some (Some <$> cs) ∧
                 Part003.playerScores g !! p = Some sc) →
  ∀ p cs sc, p ∈ Part003.players g →
    Part003.playerHands g !! p = Some (Some <$> cs) →
    Part003.playerScores g !! p = Some sc →
    Part003.playerScores (Part003.endRound pick g w).1 !! p
    = Some (setScore sc (Part003.currentRound g) (if decide (p = w) then 0 else penalty cs)).
Proof.
  intros Hnd Hdom p cs sc Hp Hcs Hsc. unfold Part003.endRound.
  destruct (scorePlayers_spec w (Part003.players g) g) as (g' & Heq & _ & _ & _ & _ & Hin);
    [done|done|].
  rewrite Heq. case_decide.
  - simpl. by apply Hin.
  - cbn [fst]. rewrite dealRound_playerScores. simpl. by apply Hin.
Qed.

(** On a 7-slot array the score goes to index [currentRound - 1]. *)
Lemma setScore_slot (sc : list Z) (r : nat) (v : Z) :
  (1 <= r <= length sc)%nat → setScore sc r v = <[(r - 1)%nat := v]> sc.
Proof.
  intros H. destruct r as [|k]; [lia|]. unfold setScore, setAt.
  rewrite decide_True by lia. f_equal. lia.
Qed.

(** C6, server.js.  A goes out while B holds an ace, a king and a seven
    (37 points): [endRound] throws on B's first card, B's score for the
    round is never written and the round is not advanced. *)
Theorem server_endRound_throws_on_a_loser_with_cards :
  let '(g', r) := Server.endRound fixedPick ServerGames.roundOver "A" in
  r = Throw (TypeError "card.getScoreValue is not a function") ∧
  Server.scores <$> Server.playerData g' !! "B" = Some [0; 0; 0; 0; 0; 0; 0] ∧
  Server.currentRound g' = 1%nat.
Proof. vm_compute. done. Qed.

(** * Final standings *)

Lemma total_sumZ (sc : list Z) : total sc = sumZ sc.
Proof.
  unfold total, sumZ.
  assert (H : ∀ a, foldl Z.add a sc = a + foldr Z.add 0 sc); [|by rewrite H].
  induction sc as [|x sc IH]; intros a; simpl; [lia|]. rewrite IH. lia.
Qed.

Lemma mapSet_keys {V} (m : list (string * V)) (k : string) (v : V) :
  (mapSet m k v).*1 = if decide (k ∈ m.*1) then m.*1 else m.*1 ++ [k].
Proof.
  induction m as [|[k' v'] m IH].
  - by rewrite decide_False by apply not_elem_of_nil.
  - cbn [mapSet]. destruct (decide (k' = k)) as [->|Hne].
    + rewrite !fmap_cons. cbn [fst]. by rewrite decide_True by (by left).
    + rewrite !fmap_cons, IH. cbn [fst]. destruct (decide (k ∈ m.*1)).
      * by rewrite decide_True by (by right).
      * rewrite decide_False; [done|]. intros [?|?]%elem_of_cons; congruence.
Qed.

Lemma mapSet_keys_NoDup {V} (m : list (string * V)) (k : string) (v : V) :
  NoDup (m.*1) → NoDup ((mapSet m k v).*1).
Proof.
  intros H. rewrite mapSet_keys. case_decide; [done|].
  apply NoDup_app. split; [done|]. split; [|apply NoDup_singleton].
  intros x Hx ->%list_elem_of_singleton. done.
Qed.

Lemma elem_of_mapSet {V} (m : list (string * V)) (k k' : string) (v v' : V) :
  NoDup (m.*1) →
  (k', v') ∈ mapSet m k v ↔ (k' = k ∧ v' = v) ∨ (k' ≠ k ∧ (k', v') ∈ m).
Proof.
  induction m as [|[k0 v0] m IH]; intros Hnd; simpl.
  - rewrite list_elem_of_singleton. split.
    + intros [= -> ->]. by left.
    + intros [[-> ->]|[_ H]]; [done|by apply elem_of_nil in H].
  - apply NoDup_cons in Hnd as [Hk0 Hnd].
    destruct (decide (k0 = k)) as [->|Hne].
    + rewrite !elem_of_cons. split.
      * intros [[= -> ->]|H]; [by left|]. right. split; [|by right].
        intros ->. apply Hk0. apply list_elem_of_fmap. by exists (k, v').
      * intros [[-> ->]|[Hne [[= ? ?]|H]]]; [by left|done|by right].
    + rewrite !elem_of_cons, IH by done. split.
      * intros [[= -> ->]|[[-> ->]|[? ?]]]; [right; split; [done|by left]|by left|].
        right. split; [done|by right].
      * intros [[-> ->]|[? [[= -> ->]|?]]]; [right; by left|by left|right; right; by split].
Qed.

Section standings.
Context (look : string → option (list Z)).
Context (f : list (string * Z) → string → Completion (list (string * Z))).
Hypothesis f_spec : ∀ m p,
  f m p = match look p with
          | None => typeErrorUndefined
          | Some sc => Normal (mapSet m p (total sc))
          end.

Lemma finalScores_spec (ps : list string) (m : list (string * Z)) :
  NoDup (m.*1) →
  (∀ p, p ∈ ps → is_Some (look p)) →
  ∃ m', reduceC f ps m = Normal m' ∧
        NoDup (m'.*1) ∧
        ∀ p t, (p, t) ∈ m' ↔
               (p ∈ ps ∧ ∃ sc, look p = Some sc ∧ t = sumZ sc) ∨ ((p ∉ ps) ∧ (p, t) ∈ m).
Proof.
  revert m. induction ps as [|q ps IH]; intros m Hnd Hdom.
  - exists m. split; [done|]. split; [done|]. intros p t. split.
    + intros H. right. split; [apply not_elem_of_nil|done].
    + intros [[H _]|[_ H]]; [by apply elem_of_nil in H|done].
  - destruct (Hdom q) as [sc Hsc]; [by left|].
    simpl. rewrite f_spec, Hsc.
    destruct (IH (mapSet m q (total sc))) as (m' & Heq & Hnd' & Hin).
    { by apply mapSet_keys_NoDup. }
    { intros p Hp. apply Hdom. by right. }
    exists m'. split; [exact Heq|]. split; [done|].
    intros p t. rewrite Hin, elem_of_mapSet by done. rewrite total_sumZ. split.
    + intros [[Hp H]|[Hp [[-> ->]|[Hne H]]]].
      * left. split; [by right|done].
      * left. split; [by left|]. by exists sc.
      * right. split; [|done]. by intros [?|?]%elem_of_cons.
    + intros [[Hp (sc' & Hsc' & ->)]|[Hp H]].
      * destruct (decide (p ∈ ps)) as [Hin'|Hnin]; [left; split; [done|by exists sc']|].
        apply elem_of_cons in Hp as [->|?]; [|done].
        right. split; [done|]. left. split; [done|]. congruence.
      * apply not_elem_of_cons in Hp as [Hne Hp]. right. split; [done|]. by right.
Qed.

(** What [endGame] computes from the score arrays [look] of the roster. *)
Lemma standings_spec (ps : list string) :
  ps ≠ [] →
  (∀ p, p ∈ ps → is_Some (look p)) →
  ∃ res,
    (finalScores ← reduceC f ps [];
     match sortBy (fun a b => bool_decide (a.2 <= b.2)) finalScores with
     | [] => typeErrorUndefined
     | first :: _ => Normal (mkFinal first.1 first.2
                               (sortBy (fun a b => bool_decide (a.2 <= b.2)) finalScores))
     end) = Normal res ∧
    standings look ps res.
Proof.
  intros Hne Hdom.
  destruct (finalScores_spec ps []) as (m & Heq & Hnd & Hin); [constructor|done|].
  rewrite Heq. change (Normal m ≫= ?k) with (k m). cbv beta.
  set (sorted := sortBy _ m).
  assert (Hperm : sorted ≡ₚ m) by apply sortBy_Permutation.
  assert (Hsorted : Sorted (fun a b : string * Z => a.2 <= b.2) sorted).
  { rewrite <-(list_fmap_id sorted). eapply (Sorted_fmap id); [|apply sortBy_Sorted].
    - intros a b H. by apply bool_decide_eq_true in H.
    - intros a b. rewrite !bool_decide_eq_true. lia. }
  assert (Hmem : ∀ p t, (p, t) ∈ sorted ↔ p ∈ ps ∧ ∃ sc, look p = Some sc ∧ t = sumZ sc).
  { intros p t. rewrite Hperm, Hin. split; [|by left].
    intros [?|[_ H]]; [done|by apply elem_of_nil in H]. }
  assert (Hkeys : NoDup (sorted.*1)) by (by rewrite Hperm).
  destruct sorted as [|first rest] eqn:Hs.
  { destruct ps as [|p ps]; [done|]. destruct (Hdom p) as [sc Hsc]; [by left|].
    assert ((p, sumZ sc) ∈ @nil (string * Z)) as H; [|by apply elem_of_nil in H].
    apply Hmem. split; [by left|by exists sc]. }
  eexists. split; [done|]. unfold standings. simpl.
  split; [exact Hmem|]. split; [exact Hkeys|]. split; [done|].
  split; [by destruct first|].
  intros p t [Heq'|Hin']%elem_of_cons; [subst first; simpl; lia|].
  apply Sorted_StronglySorted in Hsorted; [|intros ???; lia].
  apply StronglySorted_cons in Hsorted as [Hall _].
  rewrite Forall_forall in Hall. by apply (Hall (p, t)).
Qed.
End standings.

(** C8.  When the roster is not empty and every player has a score array,
    [endGame] gives every player the sum of the entries of that array, lists
    the players once each in ascending order of total, and declares the
    first of them, whose total is the minimum, the winner; in part_003 and
    in server.js. *)
Theorem endGame_lowest_total_wins (g : Part003.Game) (s : Server.Game) :
  Part003.players g ≠ [] →
  (∀ p, p ∈ Part003.players g → is_Some (Part003.playerScores g !! p)) →
  Server.players s ≠ [] →
  (∀ p, p ∈ Server.players s → is_Some (Server.playerData s !! p)) →
  (∃ res, Part003.endGame g = Normal res ∧
          standings (fun p => Part003.playerScores g !! p) (Part003.players g) res) ∧
  (∃ res, Server.endGame s = Normal res ∧
          standings (fun p => Server.scores <$> Server.playerData s !! p)
            (Server.players s) res).
Proof.
  intros Hg Hgdom Hs Hsdom. split.
  - apply standings_spec; [done|done|done].
  - apply standings_spec; [|done|].
    + intros m p. by destruct (Server.playerData s !! p).
    + intros p Hp. destruct (Hsdom p Hp) as [d ->]. by eexists.
Qed.

Lemma endGame_lowest_total_wins_witness :
  (∃ res, Part003.endGame Part003Games.finished = Normal res ∧
          standings (fun p => Part003.playerScores Part003Games.finished !! p)
            ["A"; "B"; "C"] res) ∧
  (∃ res, Server.endGame ServerGames.finished = Normal res ∧
          standings (fun p => Server.scores <$> Server.playerData ServerGames.finished !! p)
            ["A"; "B"; "C"] res).
Proof.
  apply (endGame_lowest_total_wins Part003Games.finished ServerGames.finished).
  - done.
  - intros p Hp. apply (bool_decide_unpack _).
    apply list_elem_of_In in Hp. simpl in Hp. by destruct Hp as [<-|[<-|[<-|[]]]]; vm_compute.
  - done.
  - intros p Hp. apply (bool_decide_unpack _).
    apply list_elem_of_In in Hp. simpl in Hp. by destruct Hp as [<-|[<-|[<-|[]]]]; vm_compute.
Defined.

(** * Conservation of cards

    The cards on the table are those of the hands, the melds, the discard
    pile and the stock.  In part_003 a call that returns and does not end the
    round keeps them, up to order, when the indices it is given are distinct
    and inside the hand. *)

(** Replacing the array under one key of a map moves cards between that
    array and the rest of the table. *)
Lemma gather_put {V} (F : V → list slot) (ps : list string) (m : gmap string V)
    (p : string) (v' : V) (a b : list slot) :
  NoDup ps → p ∈ ps →
  from_option F [] (m !! p) ++ b ≡ₚ F v' ++ a →
  (ps ≫= fun q => from_option F [] (m !! q)) ++ b
  ≡ₚ (ps ≫= fun q => from_option F [] (<[p := v']> m !! q)) ++ a.
Proof.
  intros Hnd Hp Hmove.
  induction Hnd as [|q qs Hq Hnd IH]; [by apply elem_of_nil in Hp|].
  rewrite !bind_cons. destruct (decide (p = q)) as [->|Hne].
  - rewrite lookup_insert_eq. simpl.
    rewrite (Forall_bind_ext (fun q0 => from_option F [] (<[q:=v']> m !! q0))
               (fun q0 => from_option F [] (m !! q0)) qs); last first.
    { apply Forall_forall. intros x Hx. rewrite lookup_insert_ne; [done|]. by intros ->. }
    rewrite <-!app_assoc.
    rewrite (Permutation_app_comm (qs ≫= _) b), (Permutation_app_comm (qs ≫= _) a).
    by rewrite !app_assoc, Hmove.
  - rewrite lookup_insert_ne by done. rewrite <-!app_assoc. f_equiv. apply IH.
    apply elem_of_cons in Hp as [?|?]; done.
Qed.

(** The case of a key that is present. *)
Lemma gather_move {V} (F : V → list slot) (ps : list string) (m : gmap string V)
    (p : string) (v v' : V) (a b : list slot) :
  NoDup ps → p ∈ ps → m !! p = Some v →
  F v ++ b ≡ₚ F v' ++ a →
  (ps ≫= fun q => from_option F [] (m !! q)) ++ b
  ≡ₚ (ps ≫= fun q => from_option F [] (<[p := v']> m !! q)) ++ a.
Proof. intros Hnd Hp Hv Hmove. apply gather_put; [done..|]. by rewrite Hv. Qed.

(** The melded cards, player by player. *)
Lemma meldCards_gather (g : Part003.Game) :
  Part003.meldCards g
  = Part003.players g ≫= fun q =>
      from_option (fun ms : list Meld => ms ≫= cards) [] (Part003.playerMelds g !! q).
Proof.
  unfold Part003.meldCards. apply list_bind_ext; [|done].
  intros q. by destruct (Part003.playerMelds g !! q).
Qed.

(** Taking the element at an index out of an array. *)
Lemma splice1_Permutation (arr : list slot) (i : Z) :
  0 <= i → i < Z.of_nat (length arr) →
  arr ≡ₚ (splice1 arr i).1 :: (splice1 arr i).2.
Proof.
  intros H0 Hlt. unfold splice1. rewrite spliceStart_in_range by done. simpl.
  destruct (lookup_lt_is_Some_2 arr (Z.to_nat i)) as [x Hx]; [lia|].
  rewrite Hx. simpl. by apply delete_Permutation.
Qed.

(** [splice(i, 1)[0]] is [arr[i]] inside the array. *)
Lemma splice1_at_index (arr : list slot) (i : Z) :
  0 <= i → i < Z.of_nat (length arr) → (splice1 arr i).1 = at_index arr i.
Proof.
  intros H0 Hlt. unfold splice1, at_index. rewrite spliceStart_in_range by done.
  by rewrite decide_True by done.
Qed.

(** The run candidate of [validateMeld] is sorted in place: the array holds
    the same cards afterwards. *)
Lemma sortByValue_Permutation (cs : list slot) : sortByValue cs ≡ₚ cs.
Proof.
  unfold sortByValue. rewrite sortBy_Permutation.
  induction cs as [|[c|] cs IH]; [done|..].
  - rewrite filter_cons_False by done. simpl. by f_equiv.
  - rewrite filter_cons_True by done. simpl. rewrite <-Permutation_middle. by f_equiv.
Qed.

(** [validateMeld] only reorders the array it is given. *)
Lemma validateMeld_Permutation (cs cs' : list slot) (meldType : string)
    (r : Completion bool) :
  Part003.validateMeld cs meldType = (cs', r) → cs' ≡ₚ cs.
Proof.
  unfold Part003.validateMeld. repeat case_decide; try by intros [= <- _].
  destruct (every _ cs) as [[|]|]; intros [= <- _]; [|done..].
  apply sortByValue_Permutation.
Qed.

(** Distinct indices sorted by [b - a] are strictly descending. *)
Lemma sortDescending_strict (indices : list Z) :
  NoDup indices → StronglySorted (fun a b => b < a) (sortDescending indices).
Proof.
  intros Hnd.
  assert (Hs : StronglySorted (fun a b => b <= a) (sortDescending indices)).
  { apply Sorted_StronglySorted; [intros a b c; lia|].
    unfold sortDescending. rewrite <-(list_fmap_id (sortBy _ indices)).
    eapply (Sorted_fmap id); [|apply sortBy_Sorted].
    - intros a b H. by apply bool_decide_eq_true in H.
    - intros a b. rewrite !bool_decide_eq_true. lia. }
  assert (Hnd' : NoDup (sortDescending indices)).
  { unfold sortDescending. by rewrite sortBy_Permutation. }
  induction Hs as [|x l Hs IH Hall]; [constructor|].
  apply NoDup_cons in Hnd' as [Hx Hnd']. constructor; [by apply IH|].
  rewrite Forall_forall in Hall |- *. intros y Hy. specialize (Hall y Hy).
  assert (y ≠ x) by (by intros ->). lia.
Qed.

(** Splicing out strictly descending indices of the array removes exactly
    the elements that were at those indices. *)
Lemma removeAll_Permutation (hand : list slot) (sorted : list Z) :
  StronglySorted (fun a b => b < a) sorted →
  Forall (fun i => 0 <= i < Z.of_nat (length hand)) sorted →
  removeAll hand sorted ++ (at_index hand <$> sorted) ≡ₚ hand.
Proof.
  intros Hs. revert hand.
  induction Hs as [|i l Hs IH Hall]; intros hand Hrange.
  { simpl. by rewrite app_nil_r. }
  apply Forall_cons in Hrange as [Hi Hrange].
  change (removeAll hand (i :: l)) with (removeAll (splice1 hand i).2 l).
  rewrite fmap_cons, <-Permutation_middle.
  etrans; [|symmetry; apply (splice1_Permutation hand i); lia].
  rewrite (splice1_at_index hand i) by lia. apply Permutation_skip.
  assert (Hbelow : at_index hand <$> l = at_index (splice1 hand i).2 <$> l).
  { apply Forall_fmap_ext. rewrite Forall_forall in Hall, Hrange |- *.
    intros j Hj. specialize (Hall j Hj). specialize (Hrange j Hj).
    unfold splice1, at_index. rewrite spliceStart_in_range by lia. cbn [snd].
    rewrite !decide_True by lia. by rewrite list_lookup_delete_lt by lia. }
  rewrite Hbelow. apply IH.
  unfold splice1. rewrite spliceStart_in_range by lia. cbn [snd].
  rewrite Forall_forall in Hall, Hrange |- *. intros j Hj.
  specialize (Hall j Hj). specialize (Hrange j Hj).
  rewrite length_delete by (apply lookup_lt_is_Some_2; lia). lia.
Qed.

(** ** The operations of a turn *)

Section conservation.
Context (g : Part003.Game) (p : string).
Hypothesis roster : NoDup (Part003.players g).
Hypothesis seated : p ∈ Part003.players g.

(** A change to the hand of [p] and to the piles that moves no card off the
    table. *)
Lemma table_after_hand_change (hand hand' : list slot) (g' : Part003.Game) :
  Part003.playerHands g !! p = Some hand →
  Part003.players g' = Part003.players g →
  Part003.playerHands g' = <[p := hand']> (Part003.playerHands g) →
  Part003.playerMelds g' = Part003.playerMelds g →
  hand' ++ Part003.discardPile g' ++ Part003.deck g'
    ≡ₚ hand ++ Part003.discardPile g ++ Part003.deck g →
  Part003.tableCards g' ≡ₚ Part003.tableCards g.
Proof.
  intros Hhand Hps Hhs Hms Hmove.
  unfold Part003.tableCards, Part003.handCards. rewrite !meldCards_gather.
  rewrite Hps, Hhs, Hms.
  etrans; [apply Permutation_app_swap_app|].
  symmetry. etrans; [apply Permutation_app_swap_app|].
  f_equiv. by apply (gather_move id _ _ p hand hand').
Qed.

(** The same when the meld list of [tp] changes too, or is created. *)
Lemma table_after_change (tp : string) (hand hand' : list slot) (ms ms' : list Meld)
    (g' : Part003.Game) :
  tp ∈ Part003.players g →
  Part003.playerHands g !! p = Some hand →
  default [] (Part003.playerMelds g !! tp) = ms →
  Part003.players g' = Part003.players g →
  Part003.playerHands g' = <[p := hand']> (Part003.playerHands g) →
  Part003.playerMelds g' = <[tp := ms']> (Part003.playerMelds g) →
  hand' ++ (ms' ≫= cards) ++ Part003.discardPile g' ++ Part003.deck g'
    ≡ₚ hand ++ (ms ≫= cards) ++ Part003.discardPile g ++ Part003.deck g →
  Part003.tableCards g' ≡ₚ Part003.tableCards g.
Proof.
  intros Htp Hhand Hmelds Hps Hhs Hms Hmove.
  unfold Part003.tableCards, Part003.handCards. rewrite !meldCards_gather.
  rewrite Hps, Hhs, Hms.
  etrans; [apply Permutation_app_swap_app|].
  symmetry. etrans; [apply Permutation_app_swap_app|].
  apply (gather_put (fun ms0 : list Meld => ms0 ≫= cards) _ _ tp ms'); [done..|].
  replace (from_option (fun ms0 : list Meld => ms0 ≫= cards) [] (Part003.playerMelds g !! tp))
    with (ms ≫= cards) by (rewrite <-Hmelds; by destruct (Part003.playerMelds g !! tp)).
  etrans; [apply Permutation_app_swap_app|].
  symmetry. etrans; [apply Permutation_app_swap_app|]. symmetry.
  apply (gather_move id _ _ p hand hand'); [done..|].
  simpl. by rewrite Hmove.
Qed.

(** X17.  In part_003 [drawCard] by a seated player keeps the cards of the
    table, whatever it answers.  Drawing moves the top of the stock to the
    hand, after the discard pile below its top card has been shuffled into
    an empty stock. *)
Lemma drawCard_conserves (pick : Random) (g' : Part003.Game) (r : Reply) :
  Part003.drawCard pick g p = (g', Normal r) →
  Part003.tableCards g' ≡ₚ Part003.tableCards g.
Proof.
  unfold Part003.drawCard.
  destruct (decide _); [by intros [= <- _]|].
  destruct (Deck.isEmpty (Part003.deck g)) eqn:Hempty.
  - apply bool_decide_eq_true in Hempty. apply nil_length_inv in Hempty.
    destruct (decide (length (Part003.discardPile g) <= 1)%nat) as [|Hlen];
      [by intros [= <- _]|].
    pose proof (pop_nonempty (Part003.discardPile g) ltac:(lia)) as Hpile.
    destruct (pop (Part003.discardPile g)) as [top rest]. simpl in Hpile.
    assert (Hrest : (0 < length rest)%nat).
    { rewrite Hpile in Hlen. unfold push in Hlen. rewrite length_app in Hlen.
      simpl in Hlen. lia. }
    destruct (deal_nonempty (Deck.shuffle pick rest)) as (d & c & Hd & Hdeal).
    { by rewrite shuffle_Permutation. }
    cbn [Part003.deck Part003.withDiscardPile Part003.withDeck]. rewrite Hdeal.
    unfold Part003.pushToHand.
    cbn [Part003.playerHands Part003.withDiscardPile Part003.withDeck].
    destruct (Part003.playerHands g !! p) as [hand|] eqn:Hhand; [|done].
    intros [= <- _]. eapply (table_after_hand_change hand (push hand c)); [done..|].
    simpl. rewrite Hempty.
    assert (Hsh : d ++ [c] ≡ₚ rest) by (by rewrite <-Hd, shuffle_Permutation).
    rewrite Hpile. unfold push. rewrite <-Hsh. solve_Permutation.
  - apply bool_decide_eq_false in Hempty.
    destruct (deal_nonempty (Part003.deck g)) as (d & c & Hd & Hdeal).
    { destruct (Part003.deck g); [done|simpl; lia]. }
    rewrite Hdeal. unfold Part003.pushToHand.
    cbn [Part003.playerHands Part003.withDeck].
    destruct (Part003.playerHands g !! p) as [hand|] eqn:Hhand; [|done].
    intros [= <- _]. eapply (table_after_hand_change hand (push hand c)); [done..|].
    simpl. rewrite Hd. unfold push. solve_Permutation.
Qed.

(** X18.  In part_003 [pickUpDiscard] by a seated player keeps the cards
    of the table, whatever it answers: picking up moves the top discard to
    the hand. *)
Lemma pickUpDiscard_conserves (g' : Part003.Game) (r : Reply) :
  Part003.pickUpDiscard g p = (g', Normal r) →
  Part003.tableCards g' ≡ₚ Part003.tableCards g.
Proof.
  unfold Part003.pickUpDiscard.
  destruct (decide _); [by intros [= <- _]|].
  destruct (decide (length (Part003.discardPile g) = 0%nat)) as [|Hlen];
    [by intros [= <- _]|].
  pose proof (pop_nonempty (Part003.discardPile g) ltac:(lia)) as Hpile.
  destruct (pop (Part003.discardPile g)) as [c pile]. simpl in Hpile.
  unfold Part003.pushToHand. cbn [Part003.playerHands Part003.withDiscardPile].
  destruct (Part003.playerHands g !! p) as [hand|] eqn:Hhand; [|done].
  intros [= <- _]. eapply (table_after_hand_change hand (push hand c)); [done..|].
  simpl. rewrite Hpile. unfold push. solve_Permutation.
Qed.

(** X19.  In part_003 a [discardCard] by a seated player that does not
    end the round keeps the cards of the table.  Discarding moves a card of
    the hand to the discard pile; a refused go-out puts it back. *)
Lemma discardCard_conserves (pick : Random) (cardIndex : Z) (g' : Part003.Game) (r : Reply) :
  Part003.discardCard pick g p cardIndex = (g', Normal r) →
  roundResult r = None →
  Part003.tableCards g' ≡ₚ Part003.tableCards g.
Proof.
  unfold Part003.discardCard.
  destruct (decide _); [by intros [= <- _]|].
  destruct (Part003.playerHands g !! p) as [hand|] eqn:Hhand; [|done].
  destruct (decide _) as [|Hrange]; [by intros [= <- _]|].
  pose proof (splice1_Permutation hand cardIndex ltac:(lia) ltac:(lia)) as Hsplice.
  destruct (splice1 hand cardIndex) as [x hand1]. simpl in Hsplice.
  destruct (decide (length hand1 = 0%nat)).
  - destruct (Part003.validatePlayerMeetsRoundRequirements _ p) as [[|]|]; [| |done].
    + destruct (Part003.endRound _ _ _) as [g2 [res|]]; [|done]. by intros [= _ <-].
    + intros [= <- _] _. eapply (table_after_hand_change hand (push hand1 x)).
      * done.
      * done.
      * simpl. by rewrite insert_insert_eq.
      * done.
      * simpl. rewrite pop_push. simpl. unfold push. rewrite Hsplice. solve_Permutation.
  - intros [= <- _] _. eapply (table_after_hand_change hand hand1); [done..|].
    simpl. unfold push. rewrite Hsplice. solve_Permutation.
Qed.

(** X20.  In part_003 [buyCard] by a seated player keeps the cards of the
    table, whatever it answers.  Buying moves the top discard and a penalty
    card from the stock to the hand of the buyer. *)
Lemma buyCard_conserves (pick : Random) (g' : Part003.Game) (r : Reply) :
  Part003.buyCard pick g p = (g', Normal r) →
  Part003.tableCards g' ≡ₚ Part003.tableCards g.
Proof.
  unfold Part003.buyCard.
  destruct (decide _); [by intros [= <- _]|].
  destruct (decide (length (Part003.discardPile g) = 0%nat)) as [|Hlen];
    [by intros [= <- _]|].
  pose proof (pop_nonempty (Part003.discardPile g) ltac:(lia)) as Hpile.
  destruct (pop (Part003.discardPile g)) as [c pile]. simpl in Hpile.
  unfold Part003.pushToHand. cbn [Part003.playerHands Part003.withDiscardPile].
  destruct (Part003.playerHands g !! p) as [hand|] eqn:Hhand; [|done].
  cbn [Part003.deck Part003.discardPile Part003.setHand Part003.withPlayerHands
       Part003.withDiscardPile].
  destruct (Deck.isEmpty (Part003.deck g)) eqn:Hempty.
  - apply bool_decide_eq_true in Hempty. apply nil_length_inv in Hempty.
    destruct (decide (0 < length pile)%nat) as [Hrest|Hrest]; last first.
    { intros [= <- _]. eapply (table_after_hand_change hand (push hand c)); [done..|].
      simpl. rewrite Hpile. unfold push. solve_Permutation. }
    destruct (deal_nonempty (Deck.shuffle pick pile)) as (d & x & Hd & Hdeal).
    { by rewrite shuffle_Permutation. }
    cbn [Part003.deck Part003.playerHands Part003.withDiscardPile Part003.withDeck
         Part003.withPlayerHands]. rewrite Hdeal.
    cbn [Part003.playerHands Part003.withDiscardPile Part003.withDeck
         Part003.withPlayerHands Part003.setHand].
    rewrite lookup_insert_eq.
    intros [= <- _]. eapply (table_after_hand_change hand (push (push hand c) x)).
    + done.
    + done.
    + simpl. by rewrite insert_insert_eq.
    + done.
    + simpl. rewrite Hpile, Hempty.
      assert (Hsh : d ++ [x] ≡ₚ pile) by (by rewrite <-Hd, shuffle_Permutation).
      unfold push. rewrite <-Hsh. solve_Permutation.
  - apply bool_decide_eq_false in Hempty.
    destruct (deal_nonempty (Part003.deck g)) as (d & x & Hd & Hdeal).
    { destruct (Part003.deck g); [done|simpl; lia]. }
    cbn [Part003.deck Part003.setHand Part003.withPlayerHands Part003.withDiscardPile].
    rewrite Hdeal.
    cbn [Part003.playerHands Part003.withDiscardPile Part003.withDeck
         Part003.withPlayerHands Part003.setHand].
    rewrite lookup_insert_eq.
    intros [= <- _]. eapply (table_after_hand_change hand (push (push hand c) x)).
    + done.
    + done.
    + simpl. by rewrite insert_insert_eq.
    + done.
    + simpl. rewrite Hpile, Hd. unfold push. solve_Permutation.
Qed.

(** X21.  In part_003 a [layOffCard] by a seated player on a meld of a
    seated player that does not end the round keeps the cards of the table:
    laying off moves a card of the hand to a meld on the table. *)
Lemma layOffCard_conserves (pick : Random) (cardIndex : Z) (tp : string) (meldIndex : Z)
    (g' : Part003.Game) (r : Reply) :
  tp ∈ Part003.players g →
  Part003.layOffCard pick g p cardIndex tp meldIndex = (g', Normal r) →
  roundResult r = None →
  Part003.tableCards g' ≡ₚ Part003.tableCards g.
Proof.
  intros Htp H Hnone.
  destruct (success r) eqn:Hok; last first.
  { by rewrite (layOffCard_refused_unchanged _ _ _ _ _ _ _ _ H Hok). }
  revert H. unfold Part003.layOffCard.
  destruct (decide (Part003.getCurrentPlayer g ≠ Some p)); [by intros [= _ <-]|].
  destruct (Part003.validatePlayerMeetsRoundRequirements g p) as [[|]|];
    [|by intros [= _ <-]|done].
  destruct (Part003.playerHands g !! p) as [hand|] eqn:Hhand; [|done].
  destruct (decide (cardIndex < 0 ∨ _)) as [|Hrange]; [by intros [= _ <-]|].
  destruct (Part003.playerMelds g !! tp) as [ms|] eqn:Hms; [|by intros [= _ <-]].
  destruct (decide (meldIndex < 0)) as [|Hmi]; [by intros [= _ <-]|].
  destruct (ms !! Z.to_nat meldIndex) as [m|] eqn:Hm; [|by intros [= _ <-]].
  destruct (Part003.canLayOffCard _ m) as [[|]|]; [|by intros [= _ <-]|done].
  cbv zeta. destruct (prop display _); [|done].
  pose proof (splice1_Permutation hand cardIndex ltac:(lia) ltac:(lia)) as Hsplice.
  rewrite splice1_at_index in Hsplice by lia.
  destruct (decide (length (splice1 hand cardIndex).2 = 0%nat)).
  - match goal with
    | |- context [Part003.validatePlayerMeetsRoundRequirements ?g1 p] =>
        destruct (Part003.validatePlayerMeetsRoundRequirements g1 p) as [[|]|]
    end; [| |done].
    + destruct (Part003.endRound _ _ _) as [g2 [res|]]; [|done].
      by intros [= _ <-].
    + intros [= _ Hr]. destruct (Part003.cannotGoOut _); by simplify_eq/=.
  - intros [= <- _].
    eapply (table_after_change tp hand (splice1 hand cardIndex).2 ms);
      [done|done|by rewrite Hms|done..|].
    cbn [Part003.discardPile Part003.deck Part003.setMelds Part003.setHand
         Part003.withPlayerMelds Part003.withPlayerHands].
    set (c := at_index hand cardIndex) in *.
    set (rest := (splice1 hand cardIndex).2) in *. clearbody c rest.
    rewrite Hsplice.
    rewrite insert_take_drop by (by eapply lookup_lt_Some).
    rewrite <-(take_drop_middle ms (Z.to_nat meldIndex) m Hm) at 3.
    rewrite !bind_app, !bind_cons. cbn [cards]. unfold push. solve_Permutation.
Qed.

(** X22.  In part_003 a [makeMeld] by a seated player with distinct
    indices inside the hand that does not end the round keeps the cards of
    the table.  Melding moves the cards at distinct indices of the hand to a
    new meld; this holds also for the meld that empties the hand and is
    answered with a failure. *)
Lemma makeMeld_conserves (pick : Random) (cardIndices : list Z) (meldType : string)
    (g' : Part003.Game) (r : Reply) :
  NoDup cardIndices →
  (∀ hand, Part003.playerHands g !! p = Some hand →
           Forall (fun i => 0 <= i < Z.of_nat (length hand)) cardIndices) →
  Part003.makeMeld pick g p cardIndices meldType = (g', Normal r) →
  roundResult r = None →
  Part003.tableCards g' ≡ₚ Part003.tableCards g.
Proof.
  intros Hnd Hrange H Hnone. revert H. unfold Part003.makeMeld, Part003.meldSelected.
  destruct (decide _); [by intros [= <- _]|].
  destruct (Part003.selectCards _ cardIndices) as [cs|] eqn:Hsel; [|done].
  destruct (Part003.validateMeld cs meldType) as [cs' [[|]|]] eqn:Hval;
    [|by intros [= <- _]|done].
  destruct (Part003.playerHands g !! p) as [hand|] eqn:Hhand; [|done].
  specialize (Hrange hand eq_refl).
  assert (Hcs : cs = at_index hand <$> cardIndices).
  { unfold Part003.selectCards in Hsel. destruct cardIndices; by simplify_eq/=. }
  cbv zeta.
  cbn [Part003.playerMelds Part003.setHand Part003.withPlayerHands].
  set (hand1 := removeAll hand (sortDescending cardIndices)).
  set (ms := Part003.playerMelds g !! p).
  assert (Hmove : hand1 ++ cs' ≡ₚ hand).
  { rewrite (validateMeld_Permutation _ _ _ _ Hval), Hcs.
    pose proof (removeAll_Permutation hand (sortDescending cardIndices)) as Hrem.
    etrans; [|apply Hrem].
    - unfold hand1. apply Permutation_app_head, fmap_Permutation.
      symmetry. apply sortBy_Permutation.
    - by apply sortDescending_strict.
    - unfold sortDescending. by rewrite sortBy_Permutation. }
  assert (Hconserved :
    Part003.tableCards
      (Part003.setMelds p (push (default [] ms) (mkMeld meldType cs'))
         (Part003.withPlayerHands (<[p := hand1]> (Part003.playerHands g)) g))
    ≡ₚ Part003.tableCards g).
  { eapply (table_after_change p hand hand1 (default [] ms)); [done..|].
    cbn [Part003.discardPile Part003.deck Part003.setMelds Part003.withPlayerMelds
         Part003.withPlayerHands].
    unfold push. rewrite bind_app, bind_cons. cbn [cards mbind list_bind].
    rewrite <-Hmove. solve_Permutation. }
  destruct ms as [ms0|]; simpl.
  - destruct (decide (length hand1 = 0%nat)); [|by intros [= <- _]].
    match goal with
    | |- context [Part003.validatePlayerMeetsRoundRequirements ?g1 p] =>
        destruct (Part003.validatePlayerMeetsRoundRequirements g1 p) as [[|]|]
    end; [| |done].
    + destruct (Part003.endRound _ _ _) as [g3 [res|]]; [|done].
      intros [= _ <-]. done.
    + by intros [= <- _].
  - destruct (decide (length hand1 = 0%nat)); [|by intros [= <- _]].
    match goal with
    | |- context [Part003.validatePlayerMeetsRoundRequirements ?g1 p] =>
        destruct (Part003.validatePlayerMeetsRoundRequirements g1 p) as [[|]|]
    end; [| |done].
    + destruct (Part003.endRound _ _ _) as [g3 [res|]]; [|done].
      intros [= _ <-]. done.
    + by intros [= <- _].
Qed.
End conservation.

Lemma drawCard_conserves_witness :
  let g := Part003Games.freshDeal in
  let g' := (Part003.drawCard fixedPick g "A").1 in
  Part003.tableCards g' ≡ₚ Part003.tableCards g.
Proof.
  intros g g'.
  refine (drawCard_conserves g "A" _ _ fixedPick g' (okCard (one clubs R4)) _).
  - apply (bool_decide_unpack _). by vm_compute.
  - apply (bool_decide_unpack _). by vm_compute.
  - by vm_compute.
Defined.

Lemma pickUpDiscard_conserves_witness :
  let g := Part003Games.freshDeal in
  let g' := (Part003.pickUpDiscard g "A").1 in
  Part003.tableCards g' ≡ₚ Part003.tableCards g.
Proof.
  intros g g'.
  refine (pickUpDiscard_conserves g "A" _ _ g' (okCard (one clubs R5)) _).
  - apply (bool_decide_unpack _). by vm_compute.
  - apply (bool_decide_unpack _). by vm_compute.
  - by vm_compute.
Defined.

Lemma discardCard_conserves_witness :
  let g := Part003Games.goneDown in
  let g' := (Part003.discardCard fixedPick g "A" 1).1 in
  Part003.tableCards g' ≡ₚ Part003.tableCards g.
Proof.
  intros g g'.
  refine (discardCard_conserves g "A" _ _ fixedPick 1 g' (okCard (one hearts RK)) _ _).
  - apply (bool_decide_unpack _). by vm_compute.
  - apply (bool_decide_unpack _). by vm_compute.
  - by vm_compute.
  - done.
Defined.

Lemma buyCard_conserves_witness :
  let g := Part003Games.freshDeal in
  let g' := (Part003.buyCard fixedPick g "B").1 in
  Part003.tableCards g' ≡ₚ Part003.tableCards g.
Proof.
  intros g g'.
  refine (buyCard_conserves g "B" _ _ fixedPick g' (okCard (one clubs R5)) _).
  - apply (bool_decide_unpack _). by vm_compute.
  - apply (bool_decide_unpack _). by vm_compute.
  - by vm_compute.
Defined.

Lemma layOffCard_conserves_witness :
  let g := Part003Games.goneDown in
  let g' := (Part003.layOffCard fixedPick g "A" 0 "A" 0).1 in
  Part003.tableCards g' ≡ₚ Part003.tableCards g.
Proof.
  intros g g'.
  refine (layOffCard_conserves g "A" _ _ fixedPick 0 "A" 0 g' (okCard (one spades R7)) _ _ _).
  - apply (bool_decide_unpack _). by vm_compute.
  - apply (bool_decide_unpack _). by vm_compute.
  - apply (bool_decide_unpack _). by vm_compute.
  - by vm_compute.
  - done.
Defined.

Lemma makeMeld_conserves_witness :
  let g := Part003Games.setInHand in
  let g' := (Part003.makeMeld fixedPick g "A" [0; 1; 3] "set").1 in
  Part003.tableCards g' ≡ₚ Part003.tableCards g.
Proof.
  intros g g'.
  refine (makeMeld_conserves g "A" _ _ fixedPick [0; 1; 3] "set" g' ok _ _ _ _).
  - apply (bool_decide_unpack _). by vm_compute.
  - apply (bool_decide_unpack _). by vm_compute.
  - apply (bool_decide_unpack _). by vm_compute.
  - intros hand [= <-]. repeat constructor; simpl; lia.
  - by vm_compute.
  - done.
Defined.

(** ** Repeated indices *)

(** C2.  In a freshly dealt round every card is on the table exactly twice.
    A then melds "index 0, index 0, index 0" as a set: the call succeeds,
    the card at index 0 is now on the table four times and the two cards
    that followed it in the hand are there only once.  And in server.js a
    failed draw from an empty stock loses the top discard. *)
Theorem repeated_index_meld_duplicates_and_loses_cards :
  ((∀ s k, occurrences (mkCard s k) (Part003.tableCards Part003Games.freshDeal) = 2%nat) ∧
   let g := Part003Games.freshDeal in
   let '(g', r) := Part003.makeMeld fixedPick g "A" [0; 0; 0] "set" in
   Part003.getCurrentPlayer g = Some "A" ∧
   take 3 (default [] (Part003.playerHands g !! "A"))
     = [one hearts RA; one spades RQ; one spades R10] ∧
   r = Normal ok ∧
   occurrences (mkCard hearts RA) (Part003.tableCards g') = 4%nat ∧
   occurrences (mkCard spades RQ) (Part003.tableCards g') = 1%nat ∧
   occurrences (mkCard spades R10) (Part003.tableCards g') = 1%nat) ∧
  ((∀ s k, occurrences (mkCard s k) (Server.tableCards ServerGames.freshDeal) = 2%nat) ∧
   let g := ServerGames.freshDeal in
   let '(g', r) := Server.makeMeld fixedPick g "A" [0; 0; 0] "set" in
   Server.getCurrentPlayer g = Some "A" ∧
   take 3 (default [] (Server.hand <$> Server.playerData g !! "A"))
     = [one spades RK; one spades RQ; one spades RJ] ∧
   r = Normal ok ∧
   occurrences (mkCard spades RK) (Server.tableCards g') = 4%nat ∧
   occurrences (mkCard spades RQ) (Server.tableCards g') = 1%nat ∧
   occurrences (mkCard spades RJ) (Server.tableCards g') = 1%nat) ∧
  (let g := ServerGames.emptyStock in
   let g' := (Server.drawCard fixedPick g "A").1 in
   occurrences (mkCard spades RK) (Server.tableCards g) = 1%nat ∧
   occurrences (mkCard spades RK) (Server.tableCards g') = 0%nat ∧
   length (Server.tableCards g') = (length (Server.tableCards g) - 1)%nat).
Proof.
  apply conj; [apply conj|apply conj; [apply conj|]].
  - intros [] []; vm_compute; reflexivity.
  - vm_compute. done.
  - intros [] []; vm_compute; reflexivity.
  - vm_compute. done.
  - vm_compute. done.
Qed.

(** * The AI players of server.js *)

Lemma filterC_cards (p : slot → Completion bool) (P : Card → Prop) `{∀ x, Decision (P x)}
    (cs : list Card) :
  (∀ c, p (Some c) = Normal (bool_decide (P c))) →
  filterC p (Some <$> cs) = Normal (Some <$> filter P cs).
Proof.
  intros Hp. induction cs as [|c cs IH]; [done|].
  rewrite fmap_cons. simpl. rewrite Hp, IH. simpl.
  rewrite filter_cons. destruct (decide (P c)).
  - by rewrite bool_decide_eq_true_2.
  - by rewrite bool_decide_eq_false_2.
Qed.

Lemma evaluateCard_fold (c : Card) (cs : list Card) (acc : Z) :
  reduceC (fun v x =>
             a ← prop value x;
             b ← prop value (Some c);
             let diff := Z.abs (a - b) in
             let v1 := if decide (diff = 1) then v + 4 else v in
             Normal (if decide (diff = 2) then v1 + 2 else v1))
          (Some <$> filter (fun x => suit x = suit c) cs) acc
  = Normal (acc + 4 * count (near 1 c) cs + 2 * count (near 2 c) cs).
Proof.
  unfold count. revert acc. induction cs as [|x cs IH]; intros acc.
  { simpl. f_equal. lia. }
  rewrite !filter_cons. unfold near at 1 3.
  destruct (decide (suit x = suit c)) as [Hs|Hs].
  - rewrite fmap_cons. simpl. rewrite IH. f_equal.
    repeat case_decide; simpl length; try lia; exfalso; unfold near in *; intuition lia.
  - rewrite IH. f_equal.
    repeat case_decide; simpl length; try lia; exfalso; unfold near in *; intuition lia.
Qed.

(** X1.  [evaluateCard] of server.js on a card and a hand of cards never
    throws: it is 3 for every card of the hand with the rank of the card,
    plus 4 for every card of its suit one value away and 2 for every card of
    its suit two values away, so between 0 and 7 times the size of the
    hand. *)
Theorem evaluateCard_counts (c : Card) (h : list Card) :
  let v := 3 * count (fun x => rank x = rank c) h
           + 4 * count (near 1 c) h + 2 * count (near 2 c) h in
  Server.evaluateCard (Some c) (Some <$> h) = Normal v ∧
  0 <= v <= 7 * Z.of_nat (length h).
Proof.
  cbv zeta. split.
  - unfold Server.evaluateCard.
    rewrite (filterC_cards (fun x => r ← prop rank x; r' ← prop rank (Some c);
                                     Normal (bool_decide (r = r')))
               (fun x => rank x = rank c)) by done.
    change (Normal ?a ≫= ?k) with (k a). cbv beta.
    rewrite (filterC_cards (fun x => s ← prop suit x; s' ← prop suit (Some c);
                                     Normal (bool_decide (s = s')))
               (fun x => suit x = suit c)) by done.
    change (Normal ?a ≫= ?k) with (k a). cbv beta.
    rewrite evaluateCard_fold, length_fmap. unfold count. f_equal. lia.
  - unfold count. induction h as [|x h IH]; [simpl; lia|].
    rewrite !filter_cons. unfold near at 1 3 5 7.
    repeat case_decide; simpl length; try lia; exfalso; unfold near in *; intuition lia.
Qed.

(** X2.  An AI player of server.js never asks for a card when it has no buy
    left or holds no card, whatever the card; and with a card and a hand of
    cards a medium player buys whenever an easy one would, a hard player
    whenever a medium one would. *)
Theorem shouldBuy_by_difficulty (c : slot) (h : list slot) (b : Z) (d : Server.Difficulty) :
  (b <= 0 → Server.shouldBuy d c h b = Normal false) ∧
  (h = [] → Server.shouldBuy d c h b = Normal false) ∧
  (Server.shouldBuy Server.easy c h b = Normal true →
   Server.shouldBuy Server.medium c h b = Normal true) ∧
  (Server.shouldBuy Server.medium c h b = Normal true →
   Server.shouldBuy Server.hard c h b = Normal true).
Proof.
  unfold Server.shouldBuy. split; [|split; [|split]].
  - intros Hb. by rewrite decide_True.
  - intros ->. case_decide; [done|]. simpl.
    f_equal. apply bool_decide_eq_false_2. destruct d; simpl; lia.
  - case_decide; [done|]. destruct (Server.evaluateCard c h) as [v|]; [|done].
    simpl. intros [= Hv%bool_decide_eq_true]. f_equal. apply bool_decide_eq_true_2. lia.
  - case_decide; [done|]. destruct (Server.evaluateCard c h) as [v|]; [|done].
    simpl. intros [= Hv%bool_decide_eq_true]. f_equal. apply bool_decide_eq_true_2. lia.
Qed.

Lemma worth_cards (h : list Card) (j : nat) (x : Card) :
  h !! j = Some x →
  ServerAI.worth (Some <$> h) j = Server.evaluateCard (Some x) (delete j (Some <$> h)) ∧
  ∃ w, ServerAI.worth (Some <$> h) j = Normal w.
Proof.
  intros Hj. unfold ServerAI.worth, at_index.
  rewrite decide_True by lia. rewrite Nat2Z.id, list_lookup_fmap, Hj. simpl.
  split; [done|]. rewrite <-list_fmap_delete.
  eexists. apply evaluateCard_counts.
Qed.

(** The loop of [chooseDiscard], with the least value seen so far. *)
Lemma chooseDiscardFrom_spec (h : list Card) (idx wi : nat) (wv : option Z) :
  (idx <= length h)%nat →
  (wv = None → idx = 0%nat ∧ wi = 0%nat) →
  (∀ v, wv = Some v →
     (wi < idx)%nat ∧ ServerAI.worth (Some <$> h) wi = Normal v ∧
     ∀ j, (j < idx)%nat → ∃ w, ServerAI.worth (Some <$> h) j = Normal w ∧
                              v <= w ∧ ((j < wi)%nat → v < w)) →
  ∃ i, ServerAI.chooseDiscardFrom (Some <$> h) idx (drop idx (Some <$> h)) wi wv = Normal i ∧
       (h = [] → i = 0%nat) ∧
       (h ≠ [] → (i < length h)%nat ∧
          ∃ v, ServerAI.worth (Some <$> h) i = Normal v ∧
               ∀ j, (j < length h)%nat →
                    ∃ w, ServerAI.worth (Some <$> h) j = Normal w ∧
                         v <= w ∧ ((j < i)%nat → v < w)).
Proof.
  intros Hidx. remember (length h - idx)%nat as n eqn:Hn.
  revert idx wi wv Hidx Hn. induction n as [|n IH]; intros idx wi wv Hidx Hn Hnone Hsome.
  - assert (idx = length h) as -> by lia.
    rewrite drop_ge by (rewrite length_fmap; lia). simpl.
    exists wi. split; [done|]. destruct wv as [v|].
    + destruct (Hsome v eq_refl) as (Hwi & Hv & Hall).
      split; [intros ->; simpl in Hwi; lia|]. intros _. split; [done|]. by exists v.
    + destruct (Hnone eq_refl) as [Hlen ->]. split; [done|].
      intros Hne. destruct h; [done|simpl in Hlen; lia].
  - destruct (lookup_lt_is_Some_2 h idx) as [x Hx]; [lia|].
    rewrite (drop_S _ (Some x) idx) by (by rewrite list_lookup_fmap, Hx).
    cbn [ServerAI.chooseDiscardFrom]. destruct (worth_cards h idx x Hx) as [Heq [w Hw]].
    rewrite <-Heq, Hw. change (Normal w ≫= ?k) with (k w). cbv beta.
    destruct wv as [v|].
    + destruct (Hsome v eq_refl) as (Hwi & Hv & Hall).
      case_bool_decide as Hlt.
      * apply (IH (S idx) idx (Some w)); [lia|lia|done|].
        intros ? [= <-]. split; [lia|]. split; [done|].
        intros j Hj. destruct (decide (j = idx)) as [->|Hne].
        { exists w. split; [done|]. lia. }
        destruct (Hall j ltac:(lia)) as (w' & Hw' & Hle & _).
        exists w'. split; [done|]. lia.
      * apply (IH (S idx) wi (Some v)); [lia|lia|done|].
        intros ? [= <-]. split; [lia|]. split; [done|].
        intros j Hj. destruct (decide (j = idx)) as [->|Hne].
        { exists w. split; [done|]. lia. }
        by apply Hall; lia.
    + destruct (Hnone eq_refl) as [-> ->].
      apply (IH 1%nat 0%nat (Some w)); [lia|lia|done|].
      intros ? [= <-]. split; [lia|]. split; [done|].
      intros j Hj. assert (j = 0%nat) as -> by lia. exists w. split; [done|]. lia.
Qed.

(** X3.  [chooseDiscard] of server.js on a hand of cards returns an index
    inside the hand (0 for an empty hand) whose card has the least value
    against the rest of the hand, and the first such index. *)
Theorem chooseDiscard_first_least (h : list Card) :
  ∃ i, ServerAI.chooseDiscard (Some <$> h) = Normal i ∧
       (h = [] → i = 0%nat) ∧
       (h ≠ [] → (i < length h)%nat ∧
          ∃ v, ServerAI.worth (Some <$> h) i = Normal v ∧
               ∀ j, (j < length h)%nat →
                    ∃ w, ServerAI.worth (Some <$> h) j = Normal w ∧
                         v <= w ∧ ((j < i)%nat → v < w)).
Proof.
  unfold ServerAI.chooseDiscard.
  apply (chooseDiscardFrom_spec h 0 0 None); [lia|done|done].
Qed.

(** ** Grouping the hand by rank and by suit *)

Section grouping.
Context {K V : Type} `{EqDecision K}.
Implicit Types (groups : list (K * list V)) (items : list (K * V)).

Lemma groupPush_keys groups k v k' :
  k' ∈ (ServerAI.groupPush groups k v).*1 ↔ k' = k ∨ k' ∈ groups.*1.
Proof.
  induction groups as [|[k0 l0] groups IH]; simpl.
  - rewrite list_elem_of_singleton, elem_of_nil. tauto.
  - case_decide; simpl; rewrite !elem_of_cons, ?IH; [subst k0|]; tauto.
Qed.

Lemma groupPush_NoDup groups k v :
  NoDup (groups.*1) → NoDup ((ServerAI.groupPush groups k v).*1).
Proof.
  induction groups as [|[k0 l0] groups IH]; simpl.
  - intros _. apply NoDup_singleton.
  - rewrite NoDup_cons. intros [Hk0 Hnd]. case_decide; simpl.
    + by apply NoDup_cons.
    + apply NoDup_cons. split; [|by apply IH].
      rewrite groupPush_keys. intros [->|?]; done.
Qed.

Lemma groupPush_elem groups k v k' l :
  NoDup (groups.*1) →
  (k', l) ∈ ServerAI.groupPush groups k v →
  (k' ≠ k ∧ (k', l) ∈ groups) ∨
  (k' = k ∧ ((∃ l0, (k, l0) ∈ groups ∧ l = l0 ++ [v]) ∨ ((k ∉ groups.*1) ∧ l = [v]))).
Proof.
  induction groups as [|[k0 l0] groups IH]; simpl.
  - intros _ [= -> ->]%list_elem_of_singleton. right. split; [done|]. right.
    split; [apply not_elem_of_nil|done].
  - rewrite NoDup_cons. intros [Hk0 Hnd].
    case_decide as Hk; rewrite !elem_of_cons.
    + subst k0. intros [[= -> ->]|Hin].
      * right. split; [done|]. left. exists l0. split; [by left|done].
      * left. split; [|by right]. intros ->. apply Hk0.
        apply list_elem_of_fmap. by exists (k, l).
    + intros [[= -> ->]|Hin].
      * left. split; [done|]. by left.
      * destruct (IH Hnd Hin) as [[Hne Hin']|[-> [(l1 & Hin' & ->)|[Hnot ->]]]].
        -- left. split; [done|]. by right.
        -- right. split; [done|]. left. exists l1. split; [by right|done].
        -- right. split; [done|]. right. split; [|done].
           intros [->|?]; done.
Qed.

Lemma groupAll_snoc items e :
  groupAll (items ++ [e]) = ServerAI.groupPush (groupAll items) e.1 e.2.
Proof. unfold groupAll. by rewrite foldl_snoc. Qed.

Lemma groupAll_keys items k : k ∈ (groupAll items).*1 ↔ k ∈ items.*1.
Proof.
  induction items as [|e items IH] using rev_ind.
  - done.
  - rewrite groupAll_snoc, groupPush_keys, fmap_app, elem_of_app, IH. simpl.
    rewrite list_elem_of_singleton. tauto.
Qed.

Lemma groupAll_NoDup items : NoDup ((groupAll items).*1).
Proof.
  induction items as [|e items IH] using rev_ind.
  - apply NoDup_nil_2.
  - rewrite groupAll_snoc. by apply groupPush_NoDup.
Qed.

(** The array under a key holds, in their order, the items pushed under
    that key. *)
Lemma groupAll_spec items k l :
  (k, l) ∈ groupAll items → l = (filter (fun e => e.1 = k) items).*2.
Proof.
  revert l. induction items as [|e items IH] using rev_ind; intros l.
  - by intros ?%elem_of_nil.
  - rewrite groupAll_snoc. intros Hin.
    apply groupPush_elem in Hin; [|apply groupAll_NoDup].
    rewrite filter_app, fmap_app.
    destruct Hin as [[Hne Hin]|[-> [(l0 & Hin & ->)|[Hnot ->]]]].
    + rewrite (IH _ Hin). rewrite filter_cons_False by done.
      by rewrite filter_nil, app_nil_r.
    + rewrite (IH _ Hin). by rewrite filter_cons_True by done.
    + rewrite filter_cons_True by done. rewrite filter_nil. simpl.
      rewrite groupAll_keys in Hnot.
      assert (filter (fun e' : K * V => e'.1 = e.1) items = []) as ->; [|done].
      clear -Hnot. induction items as [|e' items IH]; [done|].
      rewrite fmap_cons, not_elem_of_cons in Hnot. destruct Hnot as [Hne Hnot].
      rewrite filter_cons_False by done. by apply IH.
Qed.

End grouping.

Lemma reduceC_app {A B} (f : B → A → Completion B) (l1 l2 : list A) (acc : B) :
  reduceC f (l1 ++ l2) acc = (acc' ← reduceC f l1 acc; reduceC f l2 acc').
Proof.
  revert acc. induction l1 as [|a l1 IH]; intros acc; simpl; [done|].
  destruct (f acc a); simpl; [apply IH|done].
Qed.

(** The two [forEach] loops that fill [rankGroups] and [suitGroups], on a
    hand of cards. *)
Lemma reduceC_groups {K V} `{EqDecision K}
    (f : list (K * list V) → nat * slot → Completion (list (K * list V)))
    (key : nat → Card → K * V) (h : list Card) :
  (∀ g i c, f g (i, Some c) = Normal (ServerAI.groupPush g (key i c).1 (key i c).2)) →
  reduceC f (imap pair (Some <$> h)) [] = Normal (groupAll (imap key h)).
Proof.
  intros Hf. induction h as [|c h IH] using rev_ind; [done|].
  rewrite fmap_app, !imap_app. cbn [imap fmap list_fmap].
  rewrite reduceC_app, IH, groupAll_snoc. simpl.
  by rewrite Hf, length_fmap.
Qed.

Lemma objectValues_elem {K V} (arrayIndex : K → option Z) (groups : list (K * V)) (v : V) :
  v ∈ ServerAI.objectValues arrayIndex groups → ∃ k, (k, v) ∈ groups.
Proof.
  unfold ServerAI.objectValues. rewrite elem_of_app, !list_elem_of_fmap.
  intros [([i v'] & -> & Hin)|([k v'] & -> & Hin)].
  - rewrite sortBy_Permutation in Hin. apply list_elem_of_omap in Hin as ([k v''] & Hin & Heq).
    simpl in Heq. destruct (arrayIndex k); [|done]. simpl in Heq.
    injection Heq as <- <-. by exists k.
  - apply list_elem_of_filter in Hin as [_ Hin]. by exists k.
Qed.

(** Reading the cards at a list of indices of a hand of cards. *)
Lemma cards_at (h : list Card) (l : list nat) (cs : list Card) :
  Forall2 (fun i c => h !! i = Some c) l cs →
  at_index (Some <$> h) <$> (Z.of_nat <$> l) = Some <$> cs ∧
  Forall (fun i => 0 <= i < Z.of_nat (length h)) (Z.of_nat <$> l).
Proof.
  induction 1 as [|i c l cs Hi _ [IH1 IH2]]; [done|].
  rewrite !fmap_cons, IH1. split.
  - f_equal. unfold at_index. rewrite decide_True by lia.
    by rewrite Nat2Z.id, list_lookup_fmap, Hi.
  - constructor; [|done]. apply lookup_lt_Some in Hi. lia.
Qed.

Lemma cards_of_indices (h : list Card) (P : Card → Prop) (l : list nat) :
  Forall (fun i => ∃ c, h !! i = Some c ∧ P c) l →
  ∃ cs, Forall2 (fun i c => h !! i = Some c) l cs ∧ Forall P cs.
Proof.
  induction 1 as [|i l (c & Hc & HP) _ (cs & IH1 & IH2)]; [by exists []|].
  exists (c :: cs). split; by constructor.
Qed.

Lemma cards_of_pairs (h : list Card) (picked : list (Card * nat)) :
  Forall (fun e => h !! e.2 = Some e.1) picked →
  Forall2 (fun i c => h !! i = Some c) picked.*2 picked.*1.
Proof. induction 1; [constructor|]. rewrite !fmap_cons. by constructor. Qed.

(** The indices grouped under a rank, and the cards with their indices
    grouped under a suit. *)
Lemma rank_group (h : list Card) (r : Rank) (l : list nat) :
  (r, l) ∈ groupAll (imap (fun i c => (rank c, i)) h) →
  NoDup l ∧ Forall (fun i => ∃ c, h !! i = Some c ∧ rank c = r) l.
Proof.
  intros ->%groupAll_spec. split.
  - eapply sublist_NoDup; [|apply fmap_sublist, sublist_filter].
    rewrite fmap_imap.
    rewrite (imap_ext _ (fun i _ => i)) by done.
    change (imap _ h) with (imap (fun (j : nat) (_ : Card) => id j) h).
    rewrite (imap_seq_0 h id), list_fmap_id. apply NoDup_seq.
  - apply Forall_forall. intros i ([r' i'] & -> & Hin)%list_elem_of_fmap.
    apply list_elem_of_filter in Hin as [Hr Hin]. simpl in Hr. subst r'.
    apply elem_of_lookup_imap in Hin as (j & c & [= Hr ->] & Hj).
    by exists c.
Qed.

Lemma suit_group (h : list Card) (s : Suit) (g : list (Card * nat)) :
  (s, g) ∈ groupAll (imap (fun i c => (suit c, (c, i))) h) →
  NoDup (g.*2) ∧ Forall (fun e => h !! e.2 = Some e.1 ∧ suit e.1 = s) g.
Proof.
  intros ->%groupAll_spec. split.
  - eapply sublist_NoDup; [|apply fmap_sublist, fmap_sublist, sublist_filter].
    rewrite !fmap_imap.
    rewrite (imap_ext _ (fun i _ => i)) by done.
    change (imap _ h) with (imap (fun (j : nat) (_ : Card) => id j) h).
    rewrite (imap_seq_0 h id), list_fmap_id. apply NoDup_seq.
  - apply Forall_forall. intros e ([s' e'] & -> & Hin)%list_elem_of_fmap.
    apply list_elem_of_filter in Hin as [Hs Hin]. simpl in Hs. subst s'.
    apply elem_of_lookup_imap in Hin as (j & c & [= Hs ->] & Hj).
    by subst s.
Qed.

(** The inner loop of the run search picks cards of the group, in their
    order, whose values go up by one from [lastValue], and stops at four. *)
Lemma collectRun_spec (group : list (Card * nat)) (lastValue : Z) (run : list nat) :
  ∃ picked, picked `sublist_of` group ∧
    ServerAI.collectRun group lastValue run = run ++ picked.*2 ∧
    (length run + length picked <= Nat.max 4 (length run))%nat ∧
    stepOneB (lastValue :: (value <$> picked.*1)) = true.
Proof.
  revert lastValue run. induction group as [|[c idx] group IH]; intros lastValue run.
  { exists []. split; [done|]. rewrite app_nil_r. split; [done|]. split; [simpl; lia|done]. }
  cbn [ServerAI.collectRun]. destruct (decide (length run < 4)%nat) as [Hlen|Hlen].
  - destruct (decide (value c = lastValue + 1)) as [Hv|Hv].
    + destruct (IH (value c) (push run idx)) as (picked & Hsub & Heq & Hle & Hstep).
      exists ((c, idx) :: picked). split; [by apply sublist_skip|].
      split; [rewrite Heq; unfold push; by rewrite <-app_assoc|].
      split; [unfold push in Hle; rewrite length_app in Hle; simpl in *; lia|].
      rewrite !fmap_cons. cbn [fst].
      change (stepOneB (lastValue :: value c :: (value <$> picked.*1)))
        with (bool_decide (value c = lastValue + 1)
              && stepOneB (value c :: (value <$> picked.*1))).
      by rewrite bool_decide_eq_true_2.
    + destruct (IH lastValue run) as (picked & Hsub & Heq & Hle & Hstep).
      exists picked. split; [by apply sublist_cons|]. done.
  - exists []. split; [apply sublist_nil_l|]. rewrite app_nil_r.
    split; [done|]. split; [simpl; lia|done].
Qed.

Lemma stepOneB_tail (v : Z) (vs : list Z) : stepOneB (v :: vs) = true → stepOneB vs = true.
Proof.
  destruct vs as [|w vs]; [done|].
  change (stepOneB (v :: w :: vs)) with (bool_decide (w = v + 1) && stepOneB (w :: vs)).
  by intros [_ ?]%andb_true_iff.
Qed.

Lemma stepOneB_ascending (cs : list Card) :
  stepOneB (value <$> cs) = true → ascendingByValue cs.
Proof.
  unfold ascendingByValue. induction cs as [|a [|b cs] IH]; intros Hstep.
  - constructor.
  - repeat constructor.
  - pose proof (stepOneB_tail _ _ Hstep) as Htail.
    change (stepOneB (value <$> a :: b :: cs))
      with (bool_decide (value b = value a + 1) && stepOneB (value <$> b :: cs)) in Hstep.
    apply andb_true_iff in Hstep as [Hab%bool_decide_eq_true _].
    constructor; [by apply IH|]. constructor. lia.
Qed.

(** What makes a proposal of the AI acceptable to [makeMeld]. *)
Lemma set_found_valid (h : list Card) (r : Rank) (l : list nat) (m : ServerAI.Found) :
  (r, l) ∈ groupAll (imap (fun i c => (rank c, i)) h) →
  m ∈ ServerAI.setsIn l →
  NoDup (ServerAI.indices m) ∧
  Forall (fun i => 0 <= i < Z.of_nat (length h)) (ServerAI.indices m) ∧
  Server.validateMeld (at_index (Some <$> h) <$> ServerAI.indices m) (ServerAI.type m)
  = Normal true.
Proof.
  intros [Hnd Hall]%rank_group. unfold ServerAI.setsIn.
  case_decide as Hlen; [|by intros ?%elem_of_nil].
  intros ->%list_elem_of_singleton. cbn [ServerAI.indices ServerAI.type].
  assert (Htake : Forall (fun i => ∃ c, h !! i = Some c ∧ rank c = r) (take 3 l)).
  { by apply Forall_take. }
  destruct (cards_of_indices _ _ _ Htake) as (cs & Hcs & Hranks).
  destruct (cards_at _ _ _ Hcs) as [Hread Hrange].
  split; [|split; [done|]].
  - apply (NoDup_fmap_2 _). eapply sublist_NoDup; [done|apply sublist_take].
  - rewrite Hread. destruct (Server_validateMeld_set cs) as (b & -> & Hb). f_equal.
    apply Hb. split.
    + apply Forall2_length in Hcs. rewrite <-Hcs, length_take. lia.
    + rewrite Forall_forall in Hranks. intros c Hc. rewrite (Hranks c Hc).
      destruct cs as [|c0 cs]; [by apply elem_of_nil in Hc|]. simpl.
      f_equal. symmetry. apply Hranks. by left.
Qed.

Lemma run_found_valid (h : list Card) (s : Suit) (g : list (Card * nat)) (m : ServerAI.Found) :
  (s, g) ∈ groupAll (imap (fun i c => (suit c, (c, i))) h) →
  m ∈ ServerAI.runsIn g →
  NoDup (ServerAI.indices m) ∧
  Forall (fun i => 0 <= i < Z.of_nat (length h)) (ServerAI.indices m) ∧
  Server.validateMeld (at_index (Some <$> h) <$> ServerAI.indices m) (ServerAI.type m)
  = Normal true.
Proof.
  intros [Hnd Hall]%suit_group. unfold ServerAI.runsIn.
  case_decide as Hlen; [|by intros ?%elem_of_nil].
  cbv zeta. intros (i & Hm & _)%list_elem_of_bind. revert Hm.
  set (sorted := sortBy _ g). unfold ServerAI.runFrom.
  destruct (drop i sorted) as [|[c0 i0] from] eqn:Hdrop; [by intros ?%elem_of_nil|].
  cbv beta iota zeta.
  destruct (collectRun_spec ((c0, i0) :: from) (value c0 - 1) [])
    as (picked & Hsub & -> & Hle & Hstep).
  cbv zeta. rewrite app_nil_l. case_decide as Hfour; [|by intros ?%elem_of_nil].
  intros ->%list_elem_of_singleton. cbn [ServerAI.indices ServerAI.type].
  rewrite length_fmap in Hfour. simpl in Hle.
  assert (Hpicked : picked `sublist_of` sorted).
  { etrans; [exact Hsub|]. rewrite <-Hdrop. apply sublist_drop. }
  assert (Hperm : sorted ≡ₚ g) by apply sortBy_Permutation.
  assert (Hin : Forall (fun e => h !! e.2 = Some e.1 ∧ suit e.1 = s) picked).
  { rewrite Forall_forall in Hall |- *. intros e He. apply Hall.
    rewrite <-Hperm. by eapply elem_of_sublist. }
  destruct (cards_at h picked.*2 picked.*1) as [Hread Hrange].
  { apply cards_of_pairs. eapply Forall_impl; [exact Hin|]. by intros e [? _]. }
  split; [|split; [done|]].
  - apply (NoDup_fmap_2 _). eapply sublist_NoDup; [|by apply fmap_sublist].
    by rewrite Hperm.
  - rewrite Hread. destruct (Server_validateMeld_run picked.*1) as (b & -> & Hb). f_equal.
    apply Hb. split; [rewrite length_fmap; lia|]. split.
    + intros c Hc. apply list_elem_of_fmap in Hc as (e & -> & He).
      rewrite Forall_forall in Hin. destruct (Hin e He) as [_ ->].
      destruct picked as [|e0 picked']; [by apply elem_of_nil in He|].
      simpl. f_equal. symmetry. apply (Hin e0). by left.
    + exists picked.*1. split; [done|]. apply stepOneB_tail in Hstep.
      split; [by apply stepOneB_ascending|by apply stepOneB_spec].
Qed.

(** A meld that [findBestMeld] proposes for a hand of cards is accepted by
    [validateMeld], and its indices are distinct and inside the hand. *)
Lemma found_meld_valid (h : list Card) (requirements : option Req.t)
    (m : ServerAI.Found) :
  ServerAI.findBestMeld (Some <$> h) requirements = Normal (Some m) →
  NoDup (ServerAI.indices m) ∧
  Forall (fun i => 0 <= i < Z.of_nat (length h)) (ServerAI.indices m) ∧
  Server.validateMeld (at_index (Some <$> h) <$> ServerAI.indices m) (ServerAI.type m)
  = Normal true.
Proof.
  unfold ServerAI.findBestMeld.
  rewrite (reduceC_groups _ (fun i c => (rank c, i))) by done.
  change (Normal ?a ≫= ?k) with (k a). cbv beta zeta.
  rewrite (reduceC_groups _ (fun i c => (suit c, (c, i)))) by done.
  change (Normal ?a ≫= ?k) with (k a). cbv beta zeta.
  set (melds := _ ++ _).
  assert (Hmelds : ∀ m', m' ∈ melds →
    NoDup (ServerAI.indices m') ∧
    Forall (fun i => 0 <= i < Z.of_nat (length h)) (ServerAI.indices m') ∧
    Server.validateMeld (at_index (Some <$> h) <$> ServerAI.indices m') (ServerAI.type m')
    = Normal true).
  { intros m'. unfold melds. rewrite elem_of_app, !list_elem_of_bind.
    intros [(l & Hm & [r Hl]%objectValues_elem)|(g & Hm & [s Hg]%objectValues_elem)].
    - by eapply set_found_valid.
    - by eapply run_found_valid. }
  assert (Hfind : ∀ ty, ServerAI.findType ty melds = Some m → m ∈ melds).
  { intros ty Hty. unfold ServerAI.findType in Hty.
    apply head_Some_elem_of in Hty. by apply list_elem_of_filter in Hty as [_ ?]. }
  clearbody melds. intros Hres. apply Hmelds.
  destruct requirements as [req|]; [|done]. simpl in Hres.
  case_decide; [injection Hres as Hres; by eapply Hfind|].
  case_decide; [injection Hres as Hres; by eapply Hfind|].
  injection Hres as Hres. by apply head_Some_elem_of.
Qed.

(** X4.  A meld that [findBestMeld] of server.js proposes for a hand of
    cards has distinct indices inside the hand, and [validateMeld] accepts
    the cards at these indices.  So when the hand is that of the player
    whose turn it is, [makeMeld] with the proposal does not refuse it: a
    reply is a success, and unless it ends the round the cards have moved
    from the hand to a new meld, the last of the player's melds. *)
Theorem findBestMeld_is_accepted (h : list Card) (requirements : option Req.t)
    (m : ServerAI.Found) :
  ServerAI.findBestMeld (Some <$> h) requirements = Normal (Some m) →
  let cs := at_index (Some <$> h) <$> ServerAI.indices m in
  NoDup (ServerAI.indices m) ∧
  Forall (fun i => 0 <= i < Z.of_nat (length h)) (ServerAI.indices m) ∧
  Server.validateMeld cs (ServerAI.type m) = Normal true ∧
  ∀ (pick : Random) (g g' : Server.Game) (p : string) (data : Server.PlayerData) (r : Reply),
    Server.getCurrentPlayer g = Some p →
    Server.playerData g !! p = Some data →
    Server.hand data = Some <$> h →
    Server.makeMeld pick g p (ServerAI.indices m) (ServerAI.type m) = (g', Normal r) →
    success r = true ∧
    (roundResult r = None →
     ∃ data', Server.playerData g' !! p = Some data' ∧
              Server.melds data' = Server.melds data ++ [mkMeld (ServerAI.type m) cs] ∧
              Server.hand data' ++ cs ≡ₚ Server.hand data).
Proof.
  intros Hfound cs.
  destruct (found_meld_valid h requirements m Hfound) as (Hnd & Hrange & Hvalid).
  split; [done|]. split; [done|]. split; [done|].
  change (Server.validateMeld cs (ServerAI.type m) = Normal true) in Hvalid.
  intros pick g g' p data r Hturn Hdata Hhand. unfold Server.makeMeld.
  rewrite decide_False by (by intros []).
  rewrite Hdata.
  assert (Hsel : Server.selectCards (Some data) (ServerAI.indices m) = Normal cs).
  { unfold Server.selectCards, cs. rewrite Hhand. by destruct (ServerAI.indices m). }
  rewrite Hsel, Hvalid. cbv zeta.
  set (hand1 := removeAll (Server.hand data) (sortDescending (ServerAI.indices m))).
  set (data1 := Server.withMelds _ _).
  assert (Hmove : hand1 ++ cs ≡ₚ Server.hand data).
  { unfold hand1, cs. rewrite <-Hhand.
    etrans; [|apply (removeAll_Permutation (Server.hand data)
                       (sortDescending (ServerAI.indices m)))].
    - apply Permutation_app_head, fmap_Permutation. symmetry. apply sortBy_Permutation.
    - by apply sortDescending_strict.
    - unfold sortDescending. rewrite sortBy_Permutation, Hhand, length_fmap. done. }
  assert (Hlatched : ∀ data2 : Server.PlayerData,
            Server.hand data2 = hand1 →
            Server.melds data2 = push (Server.melds data) (mkMeld (ServerAI.type m) cs) →
            (if decide (length (Server.hand data2) = 0%nat ∧ Server.goneDown data2 = true)
             then match Server.endRound pick
                          (Server.setData p data2 (Server.setData p data1 g)) p with
                  | (g3, Throw e) => (g3, Throw e)
                  | (g3, Normal r0) => (g3, Normal (okEnded None r0))
                  end
             else (Server.setData p data2 (Server.setData p data1 g), Normal ok))
            = (g', Normal r) →
            success r = true ∧
            (roundResult r = None →
             ∃ data', Server.playerData g' !! p = Some data' ∧
                      Server.melds data'
                      = Server.melds data ++ [mkMeld (ServerAI.type m) cs] ∧
                      Server.hand data' ++ cs ≡ₚ Server.hand data)).
  { intros data2 Hh Hm. case_decide.
    - destruct (Server.endRound _ _ _) as [g3 [res|]]; [|done].
      intros [= _ <-]. done.
    - intros [= <- <-]. split; [done|]. intros _. exists data2.
      split; [simpl; by rewrite lookup_insert_eq|]. split; [done|]. by rewrite Hh. }
  destruct (Server.goneDown data1) eqn:Hdown.
  - by apply Hlatched.
  - cbn [Server.currentRound Server.setData Server.withPlayerData].
    destruct (requirementOf (Server.currentRound g)) as [req|]; [|done].
    case_decide; by apply Hlatched.
Qed.

Lemma findBestMeld_is_accepted_witness :
  let g := ServerGames.threeSevens in
  let h := [mkCard hearts R7; mkCard diamonds R7; mkCard clubs R7] in
  let data := Server.mkData (Some <$> h) [] 3 noScores false in
  let m := ServerAI.mkFound "set" [0; 1; 2] in
  let cs := at_index (Some <$> h) <$> ServerAI.indices m in
  let g' := (Server.makeMeld fixedPick g "A" [0; 1; 2] "set").1 in
  success ok = true ∧
  (roundResult ok = None →
   ∃ data', Server.playerData g' !! "A" = Some data' ∧
            Server.melds data' = Server.melds data ++ [mkMeld (ServerAI.type m) cs] ∧
            Server.hand data' ++ cs ≡ₚ Server.hand data).
Proof.
  intros g h data m cs g'.
  refine (proj2 (proj2 (proj2 (findBestMeld_is_accepted h (requirementOf 1) m _)))
            fixedPick g g' "A" data ok _ _ _ _).
  - by vm_compute.
  - done.
  - done.
  - done.
  - by vm_compute.
Defined.

(** * The lobby of server.js *)

Lemma pretty_N_go_nonempty (x : N) (s : string) : s ≠ "" → pretty.pretty_N_go x s ≠ "".
Proof.
  revert s. induction (N.lt_wf_0 x) as [x _ IH]; intros s Hs.
  destruct (decide (x = 0)%N) as [->|Hx].
  - by rewrite pretty.pretty_N_go_0.
  - rewrite pretty.pretty_N_go_step by lia. apply IH; [|done].
    apply N.div_lt; lia.
Qed.

Lemma pretty_nat_nonempty (n : nat) : pretty n ≠ "".
Proof.
  unfold pretty, pretty.pretty_nat, pretty, pretty.pretty_N.
  case_decide; [done|]. rewrite pretty.pretty_N_go_step by lia.
  by apply pretty_N_go_nonempty.
Qed.

(** The names the constructor gives to AI players are pairwise distinct. *)
Lemma aiName_inj (i j : nat) : ServerLobby.aiName i = ServerLobby.aiName j → i = j.
Proof.
  unfold ServerLobby.aiName. change (length ServerLobby.AI_NAMES) with 4%nat.
  pose proof (Nat.mod_upper_bound i 4 ltac:(lia)) as Hi.
  pose proof (Nat.mod_upper_bound j 4 ltac:(lia)) as Hj.
  intros Heq.
  assert (Hbase : (i `mod` 4 = j `mod` 4)%nat).
  { destruct (i `mod` 4)%nat as [|[|[|[|?]]]]; [..|lia];
      destruct (j `mod` 4)%nat as [|[|[|[|?]]]]; try lia; simpl in Heq; discriminate. }
  rewrite Hbase in Heq. apply (inj (String.app _)) in Heq.
  destruct (decide (4 <= i)%nat), (decide (4 <= j)%nat).
  - apply (inj pretty) in Heq. lia.
  - by apply pretty_nat_nonempty in Heq.
  - symmetry in Heq. by apply pretty_nat_nonempty in Heq.
  - rewrite Nat.mod_small in Hbase by lia. rewrite Nat.mod_small in Hbase by lia. done.
Qed.

Lemma mapSet_fresh {V} (m : list (string * V)) (k : string) (v : V) :
  (k ∉ m.*1) → mapSet m k v = m ++ [(k, v)].
Proof.
  induction m as [|[k' v'] m IH]; [done|].
  rewrite fmap_cons, not_elem_of_cons. intros [Hne Hk]. simpl.
  rewrite decide_False by done. by rewrite IH.
Qed.

Lemma aiEntries_spec (n : nat) :
  ServerLobby.aiEntries n
  = (fun i => (ServerLobby.aiName i, ServerLobby.aiDifficulty i)) <$> seq 0 n.
Proof.
  unfold ServerLobby.aiEntries. induction n as [|n IH]; [done|].
  rewrite seq_S, foldl_snoc, fmap_app, IH. simpl.
  apply mapSet_fresh. rewrite <-list_fmap_compose.
  intros (i & Heq & Hi)%list_elem_of_fmap. simpl in Heq.
  apply aiName_inj in Heq. apply elem_of_seq in Hi. lia.
Qed.

(** X5.  The constructor of server.js creates exactly [aiCount] AI players:
    their names are pairwise distinct, so no [aiPlayers.set] overwrites an
    earlier entry; the difficulties go round easy, medium, hard; and the
    new game has no player seated, is in round 1 and has not started. *)
Theorem constructor_ai_players (gameCode hostName : string) (aiCount : nat) :
  let t := ServerLobby.new gameCode hostName aiCount in
  (ServerLobby.aiOrder t).*1 = ServerLobby.aiName <$> seq 0 aiCount ∧
  NoDup ((ServerLobby.aiOrder t).*1) ∧
  length (ServerLobby.aiOrder t) = aiCount ∧
  (∀ i, (i < aiCount)%nat →
        Server.aiPlayers (ServerLobby.game t) !! ServerLobby.aiName i
        = [Server.easy; Server.medium; Server.hard] !! (i `mod` 3)%nat) ∧
  (∀ name, is_Some (Server.aiPlayers (ServerLobby.game t) !! name)
           ↔ name ∈ ServerLobby.aiName <$> seq 0 aiCount) ∧
  Server.players (ServerLobby.game t) = [] ∧
  Server.currentRound (ServerLobby.game t) = 1%nat ∧
  Server.gameStarted (ServerLobby.game t) = false.
Proof.
  cbv zeta. unfold ServerLobby.new. cbn [ServerLobby.aiOrder ServerLobby.game
    Server.aiPlayers Server.players Server.currentRound Server.gameStarted].
  rewrite aiEntries_spec.
  assert (Hkeys : ((fun i => (ServerLobby.aiName i, ServerLobby.aiDifficulty i)) <$> seq 0 aiCount).*1
                  = ServerLobby.aiName <$> seq 0 aiCount).
  { by rewrite <-list_fmap_compose. }
  assert (Hnd : NoDup (ServerLobby.aiName <$> seq 0 aiCount)).
  { apply NoDup_fmap_2_strong; [|apply NoDup_seq]. intros i j _ _. apply aiName_inj. }
  rewrite Hkeys. split; [done|]. split; [done|].
  split; [by rewrite length_fmap, length_seq|]. split; [|split; [|done]].
  - intros i Hi.
    assert (Hd : [Server.easy; Server.medium; Server.hard] !! (i `mod` 3)%nat
                 = Some (ServerLobby.aiDifficulty i)).
    { unfold ServerLobby.aiDifficulty. change (length ServerLobby.difficulties) with 3%nat.
      pose proof (Nat.mod_upper_bound i 3 ltac:(lia)).
      by destruct (i `mod` 3)%nat as [|[|[|?]]]; [..|lia]. }
    rewrite Hd. apply elem_of_list_to_map_1; [by rewrite Hkeys|].
    apply list_elem_of_fmap. exists i. split; [done|apply elem_of_seq; lia].
  - intros name. rewrite <-Hkeys, <-not_eq_None_Some, <-not_elem_of_list_to_map.
    split; [apply dec_stable|tauto].
Qed.

(** Seating a list of players one after the other. *)
Lemma seat_all (g : Server.Game) (names : list string) :
  let g' := foldl ServerLobby.seat g names in
  Server.players g' = Server.players g ++ names ∧
  (∀ p, p ∈ names → Server.playerData g' !! p = Some ServerLobby.freshData) ∧
  (∀ p, p ∉ names → Server.playerData g' !! p = Server.playerData g !! p) ∧
  Server.currentRound g' = Server.currentRound g ∧
  Server.gameStarted g' = Server.gameStarted g ∧
  Server.aiPlayers g' = Server.aiPlayers g.
Proof.
  cbv zeta. induction names as [|name names IH] using rev_ind.
  - simpl. rewrite app_nil_r. split; [done|]. split; [by intros p ?%elem_of_nil|done].
  - rewrite foldl_snoc. destruct IH as (Hps & Hin & Hout & Hr & Hs & Hai).
    set (g0 := foldl ServerLobby.seat g names) in *.
    change (Server.players (ServerLobby.seat g0 name)) with (Server.players g0 ++ [name]).
    change (Server.playerData (ServerLobby.seat g0 name))
      with (<[name := ServerLobby.freshData]> (Server.playerData g0)).
    change (Server.currentRound (ServerLobby.seat g0 name)) with (Server.currentRound g0).
    change (Server.gameStarted (ServerLobby.seat g0 name)) with (Server.gameStarted g0).
    change (Server.aiPlayers (ServerLobby.seat g0 name)) with (Server.aiPlayers g0).
    rewrite Hps, <-app_assoc. split; [done|].
    split; [|split; [|done]].
    + intros p Hp. destruct (decide (p = name)) as [->|Hne].
      * by rewrite lookup_insert_eq.
      * rewrite lookup_insert_ne by done. apply Hin.
        apply elem_of_app in Hp as [?|?%list_elem_of_singleton]; done.
    + intros p Hp. rewrite elem_of_app, list_elem_of_singleton in Hp.
      rewrite lookup_insert_ne by (intros ->; tauto). apply Hout. tauto.
Qed.

(** The host of a new game takes the first seat and the AI players the
    next ones. *)
Lemma host_seated (gameCode hostName : string) (aiCount : nat) :
  hostName ∉ ServerLobby.aiName <$> seq 0 aiCount →
  ∃ g, ServerLobby.addPlayer (ServerLobby.new gameCode hostName aiCount) hostName
       = (ServerLobby.withGame g (ServerLobby.new gameCode hostName aiCount), true) ∧
       Server.players g = hostName :: (ServerLobby.aiName <$> seq 0 aiCount) ∧
       NoDup (Server.players g) ∧
       (∀ p, p ∈ Server.players g → Server.playerData g !! p = Some ServerLobby.freshData) ∧
       Server.currentRound g = 1%nat.
Proof.
  intros Hhost.
  destruct (constructor_ai_players gameCode hostName aiCount) as (Hkeys & Hnd & _).
  cbv zeta in Hkeys, Hnd. rewrite Hkeys in Hnd.
  unfold ServerLobby.addPlayer.
  assert (Hempty : Server.players (ServerLobby.game (ServerLobby.new gameCode hostName aiCount)) = [])
    by done.
  rewrite Hempty. rewrite decide_False by apply not_elem_of_nil.
  change (ServerLobby.hostName (ServerLobby.new gameCode hostName aiCount)) with hostName.
  rewrite decide_True by done. rewrite Hkeys.
  set (g1 := ServerLobby.seat _ hostName).
  destruct (seat_all g1 (ServerLobby.aiName <$> seq 0 aiCount)) as (Hps & Hin & Hout & Hr & _).
  cbv zeta in Hps, Hin, Hout, Hr.
  eexists. split; [done|].
  assert (Hroster : Server.players (foldl ServerLobby.seat g1 (ServerLobby.aiName <$> seq 0 aiCount))
                    = hostName :: (ServerLobby.aiName <$> seq 0 aiCount)).
  { by rewrite Hps. }
  rewrite Hroster. split; [done|]. split; [by apply NoDup_cons|]. split; [|by rewrite Hr].
  intros p Hp. destruct (decide (p ∈ ServerLobby.aiName <$> seq 0 aiCount)) as [Hai|Hai].
  - by apply Hin.
  - rewrite Hout by done. apply elem_of_cons in Hp as [->|?]; [|done].
    unfold g1, ServerLobby.seat, ServerLobby.initPlayerData, Server.setData.
    cbn [Server.playerData Server.withPlayerData]. by rewrite lookup_insert_eq.
Qed.

(** X6.  In server.js the host who joins a new game is seated first and
    the AI players after them, in the order of their creation.  When the
    name of the host is not the name of an AI player, the roster has no
    duplicate and every seated player has a fresh record: an empty hand, no
    meld, three buys, seven scores of 0.  A second [addPlayer] under a
    seated name returns false and changes nothing. *)
Theorem host_joins_new_game (gameCode hostName : string) (aiCount : nat) :
  hostName ∉ ServerLobby.aiName <$> seq 0 aiCount →
  let '(t, joined) := ServerLobby.addPlayer (ServerLobby.new gameCode hostName aiCount) hostName in
  joined = true ∧
  Server.players (ServerLobby.game t) = hostName :: (ServerLobby.aiName <$> seq 0 aiCount) ∧
  NoDup (Server.players (ServerLobby.game t)) ∧
  (∀ p, p ∈ Server.players (ServerLobby.game t) →
        Server.playerData (ServerLobby.game t) !! p = Some ServerLobby.freshData) ∧
  (∀ p, p ∈ Server.players (ServerLobby.game t) → ServerLobby.addPlayer t p = (t, false)).
Proof.
  intros Hhost.
  destruct (host_seated gameCode hostName aiCount Hhost) as (g & -> & Hps & Hnd & Hdata & _).
  cbn [ServerLobby.game ServerLobby.withGame].
  split; [done|]. split; [done|]. split; [done|]. split; [done|].
  intros p Hp. unfold ServerLobby.addPlayer. cbn [ServerLobby.game ServerLobby.withGame].
  by rewrite decide_True.
Qed.

Lemma host_joins_new_game_witness :
  let '(t, joined) := ServerLobby.addPlayer (ServerLobby.new "ABC123" "Ann" 2) "Ann" in
  joined = true ∧
  Server.players (ServerLobby.game t) = "Ann" :: (ServerLobby.aiName <$> seq 0 2) ∧
  NoDup (Server.players (ServerLobby.game t)) ∧
  (∀ p, p ∈ Server.players (ServerLobby.game t) →
        Server.playerData (ServerLobby.game t) !! p = Some ServerLobby.freshData) ∧
  (∀ p, p ∈ Server.players (ServerLobby.game t) → ServerLobby.addPlayer t p = (t, false)).
Proof.
  apply (host_joins_new_game "ABC123" "Ann" 2).
  apply (bool_decide_unpack _). by vm_compute.
Defined.

(** [dealRound] of server.js touches neither the roster nor the flag
    [gameStarted]; it gives the turn to the player whose index is the round
    number minus one, modulo the size of the roster. *)
Lemma dealPlayers_frame (n : nat) (todo : list string) (g g' : Server.Game)
    (r : Completion ()) :
  Server.dealPlayers n todo g = (g', r) →
  Server.gameStarted g' = Server.gameStarted g ∧
  Server.currentRound g' = Server.currentRound g ∧
  Server.players g' = Server.players g.
Proof.
  revert g. induction todo as [|p todo IH]; intros g; simpl.
  - by intros [= <- _].
  - destruct (Server.playerData g !! p); [|by intros [= <- _]].
    destruct (Server.dealHand n [] (Server.deck g)) as [h d].
    intros H%IH. done.
Qed.

Lemma Server_dealRound_frame (pick : Random) (g g' : Server.Game) :
  Server.dealRound pick g = (g', Normal ()) →
  Server.gameStarted g' = Server.gameStarted g ∧
  Server.hasDrawn g' = false ∧
  Server.currentPlayerIndex g'
  = ((Server.currentRound g - 1) `mod` length (Server.players g))%nat.
Proof.
  unfold Server.dealRound. destruct (Deck.deal (Deck.new pick)) as [c d]. cbv zeta.
  destruct (Server.dealPlayers _ _ _) as [g2 [[]|]] eqn:Hdeal; [|done].
  apply dealPlayers_frame in Hdeal as (Hs & Hr & Hps).
  intros [= <-].
  cbn [Server.gameStarted Server.hasDrawn Server.currentPlayerIndex
       Server.withHasDrawn Server.withCurrentPlayerIndex].
  split; [done|]. split; [done|].
  rewrite Hr, Hps. cbn [Server.currentRound Server.players Server.withDiscardPile Server.withDeck].
  case_decide as H1; [|done]. rewrite H1. simpl.
  destruct (length (Server.players g)); [done|]. by rewrite Nat.Div0.mod_0_l.
Qed.

Lemma startGame_started (pick : Random) (t : ServerLobby.Hosted) :
  let g := ServerLobby.game t in
  NoDup (Server.players g) →
  (∀ p, p ∈ Server.players g → is_Some (Server.playerData g !! p)) →
  (2 <= length (Server.players g))%nat →
  (length (Server.players g) * (10 + Server.currentRound g) + 1 <= 104)%nat →
  ∃ g', ServerLobby.startGame pick t = (ServerLobby.withGame g' t, Normal true) ∧
        Server.players g' = Server.players g ∧
        Server.gameStarted g' = true ∧
        Server.hasDrawn g' = false ∧
        Server.currentPlayerIndex g'
        = ((Server.currentRound g - 1) `mod` length (Server.players g))%nat ∧
        properlyDealt (Server.currentRound g) (Server.hands g')
          (Server.discardPile g') (Server.deck g').
Proof.
  cbv zeta. intros Hnd Hdata Htwo Hsize. unfold ServerLobby.startGame.
  rewrite decide_False by lia.
  destruct (Server_dealRound_properly pick (ServerLobby.withGameStarted true (ServerLobby.game t)))
    as (g' & Hdeal & Hps & Hr & Hdealt); [done..|].
  rewrite Hdeal. exists g'. split; [done|].
  apply Server_dealRound_frame in Hdeal as (Hs & Hd & Hi).
  split; [done|]. split; [done|]. split; [done|]. split; [done|]. done.
Qed.

(** X7.  [startGame] of server.js refuses a roster of fewer than two
    players and changes nothing.  With two or more distinct players, each
    with a record, whom the two decks can serve, it returns true: the game
    is started, every player holds [10 + round] cards, the discard pile one
    starter card, and hands, pile and stock are the 104 cards; nobody has
    drawn, and in round 1 the first player of the roster is to play. *)
Theorem startGame_deals (pick : Random) (t : ServerLobby.Hosted) :
  let g := ServerLobby.game t in
  NoDup (Server.players g) →
  (∀ p, p ∈ Server.players g → is_Some (Server.playerData g !! p)) →
  (length (Server.players g) * (10 + Server.currentRound g) + 1 <= 104)%nat →
  ((length (Server.players g) < 2)%nat → ServerLobby.startGame pick t = (t, Normal false)) ∧
  ((2 <= length (Server.players g))%nat →
   ∃ g', ServerLobby.startGame pick t = (ServerLobby.withGame g' t, Normal true) ∧
         Server.players g' = Server.players g ∧
         Server.gameStarted g' = true ∧
         Server.hasDrawn g' = false ∧
         (Server.currentRound g = 1%nat → Server.getCurrentPlayer g' = head (Server.players g)) ∧
         properlyDealt (Server.currentRound g) (Server.hands g')
           (Server.discardPile g') (Server.deck g')).
Proof.
  cbv zeta. intros Hnd Hdata Hsize. split.
  - intros Hfew. unfold ServerLobby.startGame. by rewrite decide_True.
  - intros Htwo.
    destruct (startGame_started pick t Hnd Hdata Htwo Hsize)
      as (g' & Hstart & Hps & Hs & Hd & Hi & Hdealt).
    exists g'. split; [done|]. split; [done|]. split; [done|]. split; [done|].
    split; [|done]. intros Hr. unfold Server.getCurrentPlayer.
    rewrite Hi, Hps, Hr. simpl.
    destruct (Server.players (ServerLobby.game t)) as [|p ps]; [done|].
    by rewrite Nat.Div0.mod_0_l.
Qed.

Lemma startGame_deals_witness :
  let t := (ServerLobby.addPlayer (ServerLobby.new "ABC123" "Ann" 2) "Ann").1 in
  let g := ServerLobby.game t in
  ((length (Server.players g) < 2)%nat → ServerLobby.startGame fixedPick t = (t, Normal false)) ∧
  ((2 <= length (Server.players g))%nat →
   ∃ g', ServerLobby.startGame fixedPick t = (ServerLobby.withGame g' t, Normal true) ∧
         Server.players g' = Server.players g ∧
         Server.gameStarted g' = true ∧
         Server.hasDrawn g' = false ∧
         (Server.currentRound g = 1%nat → Server.getCurrentPlayer g' = head (Server.players g)) ∧
         properlyDealt (Server.currentRound g) (Server.hands g')
           (Server.discardPile g') (Server.deck g')).
Proof.
  apply (startGame_deals fixedPick
           (ServerLobby.addPlayer (ServerLobby.new "ABC123" "Ann" 2) "Ann").1).
  - apply (bool_decide_unpack _). by vm_compute.
  - intros p Hp. apply (bool_decide_unpack _).
    apply list_elem_of_In in Hp. simpl in Hp.
    by destruct Hp as [<-|[<-|[<-|[]]]]; vm_compute.
  - vm_compute. lia.
Defined.

(** X8.  A game of server.js that its host starts with one to six AI
    opponents (the number [joinGame] allows), the name of the host not
    being the name of an AI player, is dealt as round 1 asks: the host and
    every AI player hold 11 cards, the discard pile holds one starter card,
    hands, pile and stock are the 104 cards, and the host plays first. *)
Theorem hosted_game_starts (pick : Random) (gameCode hostName : string) (parsed : option Z) :
  let aiCount := Z.to_nat (ServerLobby.sanitizedAiCount parsed) in
  let t := (ServerLobby.addPlayer (ServerLobby.new gameCode hostName aiCount) hostName).1 in
  (1 <= aiCount)%nat →
  hostName ∉ ServerLobby.aiName <$> seq 0 6 →
  ∃ g', ServerLobby.startGame pick t = (ServerLobby.withGame g' t, Normal true) ∧
        Server.players g' = hostName :: (ServerLobby.aiName <$> seq 0 aiCount) ∧
        (length (Server.players g') <= 7)%nat ∧
        Server.gameStarted g' = true ∧
        Server.getCurrentPlayer g' = Some hostName ∧
        properlyDealt 1 (Server.hands g') (Server.discardPile g') (Server.deck g').
Proof.
  cbv zeta. intros Hone Hhost.
  assert (Hsix : (Z.to_nat (ServerLobby.sanitizedAiCount parsed) <= 6)%nat).
  { unfold ServerLobby.sanitizedAiCount. lia. }
  set (n := Z.to_nat (ServerLobby.sanitizedAiCount parsed)) in *.
  destruct (host_seated gameCode hostName n) as (g & -> & Hps & Hnd & Hdata & Hr).
  { intros (i & -> & Hi%elem_of_seq)%list_elem_of_fmap. apply Hhost.
    apply list_elem_of_fmap. exists i. split; [done|]. apply elem_of_seq. lia. }
  cbn [fst].
  assert (Hlen : length (Server.players g) = S n).
  { by rewrite Hps; simpl; rewrite length_fmap, length_seq. }
  destruct (startGame_started pick (ServerLobby.withGame g (ServerLobby.new gameCode hostName n)))
    as (g' & Hstart & Hps' & Hs & Hd & Hi & Hdealt).
  - done.
  - cbn [ServerLobby.game ServerLobby.withGame]. intros p Hp.
    rewrite (Hdata p Hp). by eexists.
  - cbn [ServerLobby.game ServerLobby.withGame]. lia.
  - cbn [ServerLobby.game ServerLobby.withGame]. rewrite Hlen, Hr. lia.
  - cbn [ServerLobby.game ServerLobby.withGame] in *.
    exists g'. split; [done|]. rewrite Hps', Hps. split; [done|].
    split; [simpl; rewrite length_fmap, length_seq; lia|]. split; [done|].
    split; [|by rewrite Hr in Hdealt].
    unfold Server.getCurrentPlayer. rewrite Hi, Hps', Hr, Hps.
    change (1 - 1)%nat with 0%nat. by rewrite Nat.Div0.mod_0_l.
Qed.

Lemma hosted_game_starts_witness :
  let aiCount := Z.to_nat (ServerLobby.sanitizedAiCount (Some 2)) in
  let t := (ServerLobby.addPlayer (ServerLobby.new "ABC123" "Ann" aiCount) "Ann").1 in
  ∃ g', ServerLobby.startGame fixedPick t = (ServerLobby.withGame g' t, Normal true) ∧
        Server.players g' = "Ann" :: (ServerLobby.aiName <$> seq 0 aiCount) ∧
        (length (Server.players g') <= 7)%nat ∧
        Server.gameStarted g' = true ∧
        Server.getCurrentPlayer g' = Some "Ann" ∧
        properlyDealt 1 (Server.hands g') (Server.discardPile g') (Server.deck g').
Proof.
  apply (hosted_game_starts fixedPick "ABC123" "Ann" (Some 2)).
  - vm_compute. lia.
  - apply (bool_decide_unpack _). by vm_compute.
Defined.

(** * The rate limiter of a connection *)

Lemma accepted_after_last (socketId : string) (rateLimiter : gmap string Z)
    (calls : list (Z * string)) (t : Z) (e : string) :
  (t, e) ∈ ServerLobby.accepted socketId rateLimiter calls →
  default 0 (rateLimiter !! (socketId +:+ "_" +:+ e)) + 100 <= t.
Proof.
  revert rateLimiter. induction calls as [|[now event] calls IH]; intros rateLimiter.
  { by intros ?%elem_of_nil. }
  cbn [ServerLobby.accepted]. unfold ServerLobby.checkRateLimit. cbv zeta.
  case_decide as Hnow; [apply IH|].
  rewrite elem_of_cons. intros [[= -> ->]|Hin]; [lia|].
  apply IH in Hin. destruct (decide (event = e)) as [->|Hne].
  - rewrite lookup_insert_eq in Hin. simpl in Hin. lia.
  - rewrite lookup_insert_ne in Hin; [done|].
    intros Heq. apply Hne. by do 2 apply (inj (String.app _)) in Heq.
Qed.

(** X9.  The rate limiter of a connection of server.js keeps two accepted
    calls of the same event at least 100 ms apart: of the calls it lets
    through, in their order, a later one of an event carries a time at least
    100 above that of any earlier one of the same event. *)
Theorem rate_limit_spacing (socketId : string) (rateLimiter : gmap string Z)
    (calls : list (Z * string)) (i j : nat) (t1 t2 : Z) (event : string) :
  (i < j)%nat →
  ServerLobby.accepted socketId rateLimiter calls !! i = Some (t1, event) →
  ServerLobby.accepted socketId rateLimiter calls !! j = Some (t2, event) →
  t1 + 100 <= t2.
Proof.
  revert rateLimiter i j.
  induction calls as [|[now e] calls IH]; intros rateLimiter i j Hij; [done|].
  cbn [ServerLobby.accepted].
  destruct (ServerLobby.checkRateLimit socketId rateLimiter now e) as [rl' pass] eqn:Hcheck.
  destruct pass; [|by apply IH].
  destruct i as [|i], j as [|j]; try lia; simpl.
  - intros [= -> ->] Hj. apply list_elem_of_lookup_2, accepted_after_last in Hj.
    unfold ServerLobby.checkRateLimit in Hcheck. cbv zeta in Hcheck.
    case_decide; [done|]. injection Hcheck as <-.
    rewrite lookup_insert_eq in Hj. simpl in Hj. lia.
  - apply IH. lia.
Qed.

Lemma rate_limit_spacing_witness :
  ServerLobby.accepted "s1" ∅
    [(1000, "drawCard"); (1040, "drawCard"); (1050, "makeMeld"); (1100, "drawCard")]
  = [(1000, "drawCard"); (1050, "makeMeld"); (1100, "drawCard")] ∧
  1000 + 100 <= 1100.
Proof.
  split; [by vm_compute|].
  apply (rate_limit_spacing "s1" ∅
           [(1000, "drawCard"); (1040, "drawCard"); (1050, "makeMeld"); (1100, "drawCard")]
           0 2 1000 1100 "drawCard").
  - lia.
  - by vm_compute.
  - by vm_compute.
Defined.

(** * The roster of part_003 *)

Lemma indexOf_spec (ps : list string) (name : string) :
  match Part003Lobby.indexOf ps name with
  | Some k => ps !! k = Some name ∧ ∀ j, (j < k)%nat → ps !! j ≠ Some name
  | None => name ∉ ps
  end.
Proof.
  induction ps as [|p ps IH]; simpl; [apply not_elem_of_nil|].
  case_decide as Hp.
  - subst p. split; [done|]. intros j Hj. lia.
  - destruct (Part003Lobby.indexOf ps name) as [k|]; simpl.
    + destruct IH as [Hk Hfirst]. split; [done|].
      intros [|j] Hj; simpl; [congruence|]. apply Hfirst. lia.
    + by apply not_elem_of_cons.
Qed.

(** The cards of a roster after one seat has been taken away, its entries
    deleted from the map. *)
Lemma gather_delete {V} (F : V → list slot) (ps : list string) (m : gmap string V)
    (name : string) (k : nat) :
  NoDup ps → ps !! k = Some name →
  (delete k ps ≫= fun q => from_option F [] (delete name m !! q))
  ++ from_option F [] (m !! name)
  ≡ₚ ps ≫= fun q => from_option F [] (m !! q).
Proof.
  intros Hnd Hk.
  rewrite <-(take_drop_middle ps k name Hk) at 2.
  rewrite bind_app, bind_cons. rewrite delete_take_drop, bind_app.
  rewrite <-(take_drop_middle ps k name Hk) in Hnd.
  apply NoDup_app in Hnd as (_ & Hleft & Hright). apply NoDup_cons in Hright as [Hright _].
  rewrite (Forall_bind_ext (fun q => from_option F [] (delete name m !! q))
             (fun q => from_option F [] (m !! q)) (take k ps)); last first.
  { apply Forall_forall. intros q Hq. rewrite lookup_delete_ne; [done|].
    intros <-. by apply (Hleft name); [|left]. }
  rewrite (Forall_bind_ext (fun q => from_option F [] (delete name m !! q))
             (fun q => from_option F [] (m !! q)) (drop (S k) ps)); last first.
  { apply Forall_forall. intros q Hq. rewrite lookup_delete_ne; [done|]. by intros <-. }
  rewrite <-!app_assoc. f_equiv. apply Permutation_app_comm.
Qed.

(** X10.  [removePlayer] of part_003 returns false for a name that is not
    seated and changes nothing.  For a seated name it removes the first seat
    of that name and the player's hand, melds, buys, scores and AI entry,
    and nothing else: the entries of the others stay, the cards of the
    leaver are no longer on the table, and [currentPlayerIndex] and the turn
    state are not adjusted, so that the turn moves to the next player when
    the leaver sat at or before the current index. *)
Theorem removePlayer_effect (t : Part003Lobby.Hosted) (name : string) :
  let g := Part003Lobby.game t in
  let '(t', removed) := Part003Lobby.removePlayer t name in
  let g' := Part003Lobby.game t' in
  (name ∉ Part003.players g → removed = false ∧ t' = t) ∧
  (name ∈ Part003.players g →
   removed = true ∧
   ∃ k, Part003.players g !! k = Some name ∧
        (∀ j, (j < k)%nat → Part003.players g !! j ≠ Some name) ∧
        Part003.players g' = delete k (Part003.players g) ∧
        Part003.playerHands g' = delete name (Part003.playerHands g) ∧
        Part003.playerMelds g' = delete name (Part003.playerMelds g) ∧
        Part003.playerBuys g' = delete name (Part003.playerBuys g) ∧
        Part003.playerScores g' = delete name (Part003.playerScores g) ∧
        Part003Lobby.aiPlayers t' = delete name (Part003Lobby.aiPlayers t) ∧
        Part003.currentPlayerIndex g' = Part003.currentPlayerIndex g ∧
        Part003.hasDrawn g' = Part003.hasDrawn g ∧
        Part003.getCurrentPlayer g'
        = Part003.players g !! (if decide (k <= Part003.currentPlayerIndex g)%nat
                                then S (Part003.currentPlayerIndex g)
                                else Part003.currentPlayerIndex g) ∧
        (NoDup (Part003.players g) →
         Part003.tableCards g'
         ++ default [] (Part003.playerHands g !! name)
         ++ (default [] (Part003.playerMelds g !! name) ≫= cards)
         ≡ₚ Part003.tableCards g)).
Proof.
  cbv zeta. unfold Part003Lobby.removePlayer.
  pose proof (indexOf_spec (Part003.players (Part003Lobby.game t)) name) as Hidx.
  destruct (Part003Lobby.indexOf _ name) as [k|].
  - destruct Hidx as [Hk Hfirst]. split.
    { intros Hnot. destruct Hnot. by eapply list_elem_of_lookup_2. }
    intros _. split; [done|]. exists k.
    cbn [Part003Lobby.game Part003Lobby.aiPlayers Part003.players Part003.playerHands
         Part003.playerMelds Part003.playerBuys Part003.playerScores
         Part003.currentPlayerIndex Part003.hasDrawn].
    do 10 (split; [done|]). split.
    + unfold Part003.getCurrentPlayer. cbn [Part003.players Part003.currentPlayerIndex].
      case_decide.
      * by rewrite list_lookup_delete_ge by lia.
      * by rewrite list_lookup_delete_lt by lia.
    + intros Hnd. unfold Part003.tableCards, Part003.handCards.
      rewrite !meldCards_gather.
      cbn [Part003.players Part003.playerHands Part003.playerMelds Part003.discardPile
           Part003.deck].
      set (ps := Part003.players (Part003Lobby.game t)) in *.
      set (hs := Part003.playerHands (Part003Lobby.game t)).
      set (ms := Part003.playerMelds (Part003Lobby.game t)).
      rewrite <-(gather_delete id ps hs name k Hnd Hk).
      rewrite <-(gather_delete (fun l : list Meld => l ≫= cards) ps ms name k Hnd Hk).
      assert (Hm : from_option (fun l : list Meld => l ≫= cards) [] (ms !! name)
                   = default [] (ms !! name) ≫= cards) by (by destruct (ms !! name)).
      rewrite Hm. simpl. rewrite <-!app_assoc. f_equiv.
      solve_Permutation.
  - split; [done|]. intros Hin. done.
Qed.

Lemma indexOf_snoc (ps : list string) (name : string) :
  name ∉ ps → Part003Lobby.indexOf (ps ++ [name]) name = Some (length ps).
Proof.
  induction ps as [|p ps IH]; simpl.
  - intros _. by rewrite decide_True.
  - rewrite not_elem_of_cons. intros [Hne Hnot].
    rewrite decide_False by done. by rewrite IH.
Qed.

(** X11.  In part_003 a player who joins and leaves again leaves no trace:
    for a name that is not seated and has no entry in the maps of the game,
    [addPlayer] followed by [removePlayer] returns true twice and gives back
    the game as it was. *)
Theorem addPlayer_removePlayer (t : Part003Lobby.Hosted) (name : string) :
  name ∉ Part003.players (Part003Lobby.game t) →
  Part003.playerHands (Part003Lobby.game t) !! name = None →
  Part003.playerMelds (Part003Lobby.game t) !! name = None →
  Part003.playerBuys (Part003Lobby.game t) !! name = None →
  Part003.playerScores (Part003Lobby.game t) !! name = None →
  Part003Lobby.aiPlayers t !! name = None →
  let '(t1, joined) := Part003Lobby.addPlayer t name in
  let '(t2, removed) := Part003Lobby.removePlayer t1 name in
  joined = true ∧ removed = true ∧ t2 = t ∧
  Part003.players (Part003Lobby.game t1) = Part003.players (Part003Lobby.game t) ++ [name] ∧
  Part003.playerScores (Part003Lobby.game t1) !! name = Some (replicate 7 0).
Proof.
  intros Hnot Hh Hm Hb Hs Hai. unfold Part003Lobby.addPlayer.
  rewrite decide_False by done. unfold Part003Lobby.removePlayer.
  cbn [Part003Lobby.game Part003Lobby.withGame].
  change (Part003.players (Part003Lobby.seat (Part003Lobby.game t) name))
    with (Part003.players (Part003Lobby.game t) ++ [name]).
  rewrite indexOf_snoc by done.
  split; [done|]. split; [done|]. split; [|split; [done|]].
  - destruct t as [code host ai g]. destruct g. simpl in *.
    unfold Part003Lobby.seat; simpl. f_equal.
    + by apply delete_id.
    + f_equal.
      * rewrite delete_take_drop, take_app_length.
        rewrite drop_ge by (rewrite length_app; simpl; lia). apply app_nil_r.
      * by apply delete_id.
      * by apply delete_id.
      * by apply delete_id.
      * by apply delete_insert_id.
  - unfold Part003Lobby.seat. cbn [Part003.playerScores Part003.withPlayerScores].
    by rewrite lookup_insert_eq.
Qed.

Lemma addPlayer_removePlayer_witness :
  let t := Part003Lobby.new (fun _ => 0%nat) "ABC123" "Ann" 2 in
  let '(t1, joined) := Part003Lobby.addPlayer t "Ann" in
  let '(t2, removed) := Part003Lobby.removePlayer t1 "Ann" in
  joined = true ∧ removed = true ∧ t2 = t ∧
  Part003.players (Part003Lobby.game t1) = Part003.players (Part003Lobby.game t) ++ ["Ann"] ∧
  Part003.playerScores (Part003Lobby.game t1) !! "Ann" = Some (replicate 7 0).
Proof.
  apply (addPlayer_removePlayer (Part003Lobby.new (fun _ => 0%nat) "ABC123" "Ann" 2) "Ann").
  - apply (bool_decide_unpack _). by vm_compute.
  - by vm_compute.
  - by vm_compute.
  - by vm_compute.
  - by vm_compute.
  - by vm_compute.
Defined.

(** * Whose turn it is *)

Lemma Part003_nextTurn_iter (g : Part003.Game) (k : nat) :
  Part003.players g ≠ [] →
  Part003.players (Nat.iter k Part003.nextTurn g) = Part003.players g ∧
  Part003.currentPlayerIndex (Nat.iter k Part003.nextTurn g)
  = (if k is O then Part003.currentPlayerIndex g
     else (Part003.currentPlayerIndex g + k) `mod` length (Part003.players g))%nat.
Proof.
  intros Hps. induction k as [|k [IH1 IH2]]; [done|].
  change (Nat.iter (S k) Part003.nextTurn g) with (Part003.nextTurn (Nat.iter k Part003.nextTurn g)).
  set (g0 := Nat.iter k Part003.nextTurn g) in *.
  change (Part003.players (Part003.nextTurn g0)) with (Part003.players g0).
  change (Part003.currentPlayerIndex (Part003.nextTurn g0))
    with ((Part003.currentPlayerIndex g0 + 1) `mod` length (Part003.players g0))%nat.
  split; [done|]. rewrite IH1, IH2.
  assert (length (Part003.players g) ≠ 0%nat) by (by destruct (Part003.players g)).
  destruct k as [|k]; [done|].
  rewrite Nat.Div0.add_mod_idemp_l. f_equal. lia.
Qed.

Lemma Server_nextTurn_iter (g : Server.Game) (k : nat) :
  Server.players g ≠ [] →
  Server.players (Nat.iter k Server.nextTurn g) = Server.players g ∧
  Server.currentPlayerIndex (Nat.iter k Server.nextTurn g)
  = (if k is O then Server.currentPlayerIndex g
     else (Server.currentPlayerIndex g + k) `mod` length (Server.players g))%nat.
Proof.
  intros Hps. induction k as [|k [IH1 IH2]]; [done|].
  change (Nat.iter (S k) Server.nextTurn g) with (Server.nextTurn (Nat.iter k Server.nextTurn g)).
  set (g0 := Nat.iter k Server.nextTurn g) in *.
  change (Server.players (Server.nextTurn g0)) with (Server.players g0).
  change (Server.currentPlayerIndex (Server.nextTurn g0))
    with ((Server.currentPlayerIndex g0 + 1) `mod` length (Server.players g0))%nat.
  split; [done|]. rewrite IH1, IH2.
  assert (length (Server.players g) ≠ 0%nat) by (by destruct (Server.players g)).
  destruct k as [|k]; [done|].
  rewrite Nat.Div0.add_mod_idemp_l. f_equal. lia.
Qed.

(** X12.  [nextTurn] goes round the roster, in server.js and in part_003:
    with the current index inside a non-empty roster, after [k] calls the
    turn is with the player [k] seats further on, wrapping around, so after
    as many calls as there are players it is with the same player again;
    and after a call nobody has drawn. *)
Theorem nextTurn_round_robin (s : Server.Game) (g : Part003.Game) (k : nat) :
  (Server.currentPlayerIndex s < length (Server.players s))%nat →
  (Part003.currentPlayerIndex g < length (Part003.players g))%nat →
  Server.getCurrentPlayer (Nat.iter k Server.nextTurn s)
  = Server.players s !! ((Server.currentPlayerIndex s + k) `mod` length (Server.players s))%nat ∧
  Part003.getCurrentPlayer (Nat.iter k Part003.nextTurn g)
  = Part003.players g !! ((Part003.currentPlayerIndex g + k) `mod` length (Part003.players g))%nat ∧
  Server.getCurrentPlayer (Nat.iter (length (Server.players s)) Server.nextTurn s)
  = Server.getCurrentPlayer s ∧
  Part003.getCurrentPlayer (Nat.iter (length (Part003.players g)) Part003.nextTurn g)
  = Part003.getCurrentPlayer g ∧
  Server.hasDrawn (Server.nextTurn s) = false ∧
  Part003.hasDrawn (Part003.nextTurn g) = false.
Proof.
  intros Hs Hg.
  assert (Hs' : Server.players s ≠ []) by (destruct (Server.players s); [simpl in Hs; lia|done]).
  assert (Hg' : Part003.players g ≠ []) by (destruct (Part003.players g); [simpl in Hg; lia|done]).
  assert (Hgen_s : ∀ n, Server.getCurrentPlayer (Nat.iter n Server.nextTurn s)
    = Server.players s !! ((Server.currentPlayerIndex s + n) `mod` length (Server.players s))%nat).
  { intros n. unfold Server.getCurrentPlayer.
    destruct (Server_nextTurn_iter s n Hs') as [-> ->]. destruct n; [|done].
    by rewrite Nat.add_0_r, Nat.mod_small. }
  assert (Hgen_g : ∀ n, Part003.getCurrentPlayer (Nat.iter n Part003.nextTurn g)
    = Part003.players g !! ((Part003.currentPlayerIndex g + n) `mod` length (Part003.players g))%nat).
  { intros n. unfold Part003.getCurrentPlayer.
    destruct (Part003_nextTurn_iter g n Hg') as [-> ->]. destruct n; [|done].
    by rewrite Nat.add_0_r, Nat.mod_small. }
  split; [apply Hgen_s|]. split; [apply Hgen_g|]. split; [|split; [|done]].
  - rewrite Hgen_s. unfold Server.getCurrentPlayer. f_equal.
    rewrite <-Nat.Div0.add_mod_idemp_r, Nat.Div0.mod_same, Nat.add_0_r.
    by apply Nat.mod_small.
  - rewrite Hgen_g. unfold Part003.getCurrentPlayer. f_equal.
    rewrite <-Nat.Div0.add_mod_idemp_r, Nat.Div0.mod_same, Nat.add_0_r.
    by apply Nat.mod_small.
Qed.

Lemma nextTurn_round_robin_witness :
  let s := ServerGames.threeHumans in
  let g := Part003Games.finished in
  Server.getCurrentPlayer (Nat.iter 5 Server.nextTurn s)
  = Server.players s !! ((Server.currentPlayerIndex s + 5) `mod` length (Server.players s))%nat ∧
  Part003.getCurrentPlayer (Nat.iter 5 Part003.nextTurn g)
  = Part003.players g !! ((Part003.currentPlayerIndex g + 5) `mod` length (Part003.players g))%nat ∧
  Server.getCurrentPlayer (Nat.iter (length (Server.players s)) Server.nextTurn s)
  = Server.getCurrentPlayer s ∧
  Part003.getCurrentPlayer (Nat.iter (length (Part003.players g)) Part003.nextTurn g)
  = Part003.getCurrentPlayer g ∧
  Server.hasDrawn (Server.nextTurn s) = false ∧
  Part003.hasDrawn (Part003.nextTurn g) = false.
Proof.
  apply (nextTurn_round_robin ServerGames.threeHumans Part003Games.finished 5).
  - vm_compute. lia.
  - vm_compute. lia.
Defined.

(** * The phases of a turn in part_003 *)

(** What a successful draw from the stock leaves behind. *)
Lemma Part003_drawCard_ok (pick : Random) (g g' : Part003.Game) (p : string) (r : Reply) :
  Part003.drawCard pick g p = (g', Normal r) → success r = true →
  Part003.getCurrentPlayer g = Some p ∧ Part003.hasDrawn g = false ∧
  Part003.hasDrawn g' = true ∧
  Part003.players g' = Part003.players g ∧
  Part003.currentPlayerIndex g' = Part003.currentPlayerIndex g ∧
  ∃ hand c, Part003.playerHands g !! p = Some hand ∧
            Part003.playerHands g' = <[p := hand ++ [c]]> (Part003.playerHands g) ∧
            card r = Some c.
Proof.
  unfold Part003.drawCard.
  destruct (decide _) as [|Hturn]; [by intros [= _ <-]|].
  assert (Hcur : Part003.getCurrentPlayer g = Some p ∧ Part003.hasDrawn g = false).
  { split; [apply dec_stable; tauto|]. destruct (Part003.hasDrawn g); [tauto|done]. }
  destruct Hcur as [Hcur Hdrawn].
  set (recycled := if Deck.isEmpty (Part003.deck g) then _ else _).
  assert (Hrec : ∀ g1, recycled = Some g1 →
            Part003.players g1 = Part003.players g ∧
            Part003.currentPlayerIndex g1 = Part003.currentPlayerIndex g ∧
            Part003.playerHands g1 = Part003.playerHands g).
  { intros g1. unfold recycled. destruct (Deck.isEmpty _).
    - case_decide; [done|]. destruct (pop _) as [top rest]. by intros [= <-].
    - by intros [= <-]. }
  destruct recycled as [g1|]; [|by intros [= _ <-]].
  destruct (Hrec g1 eq_refl) as (Hps & Hidx & Hhands).
  destruct (Deck.deal (Part003.deck g1)) as [c d]. unfold Part003.pushToHand.
  cbn [Part003.playerHands Part003.withDeck]. rewrite Hhands.
  destruct (Part003.playerHands g !! p) as [hand|] eqn:Hhand; [|done].
  intros [= <- <-] _.
  cbn [Part003.hasDrawn Part003.players Part003.currentPlayerIndex Part003.playerHands
       Part003.withHasDrawn Part003.setHand Part003.withPlayerHands Part003.withDeck].
  rewrite Hhands. do 5 (split; [done|]). by exists hand, c.
Qed.

Lemma Part003_pickUpDiscard_ok (g g' : Part003.Game) (p : string) (r : Reply) :
  Part003.pickUpDiscard g p = (g', Normal r) → success r = true →
  Part003.getCurrentPlayer g = Some p ∧ Part003.hasDrawn g = false ∧
  Part003.hasDrawn g' = true ∧
  Part003.players g' = Part003.players g ∧
  Part003.currentPlayerIndex g' = Part003.currentPlayerIndex g ∧
  ∃ hand c pile, Part003.playerHands g !! p = Some hand ∧
                 Part003.discardPile g = pile ++ [c] ∧
                 Part003.playerHands g' = <[p := hand ++ [c]]> (Part003.playerHands g) ∧
                 Part003.discardPile g' = pile ∧
                 Part003.deck g' = Part003.deck g ∧
                 card r = Some c.
Proof.
  unfold Part003.pickUpDiscard.
  destruct (decide _) as [|Hturn]; [by intros [= _ <-]|].
  assert (Hcur : Part003.getCurrentPlayer g = Some p ∧ Part003.hasDrawn g = false).
  { split; [apply dec_stable; tauto|]. destruct (Part003.hasDrawn g); [tauto|done]. }
  destruct Hcur as [Hcur Hdrawn].
  destruct (decide (length (Part003.discardPile g) = 0%nat)) as [|Hlen];
    [by intros [= _ <-]|].
  pose proof (pop_nonempty (Part003.discardPile g) ltac:(lia)) as Hpile.
  destruct (pop (Part003.discardPile g)) as [c pile]. simpl in Hpile.
  unfold Part003.pushToHand. cbn [Part003.playerHands Part003.withDiscardPile].
  destruct (Part003.playerHands g !! p) as [hand|] eqn:Hhand; [|done].
  destruct (prop display c) eqn:Hdisp; simpl; [|done].
  intros [= <- <-] _.
  cbn [Part003.hasDrawn Part003.players Part003.currentPlayerIndex Part003.playerHands
       Part003.discardPile Part003.deck
       Part003.withHasDrawn Part003.setHand Part003.withPlayerHands Part003.withDiscardPile].
  do 5 (split; [done|]). by exists hand, c, pile.
Qed.

(** X13.  One draw per turn in part_003: after a successful [drawCard] or
    [pickUpDiscard] the turn is still with the same player, who has now
    drawn, and every further [drawCard] or [pickUpDiscard], by anyone, fails
    and leaves the game as it is. *)
Theorem one_draw_per_turn (pick pick' : Random) (g g' : Part003.Game) (p q : string)
    (r : Reply) :
  Part003.drawCard pick g p = (g', Normal r) ∨ Part003.pickUpDiscard g p = (g', Normal r) →
  success r = true →
  Part003.getCurrentPlayer g' = Some p ∧
  Part003.hasDrawn g' = true ∧
  Part003.drawCard pick' g' q = (g', Normal (failure "Not your turn or already drawn")) ∧
  Part003.pickUpDiscard g' q = (g', Normal (failure "Not your turn or already drawn")).
Proof.
  intros Hcall Hok.
  assert (H : Part003.getCurrentPlayer g' = Some p ∧ Part003.hasDrawn g' = true).
  { unfold Part003.getCurrentPlayer.
    destruct Hcall as [Hcall|Hcall].
    - destruct (Part003_drawCard_ok _ _ _ _ _ Hcall Hok) as (Hcur & _ & Hd & -> & -> & _).
      done.
    - destruct (Part003_pickUpDiscard_ok _ _ _ _ Hcall Hok) as (Hcur & _ & Hd & -> & -> & _).
      done. }
  destruct H as [Hcur Hdrawn]. split; [done|]. split; [done|].
  unfold Part003.drawCard, Part003.pickUpDiscard.
  rewrite !decide_True by (by right). done.
Qed.

Lemma one_draw_per_turn_witness :
  let g := Part003Games.freshDeal in
  let g' := (Part003.drawCard fixedPick g "A").1 in
  Part003.getCurrentPlayer g' = Some "A" ∧
  Part003.hasDrawn g' = true ∧
  Part003.drawCard fixedPick g' "B" = (g', Normal (failure "Not your turn or already drawn")) ∧
  Part003.pickUpDiscard g' "B" = (g', Normal (failure "Not your turn or already drawn")).
Proof.
  apply (one_draw_per_turn fixedPick fixedPick Part003Games.freshDeal
           (Part003.drawCard fixedPick Part003Games.freshDeal "A").1 "A" "B"
           (okCard (one clubs R4))).
  - left. by vm_compute.
  - done.
Defined.

(** X14.  A discard of part_003 that is accepted and does not end the
    round was made by the current player after drawing; it moves the card
    at the index from the hand to the top of the discard pile and passes the
    turn to the next seat, where nobody has drawn. *)
Theorem discard_passes_the_turn (pick : Random) (g g' : Part003.Game) (p : string)
    (cardIndex : Z) (r : Reply) :
  Part003.discardCard pick g p cardIndex = (g', Normal r) →
  success r = true → roundResult r = None →
  Part003.getCurrentPlayer g = Some p ∧ Part003.hasDrawn g = true ∧
  ∃ hand c,
    Part003.playerHands g !! p = Some hand ∧
    0 <= cardIndex ∧ hand !! Z.to_nat cardIndex = Some c ∧
    card r = Some c ∧
    Part003.playerHands g' = <[p := delete (Z.to_nat cardIndex) hand]> (Part003.playerHands g) ∧
    Part003.discardPile g' = Part003.discardPile g ++ [c] ∧
    Part003.deck g' = Part003.deck g ∧
    Part003.players g' = Part003.players g ∧
    Part003.currentPlayerIndex g'
    = ((Part003.currentPlayerIndex g + 1) `mod` length (Part003.players g))%nat ∧
    Part003.hasDrawn g' = false.
Proof.
  unfold Part003.discardCard.
  destruct (decide _) as [|Hturn]; [by intros [= _ <-]|].
  assert (Hcur : Part003.getCurrentPlayer g = Some p ∧ Part003.hasDrawn g = true).
  { split; [apply dec_stable; tauto|]. destruct (Part003.hasDrawn g); [done|tauto]. }
  destruct (Part003.playerHands g !! p) as [hand|] eqn:Hhand; [|done].
  destruct (decide (cardIndex < 0 ∨ _)) as [|Hrange]; [by intros [= _ <-]|].
  unfold splice1. rewrite spliceStart_in_range by lia.
  destruct (lookup_lt_is_Some_2 hand (Z.to_nat cardIndex)) as [c Hc]; [lia|].
  rewrite Hc. cbn [mjoin option_join].
  destruct (decide (length (delete (Z.to_nat cardIndex) hand) = 0%nat)).
  - destruct (Part003.validatePlayerMeetsRoundRequirements _ p) as [[|]|]; [| |done].
    + destruct (Part003.endRound _ _ _) as [g2 [res|]]; [|done].
      by intros [= _ <-].
    + intros [= _ Hr] Hok. destruct (Part003.cannotGoOut _); by simplify_eq/=.
  - intros [= <- <-] _ _. destruct Hcur as [Hcur Hdrawn].
    split; [done|]. split; [done|]. exists hand, c.
    cbn [Part003.playerHands Part003.discardPile Part003.deck Part003.players
         Part003.currentPlayerIndex Part003.hasDrawn Part003.nextTurn
         Part003.withHasDrawn Part003.withCurrentPlayerIndex Part003.withDiscardPile
         Part003.setHand Part003.withPlayerHands card okCard].
    split; [done|]. split; [lia|]. done.
Qed.

Lemma discard_passes_the_turn_witness :
  let g := Part003Games.goneDown in
  let g' := (Part003.discardCard fixedPick g "A" 1).1 in
  Part003.getCurrentPlayer g = Some "A" ∧ Part003.hasDrawn g = true ∧
  ∃ hand c,
    Part003.playerHands g !! "A" = Some hand ∧
    0 <= 1 ∧ hand !! Z.to_nat 1 = Some c ∧
    card (okCard (one hearts RK)) = Some c ∧
    Part003.playerHands g' = <[ "A" := delete (Z.to_nat 1) hand]> (Part003.playerHands g) ∧
    Part003.discardPile g' = Part003.discardPile g ++ [c] ∧
    Part003.deck g' = Part003.deck g ∧
    Part003.players g' = Part003.players g ∧
    Part003.currentPlayerIndex g'
    = ((Part003.currentPlayerIndex g + 1) `mod` length (Part003.players g))%nat ∧
    Part003.hasDrawn g' = false.
Proof.
  apply (discard_passes_the_turn fixedPick Part003Games.goneDown
           (Part003.discardCard fixedPick Part003Games.goneDown "A" 1).1 "A" 1
           (okCard (one hearts RK))).
  - by vm_compute.
  - done.
  - done.
Defined.

(** Two games with the same fields are the same game. *)
Lemma Part003_game_ext (g1 g2 : Part003.Game) :
  Part003.players g1 = Part003.players g2 →
  Part003.playerHands g1 = Part003.playerHands g2 →
  Part003.playerMelds g1 = Part003.playerMelds g2 →
  Part003.playerBuys g1 = Part003.playerBuys g2 →
  Part003.playerScores g1 = Part003.playerScores g2 →
  Part003.currentRound g1 = Part003.currentRound g2 →
  Part003.currentPlayerIndex g1 = Part003.currentPlayerIndex g2 →
  Part003.deck g1 = Part003.deck g2 →
  Part003.discardPile g1 = Part003.discardPile g2 →
  Part003.hasDrawn g1 = Part003.hasDrawn g2 →
  Part003.gameStarted g1 = Part003.gameStarted g2 →
  g1 = g2.
Proof. destruct g1, g2. simpl. by intros -> -> -> -> -> -> -> -> -> -> ->. Qed.

(** The two calls of the round trip, as equations. *)
Lemma pickUp_eq (g : Part003.Game) (p : string) (hand pile : list slot) (c : Card) :
  Part003.getCurrentPlayer g = Some p →
  Part003.hasDrawn g = false →
  Part003.playerHands g !! p = Some hand →
  Part003.discardPile g = pile ++ [Some c] →
  Part003.pickUpDiscard g p
  = (Part003.withHasDrawn true (Part003.setHand p (push hand (Some c))
                                   (Part003.withDiscardPile pile g)),
     Normal (okCard (Some c))).
Proof.
  intros Hcur Hdrawn Hhand Hpile. unfold Part003.pickUpDiscard.
  rewrite decide_False by (intros [?|?]; congruence).
  rewrite decide_False by (rewrite Hpile, length_app; simpl; lia).
  rewrite Hpile. change (pile ++ [Some c]) with (push pile (Some c)). rewrite pop_push.
  unfold Part003.pushToHand. cbn [Part003.playerHands Part003.withDiscardPile].
  by rewrite Hhand.
Qed.

Lemma discard_last_eq (pick : Random) (g : Part003.Game) (p : string) (hand : list slot) (c : slot) :
  Part003.getCurrentPlayer g = Some p →
  Part003.hasDrawn g = true →
  Part003.playerHands g !! p = Some (push hand c) →
  hand ≠ [] →
  Part003.discardCard pick g p (Z.of_nat (length hand))
  = (Part003.nextTurn (Part003.withDiscardPile (push (Part003.discardPile g) c)
                         (Part003.setHand p hand g)),
     Normal (okCard c)).
Proof.
  intros Hcur Hdrawn Hhand Hne. unfold Part003.discardCard.
  rewrite decide_False by (intros [?|?]; congruence).
  rewrite Hhand.
  assert (Hlen : length (push hand c) = S (length hand)).
  { unfold push. rewrite length_app. simpl. lia. }
  assert (Hsp : splice1 (push hand c) (Z.of_nat (length hand)) = (c, hand)).
  { unfold splice1. rewrite spliceStart_in_range by lia. rewrite Nat2Z.id. unfold push.
    rewrite lookup_app_r, Nat.sub_diag by lia. simpl.
    rewrite delete_take_drop, take_app_length.
    rewrite drop_ge by (rewrite length_app; simpl; lia). by rewrite app_nil_r. }
  rewrite decide_False by lia. rewrite Hsp.
  by rewrite decide_False by (destruct hand; [done|simpl; lia]).
Qed.

(** X15.  In part_003 picking up the top discard and discarding it again
    (it is the last card of the hand) gives back the same card and passes
    the turn: but for the turn, the game is as it was. *)
Theorem pickUp_then_discard_back (pick : Random) (g : Part003.Game) (p : string)
    (hand pile : list slot) (c : Card) :
  Part003.getCurrentPlayer g = Some p →
  Part003.hasDrawn g = false →
  Part003.playerHands g !! p = Some hand →
  hand ≠ [] →
  Part003.discardPile g = pile ++ [Some c] →
  let '(g1, r1) := Part003.pickUpDiscard g p in
  let '(g2, r2) := Part003.discardCard pick g1 p (Z.of_nat (length hand)) in
  r1 = Normal (okCard (Some c)) ∧ r2 = Normal (okCard (Some c)) ∧
  g2 = Part003.nextTurn g.
Proof.
  intros Hcur Hdrawn Hhand Hne Hpile.
  rewrite (pickUp_eq g p hand pile c) by done.
  rewrite (discard_last_eq pick _ p hand (Some c)); [|done|done| |done].
  - split; [done|]. split; [done|]. apply Part003_game_ext; try done.
    cbn [Part003.playerHands Part003.nextTurn Part003.withHasDrawn
         Part003.withCurrentPlayerIndex Part003.withDiscardPile Part003.setHand
         Part003.withPlayerHands].
    by rewrite insert_insert_eq, insert_id.
  - cbn [Part003.playerHands Part003.withHasDrawn Part003.setHand Part003.withPlayerHands
         Part003.withDiscardPile]. by rewrite lookup_insert_eq.
Qed.

Lemma pickUp_then_discard_back_witness :
  let g := Part003Games.freshDeal in
  let hand := default [] (Part003.playerHands g !! "A") in
  let '(g1, r1) := Part003.pickUpDiscard g "A" in
  let '(g2, r2) := Part003.discardCard fixedPick g1 "A" (Z.of_nat (length hand)) in
  r1 = Normal (okCard (Some (mkCard clubs R5))) ∧ r2 = Normal (okCard (Some (mkCard clubs R5))) ∧
  g2 = Part003.nextTurn g.
Proof.
  apply (pickUp_then_discard_back fixedPick Part003Games.freshDeal "A"
           (default [] (Part003.playerHands Part003Games.freshDeal !! "A")) []
           (mkCard clubs R5)).
  - by vm_compute.
  - by vm_compute.
  - by vm_compute.
  - by vm_compute.
  - by vm_compute.
Defined.

Lemma alter_known (f : Z → Z) (m : gmap string Z) (k : string) (b : Z) :
  m !! k = Some b → alter f k m = <[k := f b]> m.
Proof.
  intros Hk. apply map_eq. intros q. destruct (decide (q = k)) as [->|Hq].
  - by rewrite lookup_alter_eq, lookup_insert_eq, Hk.
  - by rewrite lookup_alter_ne, lookup_insert_ne.
Qed.

(** X16.  [buyCard] of part_003, for a player with a buy counter.  A
    purchase that succeeds was made off turn with a buy left; the buyer gets
    the top discard and then the top card of the stock (the discard pile
    being shuffled into an empty stock first), and one buy is used up; the
    turn and its state stay as they are.  A purchase that fails leaves the
    game as it was, except when stock and pile are both empty after the
    discard has been taken: then the buyer keeps that card, with no penalty
    card and no buy used. *)
Theorem buyCard_effect (pick : Random) (g g' : Part003.Game) (p : string) (r : Reply)
    (b : Z) :
  Part003.playerBuys g !! p = Some b →
  Part003.buyCard pick g p = (g', Normal r) →
  (success r = true →
   Part003.getCurrentPlayer g ≠ Some p ∧ 0 < b ∧
   ∃ hand c x pile,
     Part003.playerHands g !! p = Some hand ∧
     Part003.discardPile g = pile ++ [c] ∧
     card r = Some c ∧
     Part003.playerHands g' = <[p := hand ++ [c; x]]> (Part003.playerHands g) ∧
     Part003.playerBuys g' = <[p := b - 1]> (Part003.playerBuys g) ∧
     (Part003.deck g ≠ [] →
      Part003.discardPile g' = pile ∧ Part003.deck g' ++ [x] = Part003.deck g) ∧
     (Part003.deck g = [] →
      Part003.discardPile g' = [] ∧ Part003.deck g' ++ [x] ≡ₚ pile) ∧
     Part003.players g' = Part003.players g ∧
     Part003.currentPlayerIndex g' = Part003.currentPlayerIndex g ∧
     Part003.hasDrawn g' = Part003.hasDrawn g) ∧
  (success r = false →
   g' = g ∨
   (message r = Some "No cards left to deal" ∧
    ∃ hand c,
      Part003.playerHands g !! p = Some hand ∧
      Part003.discardPile g = [c] ∧ Part003.deck g = [] ∧
      Part003.playerHands g' = <[p := hand ++ [c]]> (Part003.playerHands g) ∧
      Part003.discardPile g' = [] ∧
      Part003.playerBuys g' = Part003.playerBuys g)).
Proof.
  intros Hbuys. unfold Part003.buyCard.
  destruct (decide _) as [|Hturn]; [intros [= <- <-]; split; [done|by left]|].
  assert (Hoff : Part003.getCurrentPlayer g ≠ Some p ∧ 0 < b).
  { split; [tauto|]. unfold Part003.noBuysLeft in Hturn. rewrite Hbuys in Hturn.
    destruct (decide (b <= 0)); [|lia]. destruct Hturn. right. by apply bool_decide_eq_true. }
  destruct (decide (length (Part003.discardPile g) = 0%nat)) as [|Hlen];
    [intros [= <- <-]; split; [done|by left]|].
  pose proof (pop_nonempty (Part003.discardPile g) ltac:(lia)) as Hpile.
  destruct (pop (Part003.discardPile g)) as [c pile]. simpl in Hpile. unfold push in Hpile.
  unfold Part003.pushToHand. cbn [Part003.playerHands Part003.withDiscardPile].
  destruct (Part003.playerHands g !! p) as [hand|] eqn:Hhand; [|done].
  cbn [Part003.deck Part003.discardPile Part003.setHand Part003.withPlayerHands
       Part003.withDiscardPile].
  destruct (Deck.isEmpty (Part003.deck g)) eqn:Hempty.
  - apply bool_decide_eq_true in Hempty. apply nil_length_inv in Hempty.
    destruct (decide (0 < length pile)%nat) as [Hrest|Hrest].
    + destruct (deal_nonempty (Deck.shuffle pick pile)) as (d & x & Hd & Hdeal).
      { by rewrite shuffle_Permutation. }
      cbn [Part003.deck Part003.playerHands Part003.withDiscardPile Part003.withDeck
           Part003.withPlayerHands]. rewrite Hdeal.
      cbn [Part003.playerHands Part003.withDiscardPile Part003.withDeck
           Part003.withPlayerHands Part003.setHand]. rewrite lookup_insert_eq.
      destruct (prop display c); [|done]. simpl. intros [= <- <-]. split; [|done].
      intros _. split; [tauto|]. split; [tauto|]. exists hand, c, x, pile.
      cbn [Part003.playerHands Part003.playerBuys Part003.discardPile Part003.deck
           Part003.players Part003.currentPlayerIndex Part003.hasDrawn
           Part003.withPlayerBuys Part003.setHand Part003.withPlayerHands
           Part003.withDeck Part003.withDiscardPile card okCard].
      split; [done|]. split; [done|]. split; [done|].
      split; [unfold push; by rewrite insert_insert_eq, <-app_assoc|].
      split; [by apply (alter_known (fun b => b - 1))|].
      split; [by intros []|]. split; [|done]. intros _. split; [done|].
      by rewrite <-Hd, shuffle_Permutation.
    + intros [= <- <-]. split; [done|]. intros _. right. split; [done|].
      exists hand, c. destruct pile; [|simpl in Hrest; lia].
      cbn [Part003.playerHands Part003.playerBuys Part003.discardPile
           Part003.setHand Part003.withPlayerHands Part003.withDiscardPile].
      by rewrite Hpile.
  - apply bool_decide_eq_false in Hempty.
    destruct (deal_nonempty (Part003.deck g)) as (d & x & Hd & Hdeal).
    { lia. }
    cbn [Part003.deck Part003.playerHands Part003.withDiscardPile Part003.withDeck
         Part003.withPlayerHands Part003.setHand]. rewrite Hdeal.
    cbn [Part003.playerHands Part003.withDiscardPile Part003.withDeck
         Part003.withPlayerHands Part003.setHand]. rewrite lookup_insert_eq.
    destruct (prop display c); [|done]. simpl. intros [= <- <-]. split; [|done].
    intros _. split; [tauto|]. split; [tauto|]. exists hand, c, x, pile.
    cbn [Part003.playerHands Part003.playerBuys Part003.discardPile Part003.deck
         Part003.players Part003.currentPlayerIndex Part003.hasDrawn
         Part003.withPlayerBuys Part003.setHand Part003.withPlayerHands
         Part003.withDeck Part003.withDiscardPile card okCard].
    split; [done|]. split; [done|]. split; [done|].
    split; [unfold push; by rewrite insert_insert_eq, <-app_assoc|].
    split; [by apply (alter_known (fun b => b - 1))|].
    split; [done|]. split; [|done]. intros Hnil. exfalso. apply Hempty.
    by rewrite Hnil.
Qed.

Lemma buyCard_effect_witness :
  let g := Part003Games.freshDeal in
  let g' := (Part003.buyCard fixedPick g "B").1 in
  let r := okCard (one clubs R5) in
  Part003.getCurrentPlayer g ≠ Some "B" ∧ 0 < 3 ∧
  ∃ hand c x pile,
    Part003.playerHands g !! "B" = Some hand ∧
    Part003.discardPile g = pile ++ [c] ∧
    card r = Some c ∧
    Part003.playerHands g' = <["B" := hand ++ [c; x]]> (Part003.playerHands g) ∧
    Part003.playerBuys g' = <["B" := 3 - 1]> (Part003.playerBuys g) ∧
    (Part003.deck g ≠ [] →
     Part003.discardPile g' = pile ∧ Part003.deck g' ++ [x] = Part003.deck g) ∧
    (Part003.deck g = [] →
     Part003.discardPile g' = [] ∧ Part003.deck g' ++ [x] ≡ₚ pile) ∧
    Part003.players g' = Part003.players g ∧
    Part003.currentPlayerIndex g' = Part003.currentPlayerIndex g ∧
    Part003.hasDrawn g' = Part003.hasDrawn g.
Proof.
  intros g g' r.
  refine (proj1 (buyCard_effect fixedPick g g' "B" r 3 _ _) _).
  - by vm_compute.
  - by vm_compute.
  - done.
Defined.

(** * A new deck *)

(** X23.  Whatever the random numbers of the shuffle, a new deck holds 104
    cards, no empty slot, and each of the 52 cards exactly twice. *)
Theorem new_deck_two_of_each (pick : Random) :
  length (Deck.new pick) = 104%nat ∧
  Forall is_Some (Deck.new pick) ∧
  ∀ c : Card, occurrences c (Deck.new pick) = 2%nat.
Proof.
  pose proof (new_deck_Permutation pick) as Hperm.
  split; [by rewrite Hperm|]. split; [rewrite Hperm; apply initialize_cards|].
  intros c. unfold occurrences. rewrite Hperm.
  by destruct c as [[] []]; vm_compute.
Qed.

(** * The end of a round in part_003 *)

(** What a deal resets besides the cards. *)
Lemma Part003_dealRound_resets (pick : Random) (g : Part003.Game) :
  let g' := Part003.dealRound pick g in
  (∀ p, p ∈ Part003.players g →
        Part003.playerMelds g' !! p = Some [] ∧ Part003.playerBuys g' !! p = Some 3) ∧
  Part003.hasDrawn g' = false ∧
  Part003.currentPlayerIndex g'
  = ((Part003.currentRound g - 1) `mod` length (Part003.players g))%nat.
Proof.
  unfold Part003.dealRound. destruct (Nat.iter _ _ _) as [hs d].
  destruct (Deck.deal d). cbn. split; [|done].
  intros p Hp. by rewrite !reset_hands_lookup, !decide_True.
Qed.

(** X24.  [endRound] of part_003, for a roster without duplicates whose
    players hold cards and have a score array.  It records 0 for the winner
    and the penalty of the hand for everybody else.  Before round 7 it then
    moves to the next round and deals it: every player holds one card more
    than in the round before, has no meld and three buys again, nobody has
    drawn, and the first turn moves one seat on.  In round 7 it ends the
    game with the standings of the recorded scores. *)
Theorem Part003_endRound_advances (pick : Random) (g : Part003.Game) (w : string) :
  NoDup (Part003.players g) →
  Part003.players g ≠ [] →
  (∀ p, p ∈ Part003.players g →
        ∃ cs sc, Part003.playerHands g !! p = Some (Some <$> cs) ∧
                 Part003.playerScores g !! p = Some sc) →
  let '(g', r) := Part003.endRound pick g w in
  let n := Part003.currentRound g in
  Part003.players g' = Part003.players g ∧
  (∀ p cs sc, p ∈ Part003.players g →
     Part003.playerHands g !! p = Some (Some <$> cs) →
     Part003.playerScores g !! p = Some sc →
     Part003.playerScores g' !! p
     = Some (setScore sc n (if decide (p = w) then 0 else penalty cs))) ∧
  ((n < 7)%nat →
   r = Normal (NewRound (S n)) ∧
   Part003.currentRound g' = S n ∧
   ((length (Part003.players g) * (11 + n) + 1 <= 104)%nat →
    properlyDealt (S n) (Part003.hands g') (Part003.discardPile g') (Part003.deck g')) ∧
   (∀ p, p ∈ Part003.players g →
         Part003.playerMelds g' !! p = Some [] ∧ Part003.playerBuys g' !! p = Some 3) ∧
   Part003.hasDrawn g' = false ∧
   Part003.currentPlayerIndex g' = (n `mod` length (Part003.players g))%nat) ∧
  ((7 <= n)%nat →
   Part003.currentRound g' = n ∧
   Part003.playerHands g' = Part003.playerHands g ∧
   ∃ res, r = Normal (GameEnded res) ∧
          standings (fun p => Part003.playerScores g' !! p) (Part003.players g) res).
Proof.
  intros Hnd Hne Hdom. unfold Part003.endRound.
  destruct (scorePlayers_spec w (Part003.players g) g)
    as (g1 & Heq & Hps & Hround & Hhands & _ & Hin); [done|done|].
  rewrite Heq, Hround. case_decide as Hlast.
  - cbv zeta. split; [done|]. split; [done|]. split; [lia|]. intros _.
    split; [done|]. split; [done|].
    destruct (standings_spec (fun p => Part003.playerScores g1 !! p)
                (fun m p => match Part003.playerScores g1 !! p with
                            | None => typeErrorUndefined
                            | Some scores => Normal (mapSet m p (total scores))
                            end) ltac:(done) (Part003.players g1)) as (res & Hres & Hst).
    { by rewrite Hps. }
    { intros p Hp. rewrite Hps in Hp. destruct (Hdom p Hp) as (cs & sc & Hcs & Hsc).
      rewrite (Hin p cs sc Hp Hcs Hsc). by eexists. }
    exists res. unfold Part003.endGame. rewrite Hres. split; [done|]. by rewrite <-Hps.
  - set (g2 := Part003.withCurrentRound _ g1).
    pose proof (Part003_dealRound_resets pick g2) as (Hreset & Hdrawn & Hidx).
    assert (Hps2 : Part003.players g2 = Part003.players g) by done.
    assert (Hr2 : Part003.currentRound g2 = S (Part003.currentRound g)).
    { unfold g2. simpl. lia. }
    rewrite Hps2, Hr2 in *.
    assert (Hkeep : Part003.players (Part003.dealRound pick g2) = Part003.players g
                    ∧ Part003.currentRound (Part003.dealRound pick g2)
                      = S (Part003.currentRound g)).
    { unfold Part003.dealRound. destruct (Nat.iter _ _ _) as [hs d].
      by destruct (Deck.deal d). }
    destruct Hkeep as [Hps3 Hr3].
    cbv zeta. split; [done|]. split.
    { intros p cs sc Hp Hcs Hsc. rewrite dealRound_playerScores. by apply Hin. }
    split; [|lia]. intros _. rewrite Hr3. split; [done|]. split; [done|].
    split.
    { intros Hsize.
      destruct (Part003_dealRound_properly pick g2) as (_ & _ & Hdealt).
      - by rewrite Hps2.
      - rewrite Hps2, Hr2. lia.
      - by rewrite Hr2 in Hdealt. }
    split; [done|]. split; [done|]. rewrite Hidx. f_equal. lia.
Qed.

Lemma Part003_endRound_advances_witness :
  let g := Part003Games.roundOver in
  let g' := (Part003.endRound fixedPick g "A").1 in
  Part003.playerScores g' !! "A" = Some (setScore noScores 1 0) ∧
  Part003.playerScores g' !! "B"
  = Some (setScore noScores 1
            (penalty [mkCard spades RA; mkCard hearts RK; mkCard diamonds R7])) ∧
  Part003.currentRound g' = 2%nat ∧
  properlyDealt 2 (Part003.hands g') (Part003.discardPile g') (Part003.deck g').
Proof.
  intros g g'. subst g'.
  assert (Hnd : NoDup (Part003.players g)).
  { apply (bool_decide_unpack _). by vm_compute. }
  assert (Hdom : ∀ p, p ∈ Part003.players g →
                      ∃ cs sc, Part003.playerHands g !! p = Some (Some <$> cs) ∧
                               Part003.playerScores g !! p = Some sc).
  { intros p Hp. apply list_elem_of_In in Hp. simpl in Hp.
    destruct Hp as [<-|[<-|[]]].
    - by exists [], noScores.
    - by exists [mkCard spades RA; mkCard hearts RK; mkCard diamonds R7], noScores. }
  generalize (Part003_endRound_advances fixedPick g "A" Hnd ltac:(done) Hdom).
  destruct (Part003.endRound fixedPick g "A") as [g' r]. cbv zeta.
  intros (_ & Hscores & Hnext & _).
  destruct Hnext as (_ & Hround & Hdealt & _); [unfold g; simpl; lia|].
  split; [by apply (Hscores "A" [] noScores); [apply (bool_decide_unpack _); vm_compute|..]|].
  split.
  { apply (Hscores "B" [mkCard spades RA; mkCard hearts RK; mkCard diamonds R7] noScores);
      [apply (bool_decide_unpack _); by vm_compute|done|done]. }
  split; [exact Hround|]. apply Hdealt. unfold g. simpl. lia.
Defined.

(** * Going down is kept for the round *)

Lemma keepsMelds_refl (g : Part003.Game) : keepsMelds g g.
Proof. by split. Qed.

(** Changes that touch neither the round nor the melds. *)
Lemma keepsMelds_frame (g g' : Part003.Game) :
  Part003.currentRound g' = Part003.currentRound g →
  Part003.playerMelds g' = Part003.playerMelds g →
  keepsMelds g g'.
Proof. intros Hr Hm. split; [done|]. intros q ty k. by rewrite Hm. Qed.

Lemma countOfType_push (ty : string) (k : Z) (ms : list Meld) (m : Meld) :
  countOfType ty k ms <= countOfType ty k (push ms m).
Proof.
  unfold countOfType, push. rewrite filter_app, length_app. lia.
Qed.

Lemma countOfType_insert (ty : string) (k : Z) (ms : list Meld) (i : nat) (m m1 : Meld) :
  ms !! i = Some m →
  type m1 = type m →
  (length (cards m) <= length (cards m1))%nat →
  countOfType ty k ms <= countOfType ty k (<[i := m1]> ms).
Proof.
  intros Hm Hty Hlen. unfold countOfType.
  rewrite insert_take_drop by (by eapply lookup_lt_Some).
  rewrite <-(take_drop_middle ms i m Hm) at 1.
  rewrite !filter_app, !filter_cons, !length_app, Hty.
  destruct (decide (type m = ty ∧ k <= Z.of_nat (length (cards m)))) as [[? ?]|].
  - rewrite decide_True by (split; [done|lia]). done.
  - destruct (decide _); simpl; lia.
Qed.

Lemma keepsMelds_contract (g g' : Part003.Game) (q : string) :
  keepsMelds g g' →
  Part003.validatePlayerMeetsRoundRequirements g q = Normal true →
  Part003.validatePlayerMeetsRoundRequirements g' q = Normal true.
Proof.
  intros [Hr Hm]. rewrite !validate_meetsContract, Hr.
  intros (req & Hreq & Hsets & Hruns). exists req. split; [done|].
  specialize (Hm q). split; etrans; try eassumption; apply Hm.
Qed.

Lemma drawCard_keepsMelds (pick : Random) (g g' : Part003.Game) (p : string) (r : Reply) :
  Part003.drawCard pick g p = (g', Normal r) → keepsMelds g g'.
Proof.
  unfold Part003.drawCard.
  destruct (decide _); [intros [= <- _]; apply keepsMelds_refl|].
  destruct (Deck.isEmpty (Part003.deck g)).
  - destruct (decide (length (Part003.discardPile g) <= 1)%nat);
      [intros [= <- _]; apply keepsMelds_refl|].
    destruct (pop (Part003.discardPile g)) as [top rest].
    cbn [Part003.deck Part003.withDiscardPile Part003.withDeck].
    destruct (Deck.deal _) as [c d]. unfold Part003.pushToHand.
    cbn [Part003.playerHands Part003.withDiscardPile Part003.withDeck].
    destruct (Part003.playerHands g !! p); [|done].
    intros [= <- _]. by apply keepsMelds_frame.
  - destruct (Deck.deal _) as [c d]. unfold Part003.pushToHand.
    cbn [Part003.playerHands Part003.withDeck].
    destruct (Part003.playerHands g !! p); [|done].
    intros [= <- _]. by apply keepsMelds_frame.
Qed.

Lemma pickUpDiscard_keepsMelds (g g' : Part003.Game) (p : string) (r : Reply) :
  Part003.pickUpDiscard g p = (g', Normal r) → keepsMelds g g'.
Proof.
  unfold Part003.pickUpDiscard.
  destruct (decide _); [intros [= <- _]; apply keepsMelds_refl|].
  destruct (decide _); [intros [= <- _]; apply keepsMelds_refl|].
  destruct (pop (Part003.discardPile g)) as [c pile].
  unfold Part003.pushToHand. cbn [Part003.playerHands Part003.withDiscardPile].
  destruct (Part003.playerHands g !! p); [|done].
  intros [= <- _]. by apply keepsMelds_frame.
Qed.

Lemma buyCard_keepsMelds (pick : Random) (g g' : Part003.Game) (p : string) (r : Reply) :
  Part003.buyCard pick g p = (g', Normal r) → keepsMelds g g'.
Proof.
  unfold Part003.buyCard.
  destruct (decide _); [intros [= <- _]; apply keepsMelds_refl|].
  destruct (decide _); [intros [= <- _]; apply keepsMelds_refl|].
  destruct (pop (Part003.discardPile g)) as [c pile].
  unfold Part003.pushToHand. cbn [Part003.playerHands Part003.withDiscardPile].
  destruct (Part003.playerHands g !! p) as [hand|]; [|done].
  cbn [Part003.deck Part003.discardPile Part003.setHand Part003.withPlayerHands
       Part003.withDiscardPile].
  destruct (Deck.isEmpty (Part003.deck g)).
  - destruct (decide _); [|intros [= <- _]; by apply keepsMelds_frame].
    cbn [Part003.deck Part003.playerHands Part003.withDiscardPile Part003.withDeck
         Part003.withPlayerHands].
    destruct (Deck.deal _) as [x d].
    cbn [Part003.playerHands Part003.withDiscardPile Part003.withDeck
         Part003.withPlayerHands Part003.setHand].
    rewrite lookup_insert_eq. intros [= <- _]. by apply keepsMelds_frame.
  - cbn [Part003.deck Part003.setHand Part003.withPlayerHands Part003.withDiscardPile].
    destruct (Deck.deal _) as [x d].
    cbn [Part003.playerHands Part003.withDiscardPile Part003.withDeck
         Part003.withPlayerHands Part003.setHand].
    rewrite lookup_insert_eq. intros [= <- _]. by apply keepsMelds_frame.
Qed.

Lemma discardCard_keepsMelds (pick : Random) (g g' : Part003.Game) (p : string)
    (cardIndex : Z) (r : Reply) :
  Part003.discardCard pick g p cardIndex = (g', Normal r) →
  roundResult r = None → keepsMelds g g'.
Proof.
  unfold Part003.discardCard.
  destruct (decide _); [intros [= <- _] _; apply keepsMelds_refl|].
  destruct (Part003.playerHands g !! p) as [hand|]; [|done].
  destruct (decide _); [intros [= <- _] _; apply keepsMelds_refl|].
  destruct (splice1 hand cardIndex) as [x hand1].
  destruct (decide (length hand1 = 0%nat)).
  - destruct (Part003.validatePlayerMeetsRoundRequirements _ p) as [[|]|]; [| |done].
    + destruct (Part003.endRound _ _ _) as [g2 [res|]]; [|done]. by intros [= _ <-].
    + intros [= <- _] _. by apply keepsMelds_frame.
  - intros [= <- _] _. by apply keepsMelds_frame.
Qed.

Lemma layOffCard_keepsMelds (pick : Random) (g g' : Part003.Game) (p : string)
    (cardIndex : Z) (tp : string) (meldIndex : Z) (r : Reply) :
  Part003.layOffCard pick g p cardIndex tp meldIndex = (g', Normal r) →
  roundResult r = None → keepsMelds g g'.
Proof.
  intros H Hnone.
  destruct (success r) eqn:Hok; last first.
  { rewrite (layOffCard_refused_unchanged _ _ _ _ _ _ _ _ H Hok). apply keepsMelds_refl. }
  revert H. unfold Part003.layOffCard.
  destruct (decide (Part003.getCurrentPlayer g ≠ Some p)); [by intros [= _ <-]|].
  destruct (Part003.validatePlayerMeetsRoundRequirements g p) as [[|]|];
    [|by intros [= _ <-]|done].
  destruct (Part003.playerHands g !! p) as [hand|] eqn:Hhand; [|done].
  destruct (decide (cardIndex < 0 ∨ _)) as [|Hrange]; [by intros [= _ <-]|].
  destruct (Part003.playerMelds g !! tp) as [ms|] eqn:Hms; [|by intros [= _ <-]].
  destruct (decide (meldIndex < 0)) as [|Hmi]; [by intros [= _ <-]|].
  destruct (ms !! Z.to_nat meldIndex) as [m|] eqn:Hm; [|by intros [= _ <-]].
  destruct (Part003.canLayOffCard _ m) as [[|]|]; [|by intros [= _ <-]|done].
  cbv zeta. destruct (prop display _); [|done].
  destruct (decide (length (splice1 hand cardIndex).2 = 0%nat)).
  - match goal with
    | |- context [Part003.validatePlayerMeetsRoundRequirements ?g1 p] =>
        destruct (Part003.validatePlayerMeetsRoundRequirements g1 p) as [[|]|]
    end; [| |done].
    + destruct (Part003.endRound _ _ _) as [g2 [res|]]; [|done].
      intros [= _ <-]. done.
    + intros [= _ Hr]. destruct (Part003.cannotGoOut _); by simplify_eq/=.
  - intros [= <- _]. split; [done|]. intros q ty k.
    cbn [Part003.playerMelds Part003.setMelds Part003.setHand Part003.withPlayerMelds
         Part003.withPlayerHands].
    destruct (decide (q = tp)) as [->|Hq].
    + rewrite lookup_insert_eq, Hms. simpl.
      apply (countOfType_insert ty k ms (Z.to_nat meldIndex) m); [done|done|].
      simpl. unfold push. rewrite length_app. lia.
    + by rewrite lookup_insert_ne.
Qed.

Lemma makeMeld_keepsMelds (pick : Random) (g g' : Part003.Game) (p : string)
    (cardIndices : list Z) (meldType : string) (r : Reply) :
  Part003.makeMeld pick g p cardIndices meldType = (g', Normal r) →
  roundResult r = None → keepsMelds g g'.
Proof.
  unfold Part003.makeMeld, Part003.meldSelected.
  destruct (decide _); [intros [= <- _] _; apply keepsMelds_refl|].
  destruct (Part003.selectCards _ cardIndices) as [cs|]; [|done].
  destruct (Part003.validateMeld cs meldType) as [cs' [[|]|]];
    [|intros [= <- _] _; apply keepsMelds_refl|done].
  destruct (Part003.playerHands g !! p) as [hand|]; [|done].
  cbv zeta.
  cbn [Part003.playerMelds Part003.setHand Part003.withPlayerHands].
  set (hand1 := removeAll hand (sortDescending cardIndices)).
  assert (Hkept : ∀ ms0, ms0 = Part003.playerMelds g !! p →
    keepsMelds g
      (Part003.setMelds p (push (default [] ms0) (mkMeld meldType cs'))
         (Part003.withPlayerHands (<[p := hand1]> (Part003.playerHands g)) g))).
  { intros ms0 ->. split; [done|]. intros q ty k.
    cbn [Part003.playerMelds Part003.setMelds Part003.withPlayerMelds
         Part003.withPlayerHands].
    destruct (decide (q = p)) as [->|Hq].
    - rewrite lookup_insert_eq. simpl. apply countOfType_push.
    - by rewrite lookup_insert_ne. }
  destruct (Part003.playerMelds g !! p) as [ms0|] eqn:Hms; simpl.
  - destruct (decide (length hand1 = 0%nat)); [|intros [= <- _] _; by apply (Hkept (Some ms0))].
    match goal with
    | |- context [Part003.validatePlayerMeetsRoundRequirements ?g1 p] =>
        destruct (Part003.validatePlayerMeetsRoundRequirements g1 p) as [[|]|]
    end; [| |done].
    + destruct (Part003.endRound _ _ _) as [g3 [res|]]; [|done].
      intros [= _ <-]. done.
    + intros [= <- _] _. by apply (Hkept (Some ms0)).
  - destruct (decide (length hand1 = 0%nat)); [|intros [= <- _] _; by apply (Hkept None)].
    match goal with
    | |- context [Part003.validatePlayerMeetsRoundRequirements ?g1 p] =>
        destruct (Part003.validatePlayerMeetsRoundRequirements g1 p) as [[|]|]
    end; [| |done].
    + destruct (Part003.endRound _ _ _) as [g3 [res|]]; [|done].
      intros [= _ <-]. done.
    + intros [= <- _] _. by apply (Hkept None).
Qed.

(** X25.  In part_003 going down lasts for the round: whatever a player
    does (draw, pick up, buy, discard, lay off, meld), as long as the call
    returns a reply that does not end the round, everybody who met the
    requirements of the round before the call meets them after it. *)
Theorem going_down_is_kept (pick : Random) (g g' : Part003.Game) (p q : string) (r : Reply) :
  Part003.drawCard pick g p = (g', Normal r) ∨
  Part003.pickUpDiscard g p = (g', Normal r) ∨
  Part003.buyCard pick g p = (g', Normal r) ∨
  (∃ cardIndex, Part003.discardCard pick g p cardIndex = (g', Normal r)) ∨
  (∃ cardIndex tp meldIndex,
     Part003.layOffCard pick g p cardIndex tp meldIndex = (g', Normal r)) ∨
  (∃ cardIndices meldType,
     Part003.makeMeld pick g p cardIndices meldType = (g', Normal r)) →
  roundResult r = None →
  Part003.validatePlayerMeetsRoundRequirements g q = Normal true →
  Part003.validatePlayerMeetsRoundRequirements g' q = Normal true.
Proof.
  intros Hop Hnone. apply keepsMelds_contract.
  destruct Hop as [H|[H|[H|[[i H]|[(i & tp & mi & H)|(ixs & ty & H)]]]]].
  - by eapply drawCard_keepsMelds.
  - by eapply pickUpDiscard_keepsMelds.
  - by eapply buyCard_keepsMelds.
  - by eapply discardCard_keepsMelds.
  - by eapply layOffCard_keepsMelds.
  - by eapply makeMeld_keepsMelds.
Qed.

Lemma going_down_is_kept_witness :
  let g := Part003Games.goneDown in
  let g' := (Part003.layOffCard fixedPick g "A" 0 "A" 0).1 in
  Part003.validatePlayerMeetsRoundRequirements g' "A" = Normal true.
Proof.
  intros g g'.
  refine (going_down_is_kept fixedPick g g' "A" "A" (okCard (one spades R7)) _ _ _).
  - do 4 right. left. exists 0, "A", 0. by vm_compute.
  - done.
  - by vm_compute.
Defined.

(** * Picking up the discard in server.js *)

(** X26.  [pickUpDiscard] of server.js.  A pick-up that succeeds was made
    by the player whose turn it is, before drawing: the top discard, a
    card, has moved to the end of that player's hand, the reply carries it,
    and the stock, the roster and the turn are as before.  The player has
    then drawn: every further [pickUpDiscard] or [drawCard], by anyone,
    fails and changes nothing.  A pick-up that fails changes nothing. *)
Theorem server_pickUpDiscard_effect (pick : Random) (g g' : Server.Game) (p q : string)
    (r : Reply) :
  Server.pickUpDiscard g p = (g', Normal r) →
  (success r = true →
   Server.getCurrentPlayer g = Some p ∧ Server.hasDrawn g = false ∧
   ∃ data c pile,
     Server.playerData g !! p = Some data ∧
     Server.discardPile g = pile ++ [Some c] ∧
     card r = Some (Some c) ∧
     Server.playerData g'
     = <[p := Server.withHand (Server.hand data ++ [Some c]) data]> (Server.playerData g) ∧
     Server.discardPile g' = pile ∧
     Server.deck g' = Server.deck g ∧
     Server.players g' = Server.players g ∧
     Server.currentPlayerIndex g' = Server.currentPlayerIndex g ∧
     Server.hasDrawn g' = true ∧
     Server.pickUpDiscard g' q = (g', Normal (failure "Cannot pick up")) ∧
     Server.drawCard pick g' q = (g', Normal (failure "Cannot draw"))) ∧
  (success r = false → g' = g).
Proof.
  unfold Server.pickUpDiscard at 1.
  destruct (decide _) as [|Hturn]; [by intros [= <- <-]|].
  assert (Hcur : Server.getCurrentPlayer g = Some p).
  { destruct (decide (Server.getCurrentPlayer g = Some p)); [done|tauto]. }
  assert (Hnot : Server.hasDrawn g = false).
  { destruct (Server.hasDrawn g); [tauto|done]. }
  pose proof (pop_nonempty (Server.discardPile g) ltac:(lia)) as Hpile.
  destruct (pop (Server.discardPile g)) as [c pile]. simpl in Hpile. unfold push in Hpile.
  cbn [Server.playerData Server.withDiscardPile].
  destruct (Server.playerData g !! p) as [data|] eqn:Hdata; [|done].
  destruct c as [c|]; [|done]. simpl. intros [= <- <-]. split; [|done]. intros _.
  split; [done|]. split; [done|]. exists data, c, pile.
  repeat (split; [done|]). split.
  - unfold Server.pickUpDiscard. rewrite decide_True; [done|]. right. by left.
  - unfold Server.drawCard. rewrite decide_True; [done|]. by right.
Qed.

Lemma server_pickUpDiscard_effect_witness :
  let g := ServerGames.freshDeal in
  let g' := (Server.pickUpDiscard g "A").1 in
  let r := okCard (one hearts RA) in
  Server.getCurrentPlayer g = Some "A" ∧ Server.hasDrawn g = false ∧
  ∃ data c pile,
    Server.playerData g !! "A" = Some data ∧
    Server.discardPile g = pile ++ [Some c] ∧
    card r = Some (Some c) ∧
    Server.playerData g'
    = <["A" := Server.withHand (Server.hand data ++ [Some c]) data]> (Server.playerData g) ∧
    Server.discardPile g' = pile ∧
    Server.deck g' = Server.deck g ∧
    Server.players g' = Server.players g ∧
    Server.currentPlayerIndex g' = Server.currentPlayerIndex g ∧
    Server.hasDrawn g' = true ∧
    Server.pickUpDiscard g' "B" = (g', Normal (failure "Cannot pick up")) ∧
    Server.drawCard fixedPick g' "B" = (g', Normal (failure "Cannot draw")).
Proof.
  intros g g' r.
  refine (proj1 (server_pickUpDiscard_effect fixedPick g g' "A" "B" r _) _).
  - by vm_compute.
  - done.
Defined.

(** * The melds an AI player of part_003 looks for *)

(** The cards grouped under a key, with their indices. *)
Lemma keyed_group {K} `{EqDecision K} (key : Card → K) (h : list Card) (k : K)
    (g : list (Card * nat)) :
  (k, g) ∈ groupAll (imap (fun i c => (key c, (c, i))) h) →
  NoDup (g.*2) ∧ Forall (fun e => h !! e.2 = Some e.1 ∧ key e.1 = k) g.
Proof.
  intros ->%groupAll_spec. split.
  - eapply sublist_NoDup; [|apply fmap_sublist, fmap_sublist, sublist_filter].
    rewrite !fmap_imap.
    rewrite (imap_ext _ (fun i _ => i)) by done.
    change (imap _ h) with (imap (fun (j : nat) (_ : Card) => id j) h).
    rewrite (imap_seq_0 h id), list_fmap_id. apply NoDup_seq.
  - apply Forall_forall. intros e ([k' e'] & -> & Hin)%list_elem_of_fmap.
    apply list_elem_of_filter in Hin as [Hk Hin]. simpl in Hk. subst k'.
    apply elem_of_lookup_imap in Hin as (j & c & [= Hk ->] & Hj).
    by subst k.
Qed.

Lemma groupBy_cards {K} `{EqDecision K} (key : Card → K) (h : list Card) :
  Part003AI.groupBy key (Some <$> h)
  = Normal (groupAll (imap (fun i c => (key c, (c, i))) h)).
Proof. unfold Part003AI.groupBy. by rewrite (reduceC_groups _ (fun i c => (key c, (c, i)))). Qed.

(** Candidates collected by a loop that appends what each round finds. *)
Lemma reduceC_collect {A B} (f : A → Completion (list B)) (P : B → Prop) (l : list A)
    (acc : list B) :
  (∀ x, x ∈ l → ∃ found, f x = Normal found ∧ Forall P found) →
  Forall P acc →
  ∃ res, reduceC (fun runs x => found ← f x; Normal (runs ++ found)) l acc = Normal res ∧
         Forall P res.
Proof.
  revert acc. induction l as [|x l IH]; intros acc Hf Hacc; [by exists acc|].
  destruct (Hf x) as (found & Hx & Hfound); [by left|].
  simpl. rewrite Hx. simpl. apply IH.
  - intros y Hy. apply Hf. by right.
  - by apply Forall_app.
Qed.

Lemma picked_good_set (h : list Card) (r : Rank) (picked : list (Card * nat)) :
  NoDup (picked.*2) →
  Forall (fun e => h !! e.2 = Some e.1 ∧ rank e.1 = r) picked →
  (3 <= length picked)%nat →
  goodMeld h "set" (picked.*2).
Proof.
  intros Hnd Hall Hlen.
  destruct (cards_at h picked.*2 picked.*1) as [Hread Hrange].
  { apply cards_of_pairs. eapply Forall_impl; [exact Hall|]. by intros e [? _]. }
  split; [done|]. split.
  - apply Forall_fmap in Hrange. eapply Forall_impl; [exact Hrange|]. simpl. lia.
  - rewrite Hread, Part003_validateMeld_eq by (by left).
    destruct (Server_validateMeld_set picked.*1) as (b & -> & Hb). f_equal.
    apply Hb. split; [by rewrite length_fmap|].
    rewrite Forall_forall in Hall.
    intros c (e & -> & He)%list_elem_of_fmap. destruct (Hall e He) as [_ ->].
    destruct picked as [|e0 picked']; [by apply elem_of_nil in He|].
    simpl. f_equal. symmetry. apply (Hall e0). by left.
Qed.

Lemma picked_good_run (h : list Card) (s : Suit) (picked : list (Card * nat)) :
  NoDup (picked.*2) →
  Forall (fun e => h !! e.2 = Some e.1 ∧ suit e.1 = s) picked →
  (4 <= length picked)%nat →
  stepOneB (value <$> picked.*1) = true →
  goodMeld h "run" (picked.*2).
Proof.
  intros Hnd Hall Hlen Hstep.
  destruct (cards_at h picked.*2 picked.*1) as [Hread Hrange].
  { apply cards_of_pairs. eapply Forall_impl; [exact Hall|]. by intros e [? _]. }
  split; [done|]. split.
  - apply Forall_fmap in Hrange. eapply Forall_impl; [exact Hrange|]. simpl. lia.
  - rewrite Hread, Part003_validateMeld_eq by (by right).
    destruct (Server_validateMeld_run picked.*1) as (b & -> & Hb). f_equal.
    apply Hb. split; [by rewrite length_fmap|]. split.
    + rewrite Forall_forall in Hall.
      intros c (e & -> & He)%list_elem_of_fmap. destruct (Hall e He) as [_ ->].
      destruct picked as [|e0 picked']; [by apply elem_of_nil in He|].
      simpl. f_equal. symmetry. apply (Hall e0). by left.
    + exists picked.*1. split; [done|].
      split; [by apply stepOneB_ascending|by apply stepOneB_spec].
Qed.

Lemma sets_good (h : list Card) (r : Rank) (g : list (Card * nat)) :
  (r, g) ∈ groupAll (imap (fun i c => (rank c, (c, i))) h) →
  Forall (goodMeld h "set") (Part003AI.setsIn g).
Proof.
  intros [Hnd Hall]%keyed_group. unfold Part003AI.setsIn.
  case_decide as Hlen; [|constructor].
  apply Forall_fmap, Forall_forall. intros size [Hlo Hhi]%elem_of_seq. simpl.
  apply (picked_good_set h r).
  - eapply sublist_NoDup; [exact Hnd|]. apply fmap_sublist, sublist_take.
  - by apply Forall_take.
  - rewrite length_take. lia.
Qed.

Lemma stepOneB_snoc (vs : list Z) (v w : Z) :
  stepOneB (vs ++ [v]) = true → w = v + 1 → stepOneB ((vs ++ [v]) ++ [w]) = true.
Proof.
  intros Hstep ->. apply stepOneB_spec. apply stepOneB_spec in Hstep.
  intros i a b Ha Hb.
  destruct (decide (S i < length (vs ++ [v]))%nat) as [Hi|Hi].
  - rewrite lookup_app_l in Ha by lia. rewrite lookup_app_l in Hb by lia.
    by apply (Hstep i).
  - rewrite length_app in Hi. simpl in Hi.
    assert (S i = length vs + 1)%nat as Hlen.
    { apply lookup_lt_Some in Hb. rewrite !length_app in Hb. simpl in Hb. lia. }
    rewrite lookup_app_l in Ha by (rewrite length_app; simpl; lia).
    rewrite lookup_app_r in Ha by lia.
    rewrite lookup_app_r in Hb by (rewrite length_app; simpl; lia).
    rewrite length_app in Hb. simpl in Hb.
    replace (i - length vs)%nat with 0%nat in Ha by lia.
    replace (S i - (length vs + 1))%nat with 0%nat in Hb by lia.
    simpl in *. by simplify_eq.
Qed.

(** The inner loop never reads outside the group, and the positions it
    collects are distinct positions of the group whose values go up by one. *)
Lemma extend_spec (group : list (Card * nat)) (rest : list (Card * nat)) (i : nat)
    (sequence : list nat) (picked : list (Card * nat)) (e : Card * nat) :
  drop i group = rest →
  Forall2 (fun pos x => group !! pos = Some x) sequence (picked ++ [e]) →
  Forall (fun pos => (pos < i)%nat) sequence →
  NoDup sequence →
  stepOneB (value <$> (picked ++ [e]).*1) = true →
  ∃ sequence' picked',
    Part003AI.extend group i rest sequence = Normal sequence' ∧
    Forall2 (fun pos x => group !! pos = Some x) sequence' picked' ∧
    NoDup sequence' ∧
    stepOneB (value <$> picked'.*1) = true.
Proof.
  revert i sequence picked e.
  induction rest as [|[c idx] rest IH]; intros i sequence picked e Hdrop Hseq Hlt Hnd Hstep.
  { exists sequence, (picked ++ [e]). done. }
  assert (Hi : group !! i = Some (c, idx)).
  { rewrite <-(Nat.add_0_r i), <-lookup_drop, Hdrop. done. }
  assert (Hrest : drop (S i) group = rest).
  { replace (S i) with (i + 1)%nat by lia. by rewrite <-drop_drop, Hdrop. }
  assert (Hlast : Part003AI.lastValue group sequence = Normal (value e.1)).
  { unfold Part003AI.lastValue.
    apply Forall2_app_inv_r in Hseq as (s1 & s2 & _ & Hs2 & ->).
    apply Forall2_cons_inv_r in Hs2 as (pos & s3 & Hpos & ->%Forall2_nil_inv_r & ->).
    rewrite last_snoc. simpl. rewrite Hpos. by destruct e. }
  cbn [Part003AI.extend]. rewrite Hlast. simpl.
  destruct (decide (value c = value e.1 + 1)) as [Hv|Hv].
  - apply (IH (S i) (push sequence i) (picked ++ [e]) (c, idx)); [done| | | |].
    + unfold push. apply Forall2_app; [done|]. by constructor.
    + unfold push. apply Forall_app. split; [|by repeat constructor].
      eapply Forall_impl; [exact Hlt|]. simpl. lia.
    + unfold push. apply NoDup_app. split; [done|]. split; [|apply NoDup_singleton].
      intros pos Hpos ->%list_elem_of_singleton.
      rewrite Forall_forall in Hlt. specialize (Hlt _ Hpos). lia.
    + rewrite !fmap_app in *. simpl in *. by apply stepOneB_snoc.
  - destruct (decide (value e.1 + 1 < value c)).
    + exists sequence, (picked ++ [e]). done.
    + apply (IH (S i) sequence picked e); [done|done| |done|done].
      eapply Forall_impl; [exact Hlt|]. simpl. lia.
Qed.

Lemma indicesAt_spec (group : list (Card * nat)) (sequence : list nat)
    (picked : list (Card * nat)) (acc : list nat) :
  Forall2 (fun pos x => group !! pos = Some x) sequence picked →
  reduceC (fun indices pos =>
             match group !! pos with
             | Some (_, index) => Normal (push indices index)
             | None => typeErrorUndefined
             end) sequence acc
  = Normal (acc ++ picked.*2).
Proof.
  intros H. revert acc. induction H as [|pos [c idx] sequence picked Hpos _ IH]; intros acc.
  - simpl. by rewrite app_nil_r.
  - simpl. rewrite Hpos. simpl. rewrite IH. unfold push. by rewrite <-app_assoc.
Qed.

(** Distinct positions of a group with distinct indices give distinct
    indices. *)
Lemma picked_NoDup (group : list (Card * nat)) (sequence : list nat)
    (picked : list (Card * nat)) :
  NoDup (group.*2) → NoDup sequence →
  Forall2 (fun pos x => group !! pos = Some x) sequence picked →
  NoDup (picked.*2).
Proof.
  intros Hg Hnd H. induction H as [|pos x sequence picked Hpos H IH]; [constructor|].
  apply NoDup_cons in Hnd as [Hnot Hnd]. rewrite fmap_cons. constructor; [|by apply IH].
  intros (y & Hxy & Hy)%list_elem_of_fmap.
  apply list_elem_of_lookup in Hy as [k Hk].
  destruct (Forall2_lookup_r _ _ _ _ _ H Hk) as (pos' & Hpos' & Hy).
  assert (pos = pos'); [|subst pos'; apply Hnot; by eapply list_elem_of_lookup_2].
  eapply (NoDup_lookup (group.*2)); [done| |].
  - by rewrite list_lookup_fmap, Hpos.
  - by rewrite list_lookup_fmap, Hy, Hxy.
Qed.

Lemma runs_good (h : list Card) (s : Suit) (g : list (Card * nat)) :
  (s, g) ∈ groupAll (imap (fun i c => (suit c, (c, i))) h) →
  ∃ runs, Part003AI.runsIn g = Normal runs ∧ Forall (goodMeld h "run") runs.
Proof.
  intros [Hnd Hall]%keyed_group. unfold Part003AI.runsIn.
  case_decide as Hlen; [|by exists []]. cbv zeta.
  set (sorted := sortBy _ g).
  assert (Hperm : sorted ≡ₚ g) by apply sortBy_Permutation.
  apply reduceC_collect; [|constructor].
  intros start [_ Hstart]%elem_of_seq. unfold Part003AI.runFrom.
  destruct (lookup_lt_is_Some_2 sorted start) as [e He]; [lia|].
  destruct (extend_spec sorted (drop (S start) sorted) (S start) [start] [] e)
    as (sequence & picked & -> & Hseq & Hnds & Hstep).
  { done. }
  { by repeat constructor. }
  { repeat constructor. }
  { apply NoDup_singleton. }
  { by destruct e. }
  simpl. case_decide as Hfour; [|by exists []].
  unfold Part003AI.indicesAt. rewrite (indicesAt_spec sorted sequence picked) by done.
  simpl. eexists. split; [done|]. constructor; [|constructor].
  apply (picked_good_run h s).
  - apply (picked_NoDup sorted sequence); [by rewrite Hperm|done|done].
  - rewrite Forall_forall in Hall |- *. intros x Hx. apply Hall. rewrite <-Hperm.
    apply list_elem_of_lookup in Hx as [k Hk].
    destruct (Forall2_lookup_r _ _ _ _ _ Hseq Hk) as (pos & _ & Hpos).
    by eapply list_elem_of_lookup_2.
  - by rewrite <-(Forall2_length _ _ _ Hseq).
  - done.
Qed.

Lemma scoreMeld_defined (l : list nat) (ty : string) (req : Req.t) :
  ∃ score, Part003AI.scoreMeld l ty (Some req) = Normal score.
Proof.
  unfold Part003AI.scoreMeld. destruct (decide (ty = "set")); simpl.
  - destruct (bool_decide (0 < Req.sets req)); simpl; [by eexists|].
    destruct (decide (ty = "run")); simpl; by eexists.
  - destruct (decide (ty = "run")); simpl; by eexists.
Qed.

(** The better of the candidates is one of them, or the best so far. *)
Lemma pickBest_spec (P : Part003AI.Best → Prop) (ty : string) (req : Req.t)
    (possible : list (list nat)) (best : option Part003AI.Best * Z) :
  Forall (fun l => P (Part003AI.mkBest l ty)) possible →
  (∀ b, best.1 = Some b → P b) →
  ∃ best', Part003AI.pickBest ty (Some req) possible best = Normal best' ∧
           ∀ b, best'.1 = Some b → P b.
Proof.
  unfold Part003AI.pickBest. revert best.
  induction possible as [|l possible IH]; intros [bestMeld bestScore] Hall Hbest.
  { by exists (bestMeld, bestScore). }
  apply Forall_cons in Hall as [Hl Hall].
  destruct (scoreMeld_defined l ty req) as [score Hscore].
  simpl. rewrite Hscore. simpl. apply IH; [done|].
  case_decide; [|done]. simpl. by intros b [= <-].
Qed.

(** X27.  [chooseBestMeld] of part_003, for an AI player who holds cards in
    a round of the table of requirements, never throws, and a meld it
    chooses is one that [validateMeld] accepts: its indices are distinct
    indices of the hand, and it is of a type the round asks for. *)
Theorem chooseBestMeld_is_valid (g : Part003.Game) (name : string) (h : list Card)
    (req : Req.t) :
  Part003.playerHands g !! name = Some (Some <$> h) →
  requirementOf (Part003.currentRound g) = Some req →
  ∃ res, Part003AI.chooseBestMeld g name = Normal res ∧
         ∀ best, res = Some best →
           goodMeld h (Part003AI.type best) (Part003AI.cards best) ∧
           ((Part003AI.type best = "set" ∧ 0 < Req.sets req) ∨
            (Part003AI.type best = "run" ∧ 0 < Req.runs req)).
Proof.
  intros Hhand Hreq. unfold Part003AI.chooseBestMeld. rewrite Hhand, Hreq.
  unfold Part003AI.findPossibleSets, Part003AI.findPossibleRuns.
  rewrite !groupBy_cards. cbv zeta.
  change (Normal ?a ≫= ?k) with (k a). cbv beta.
  set (possibleSets := _ ≫= Part003AI.setsIn).
  assert (Hsets : Forall (goodMeld h "set") possibleSets).
  { apply Forall_forall. intros l (grp & Hl & [r Hgrp]%objectValues_elem)%list_elem_of_bind.
    pose proof (sets_good h r grp Hgrp) as Hgood. rewrite Forall_forall in Hgood.
    by apply Hgood. }
  clearbody possibleSets.
  destruct (reduceC_collect Part003AI.runsIn (goodMeld h "run")
              (ServerAI.objectValues ServerAI.suitIndex
                 (groupAll (imap (fun i c => (suit c, (c, i))) h))) [])
    as (possibleRuns & -> & Hruns).
  { intros grp [s Hgrp]%objectValues_elem. by apply (runs_good h s). }
  { constructor. }
  cbn [mbind Completion_bind reqProp].
  set (P := fun best : Part003AI.Best =>
              goodMeld h (Part003AI.type best) (Part003AI.cards best) ∧
              ((Part003AI.type best = "set" ∧ 0 < Req.sets req) ∨
               (Part003AI.type best = "run" ∧ 0 < Req.runs req))).
  assert (Hafter : ∃ afterSets,
            (if decide (0 < Req.sets req)
             then Part003AI.pickBest "set" (Some req) possibleSets (None, 0)
             else Normal (None, 0)) = Normal afterSets ∧
            ∀ b, afterSets.1 = Some b → P b).
  { case_decide as Hn; [|by exists (None, 0)].
    apply pickBest_spec; [|done].
    eapply Forall_impl; [exact Hsets|]. intros l Hl. split; [done|]. by left. }
  destruct Hafter as (afterSets & -> & HafterSets).
  cbn [mbind Completion_bind reqProp].
  assert (Hlast : ∃ afterRuns,
            (if decide (0 < Req.runs req)
             then Part003AI.pickBest "run" (Some req) possibleRuns afterSets
             else Normal afterSets) = Normal afterRuns ∧
            ∀ b, afterRuns.1 = Some b → P b).
  { case_decide as Hn; [|by exists afterSets].
    apply pickBest_spec; [|done].
    eapply Forall_impl; [exact Hruns|]. intros l Hl. split; [done|]. by right. }
  destruct Hlast as (afterRuns & -> & HafterRuns).
  cbn [mbind Completion_bind].
  exists afterRuns.1. split; [done|]. intros best Hbest. by apply HafterRuns.
Qed.

Lemma chooseBestMeld_is_valid_witness :
  let h := [mkCard hearts R7; mkCard diamonds R7; mkCard spades RK; mkCard clubs R7] in
  ∃ res, Part003AI.chooseBestMeld Part003Games.setInHand "A" = Normal res ∧
         ∀ best, res = Some best →
           goodMeld h (Part003AI.type best) (Part003AI.cards best) ∧
           ((Part003AI.type best = "set" ∧ 0 < 2) ∨
            (Part003AI.type best = "run" ∧ 0 < 0)).
Proof.
  apply (chooseBestMeld_is_valid Part003Games.setInHand "A"
           [mkCard hearts R7; mkCard diamonds R7; mkCard spades RK; mkCard clubs R7]
           (Req.mk "2 Sets of 3" 2 0 3 0)).
  - done.
  - done.
Defined.

(** * The buy window of server.js *)

(** When nobody else wants the card, the player who asks for it is the
    first of the buyers. *)
Lemma first_buyer (reqs : list (string * bool)) (p : string) :
  Forall (fun e => e.1 ≠ p → e.2 = false) reqs →
  ∃ others, (filter (fun e : string * bool => e.2 = true) (mapSet reqs p true)).*1
            = p :: others.
Proof.
  induction reqs as [|[q w] reqs IH]; intros Hall; [by exists []|].
  apply Forall_cons in Hall as [Hq Hall]. simpl in Hq. cbn [mapSet].
  destruct (decide (q = p)) as [->|Hne].
  - rewrite filter_cons_True by done. rewrite fmap_cons. by eexists.
  - rewrite filter_cons_False; [by apply IH|]. simpl. rewrite (Hq Hne). done.
Qed.

(** X28.  The buy window of server.js serves a request without checking
    who sends it.  While the window is open and nobody else has asked for
    the card, any player with a record who sends [submitBuyRequest] with
    [wantsCard] true gets the top discard and the top card of the stock when
    the window closes, and their buys go down by one; the handler does not
    ask whether it is their own turn or whether they have a buy left.  The
    window is then closed and the turn has moved on. *)
Theorem buy_request_is_not_checked (g : Server.Game) (p : string) (data : Server.PlayerData) :
  Server.BuyPhase.active (Server.buyPhase g) = true →
  Forall (fun e => e.1 ≠ p → e.2 = false) (Server.BuyPhase.requests (Server.buyPhase g)) →
  Server.playerData g !! p = Some data →
  let '(g', r) := Server.processBuyPhase (Server.submitBuyRequest g p true) in
  r = Normal () ∧
  Server.playerData g'
  = <[p := Server.withBuys (Server.buys data - 1)
             (Server.withHand
                (Server.hand data ++ [(pop (Server.discardPile g)).1;
                                      (Deck.deal (Server.deck g)).1]) data)]>
      (Server.playerData g) ∧
  Server.discardPile g' = (pop (Server.discardPile g)).2 ∧
  Server.deck g' = (Deck.deal (Server.deck g)).2 ∧
  Server.buyPhase g' = Server.BuyPhase.idle ∧
  Server.currentPlayerIndex g'
  = ((Server.currentPlayerIndex g + 1) `mod` length (Server.players g))%nat ∧
  Server.hasDrawn g' = false.
Proof.
  intros Hactive Hothers Hdata.
  unfold Server.submitBuyRequest. rewrite Hactive.
  unfold Server.processBuyPhase.
  cbn [Server.buyPhase Server.withBuyPhase Server.BuyPhase.requests].
  destruct (first_buyer _ p Hothers) as [others ->].
  cbn [Server.playerData Server.discardPile Server.deck Server.withBuyPhase].
  rewrite Hdata.
  destruct (pop (Server.discardPile g)) as [c pile].
  destruct (Deck.deal (Server.deck g)) as [x d].
  split; [done|]. split; [|done].
  cbn. unfold push. by rewrite <-app_assoc.
Qed.

Lemma buy_request_is_not_checked_witness :
  let g := (Server.discardCard fixedPick ServerGames.threeHumans "A" 0).1 in
  let data := Server.mkData [one hearts R2] [] 3 noScores false in
  Server.getCurrentPlayer g = Some "A" ∧
  let '(g', r) := Server.processBuyPhase (Server.submitBuyRequest g "A" true) in
  r = Normal () ∧
  Server.playerData g'
  = <["A" := Server.withBuys (Server.buys data - 1)
               (Server.withHand
                  (Server.hand data ++ [(pop (Server.discardPile g)).1;
                                        (Deck.deal (Server.deck g)).1]) data)]>
      (Server.playerData g) ∧
  Server.discardPile g' = (pop (Server.discardPile g)).2 ∧
  Server.deck g' = (Deck.deal (Server.deck g)).2 ∧
  Server.buyPhase g' = Server.BuyPhase.idle ∧
  Server.currentPlayerIndex g'
  = ((Server.currentPlayerIndex g + 1) `mod` length (Server.players g))%nat ∧
  Server.hasDrawn g' = false.
Proof.
  intros g data. split; [by vm_compute|].
  apply (buy_request_is_not_checked g "A" data).
  - by vm_compute.
  - by vm_compute.
  - by vm_compute.
Defined.

(** * Reordering a hand in part_001 *)

Lemma size_list_to_set_le (l : list (option Z)) :
  (size (list_to_set (C := gset (option Z)) l) <= length l)%nat.
Proof.
  induction l as [|x l IH]; [done|]. simpl.
  rewrite size_union_alt, size_singleton.
  pose proof (subseteq_size (list_to_set l ∖ {[x]}) (list_to_set l : gset (option Z))
                ltac:(by apply subseteq_difference_l)).
  lia.
Qed.

(** A [Set] built from an array has the size of the array only when no
    element is repeated. *)
Lemma size_list_to_set_NoDup (l : list (option Z)) :
  size (list_to_set (C := gset (option Z)) l) = length l → NoDup l.
Proof.
  induction l as [|x l IH]; [constructor|]. simpl. intros Hsize.
  destruct (decide (x ∈ l)) as [Hin|Hin].
  - exfalso. pose proof (size_list_to_set_le l) as Hle.
    assert (Heq : {[x]} ∪ list_to_set l = (list_to_set l : gset (option Z))).
    { apply set_eq. intros y. rewrite elem_of_union, elem_of_singleton, elem_of_list_to_set.
      split; [intros [->|?]; done|by right]. }
    rewrite Heq in Hsize. lia.
  - constructor; [done|]. apply IH.
    rewrite size_union in Hsize.
    + rewrite size_singleton in Hsize. lia.
    + apply disjoint_singleton_l. by rewrite elem_of_list_to_set.
Qed.

(** Reading an array at all its positions, each once, gives its elements
    in another order. *)
Lemma read_all_Permutation (hand : list slot) (positions : list nat) :
  NoDup positions →
  Forall (fun i => (i < length hand)%nat) positions →
  length positions = length hand →
  (fun i => mjoin (hand !! i)) <$> positions ≡ₚ hand.
Proof.
  intros Hnd Hlt Hlen.
  assert (Hperm : positions ≡ₚ seq 0 (length hand)).
  { apply submseteq_length_Permutation; [|by rewrite length_seq, Hlen].
    apply NoDup_submseteq; [done|]. intros i Hi. rewrite Forall_forall in Hlt.
    apply elem_of_seq. specialize (Hlt i Hi). lia. }
  rewrite Hperm. replace ((fun i => mjoin (hand !! i)) <$> seq 0 (length hand)) with hand; [done|].
  apply list_eq. intros i. rewrite list_lookup_fmap.
  destruct (hand !! i) as [x|] eqn:Hx.
  - rewrite lookup_seq_lt by (by eapply lookup_lt_Some). simpl. by rewrite Hx.
  - rewrite lookup_seq_ge; [done|]. by apply lookup_ge_None.
Qed.

(** X29.  The [reorderCards] message of part_001 never changes which cards
    a player holds: when the handler accepts an order, the new hand is the
    old one in another order and nothing else in the game has changed; in
    every other case the game is as it was. *)
Theorem reorderCards_permutes (g g' : Part003.Game) (playerName : option string)
    (cardOrder : option (list (option Z))) (a : Part001Socket.Answer) :
  Part001Socket.reorderCards g playerName cardOrder = (g', a) →
  (a = Part001Socket.gameUpdate →
   ∃ name hand hand',
     playerName = Some name ∧
     Part003.playerHands g !! name = Some hand ∧
     g' = Part003.setHand name hand' g ∧
     hand' ≡ₚ hand) ∧
  (a ≠ Part001Socket.gameUpdate → g' = g).
Proof.
  unfold Part001Socket.reorderCards.
  destruct playerName as [name|]; [|by intros [= <- <-]].
  case_decide; [by intros [= <- <-]|].
  destruct (Part003.playerHands g !! name) as [hand|] eqn:Hhand; [|by intros [= <- <-]].
  destruct cardOrder as [order|]; [|by intros [= <- <-]].
  case_decide as Hlen; [|by intros [= <- <-]]. cbv zeta.
  destruct (forallb _ order && _) eqn:Hok; [|by intros [= <- <-]].
  apply andb_true_iff in Hok as [Hvalid Hunique%bool_decide_eq_true].
  intros [= <- <-]. split; [|done]. intros _.
  eexists name, hand, _. split; [done|]. split; [done|]. split; [done|].
  rewrite <-Hlen in Hunique. apply size_list_to_set_NoDup in Hunique.
  rewrite forallb_forall in Hvalid.
  assert (Hread : (fun index => index ≫= at_index hand) <$> order
                  = (fun i => mjoin (hand !! i)) <$> ((fun index => Z.to_nat (default 0 index)) <$> order)).
  { rewrite <-list_fmap_compose. apply list_fmap_ext. intros k [i|] Hk.
    - simpl. unfold at_index.
      assert (Hi := Hvalid (Some i) ltac:(apply list_elem_of_In; by eapply list_elem_of_lookup_2)).
      simpl in Hi. apply bool_decide_eq_true in Hi. by rewrite decide_True by lia.
    - by specialize (Hvalid None ltac:(apply list_elem_of_In; by eapply list_elem_of_lookup_2)). }
  rewrite Hread. apply read_all_Permutation.
  - apply NoDup_fmap_2_strong; [|done].
    intros [i|] [j|] Hi%list_elem_of_In%Hvalid Hj%list_elem_of_In%Hvalid; try done.
    simpl in *. apply bool_decide_eq_true in Hi, Hj. intros ?. f_equal. lia.
  - apply Forall_fmap, Forall_forall. intros [i|] Hi%list_elem_of_In%Hvalid; [|done].
    simpl in *. apply bool_decide_eq_true in Hi. lia.
  - by rewrite length_fmap.
Qed.

Lemma reorderCards_permutes_witness :
  let g := Part003Games.goneDown in
  let g' := (Part001Socket.reorderCards g (Some "A") (Some [Some 1; Some 0])).1 in
  ∃ name hand hand',
    Some "A" = Some name ∧
    Part003.playerHands g !! name = Some hand ∧
    g' = Part003.setHand name hand' g ∧
    hand' ≡ₚ hand.
Proof.
  intros g g'.
  refine (proj1 (reorderCards_permutes g g' (Some "A") (Some [Some 1; Some 0])
                   Part001Socket.gameUpdate _) _).
  - by vm_compute.
  - done.
Defined.
